(** * Project A2: dense / sparse kernel benchmark

    A shallow embedding of [a2_kernels.cpp], [a2_utils.cpp] and
    [a2_benchmark.cpp]: the kernels, the matrix builder, the statistics,
    the reader of the counter file, the command line and [main].

    Conventions.
    - A C++ [int] / [size_t] value is a [Z].  Signed overflow is undefined
      behaviour in C++, so no wrap-around is modelled.  The bounds of the
      "band" pattern of the builder leave [int] on matrices that fit in
      memory: their operations are checked, and an overflow is the
      outcome [Overflow].  The index arithmetic of the kernels leaves
      [int] only on matrices with a dimension above [2^30] or with [2^31]
      elements or more, and the definitions describe the runs in which
      it does not.
    - A [float*] buffer or a [std::vector] is a [list]; an access outside
      the buffer (undefined behaviour in the source) is the outcome
      [OutOfBounds], a loop that never leaves is the outcome [Diverges].
    - A product and a sum of [float] written as one expression may be
      contracted into one fused operation by the compiler: the kernels
      are given for both ways of building them.
    - The [#pragma omp parallel for] loops write disjoint rows of the
      output, so the sequential order of the loop is the one modelled. *)

From Stdlib Require Import ZArith Lia String Ascii.
From Stdlib Require Import Floats.SpecFloat.
From stdpp Require Import base list sorting.

Local Open Scope Z_scope.

(** ** Outcomes of a kernel run *)

Inductive outcome (A : Type) : Type :=
  | Done (a : A)
  | OutOfBounds
  | Overflow
  | Diverges.
Arguments Done {A} a.
Arguments OutOfBounds {A}.
Arguments Overflow {A}.
Arguments Diverges {A}.

#[global] Instance outcome_ret : MRet outcome := @Done.
#[global] Instance outcome_bind : MBind outcome := fun A B f m =>
  match m with
  | Done a => f a
  | OutOfBounds => OutOfBounds
  | Overflow => Overflow
  | Diverges => Diverges
  end.

(** The result [z] of an operation on [int]: outside [INT_MIN .. INT_MAX]
    the operation has overflowed. *)
Definition int_result (z : Z) : outcome Z :=
  if bool_decide (- 2 ^ 31 <= z < 2 ^ 31) then Done z else Overflow.

(** ** Buffers *)

(** [x[i]] as an rvalue. *)
Definition load {A} (x : list A) (i : Z) : outcome A :=
  if bool_decide (i < 0) then OutOfBounds
  else match x !! Z.to_nat i with
       | Some v => Done v
       | None => OutOfBounds
       end.

(** [x[i] = v]. *)
Definition store {A} (x : list A) (i : Z) (v : A) : outcome (list A) :=
  if bool_decide (0 <= i < Z.of_nat (length x))
  then Done (<[Z.to_nat i := v]> x)
  else OutOfBounds.

(** ** Loops *)

(** [for (int i = lo; i < hi; i += step) body(i)].  The fuel is the distance
    [hi - lo]: a loop with [step >= 1] never uses it up, a loop with
    [step <= 0] that is entered never leaves. *)
Fixpoint for_step_fuel {St} (fuel : nat) (i hi step : Z)
    (body : Z -> St -> outcome St) (s : St) : outcome St :=
  if bool_decide (i < hi) then
    match fuel with
    | O => Diverges
    | S fuel' => s' ← body i s; for_step_fuel fuel' (i + step) hi step body s'
    end
  else Done s.

Definition for_step {St} (lo hi step : Z)
    (body : Z -> St -> outcome St) (s : St) : outcome St :=
  for_step_fuel (Z.to_nat (hi - lo)) lo hi step body s.

(** [for (int i = lo; i < hi; i++) body(i)]. *)
Definition for_range {St} (lo hi : Z)
    (body : Z -> St -> outcome St) (s : St) : outcome St :=
  for_step lo hi 1 body s.

(** ** [std::sort]

    What the C++ standard asks of [std::sort(first, last, comp)] when [comp]
    is a strict weak ordering of the elements: the result is a rearrangement
    of the input in which no element is [comp]-less than an earlier one.
    The order of equivalent elements is not fixed. *)
Definition strict_weak_on {T} (lt : T -> T -> bool) (l : list T) : Prop :=
  (forall x, x ∈ l -> lt x x = false) /\
  (forall x y z, x ∈ l -> y ∈ l -> z ∈ l ->
     lt x y = true -> lt y z = true -> lt x z = true) /\
  (forall x y z, x ∈ l -> y ∈ l -> z ∈ l ->
     lt x y = false -> lt y z = false -> lt x z = false).

Definition sort_contract
    (std_sort : forall T : Type, (T -> T -> bool) -> list T -> list T) : Prop :=
  forall T (lt : T -> T -> bool) (l : list T),
    strict_weak_on lt l ->
    std_sort T lt l ≡ₚ l /\
    StronglySorted (fun x y => lt y x = false) (std_sort T lt l).

(** [enum class LayoutB { RowMajor, ColMajor }]. *)
Inductive LayoutB : Type := RowMajor | ColMajor.

Section Kernels.

(** Single-precision arithmetic: the type [float], [+0.0f], [x + y],
    [x * y] and the fused [x * y + z] of [_mm256_fmadd_ps]. *)
Variable F : Type.
Variable fzero : F.
Variable fadd fmul : F -> F -> F.
Variable ffma : F -> F -> F -> F.

(** Whether the build of [a2_kernels.cpp] contracts a product and a sum
    written as one expression of [float] into one fused operation,
    rounded once.  C++ leaves this to the implementation: GCC does it by
    default where the target has the instruction ([-ffp-contract=fast]
    with [-mfma] or [-march=native]) and does not under
    [-ffp-contract=off] or a strict [-std=c++17]. *)
Variable contract : bool.

(** The expression [c + a * b], as in [c += a * b]. *)
Definition mul_add (c a b : F) : F :=
  if contract then ffma a b c else fadd c (fmul a b).

(** [struct CSR]. *)
Record CSR : Type := mkCSR {
  csr_m : Z;
  csr_k : Z;
  rowptr : list Z;
  colidx : list Z;
  values : list F
}.

(** [csr_nnz]. *)
Definition csr_nnz (A : CSR) : Z := Z.of_nat (length (values A)).

(** What the SpMM kernels rely on without checking it: [rowptr] has
    [m + 1] entries that never decrease and stay inside [colidx], every
    column index is a column of the matrix, and [colidx] and [values]
    run in parallel. *)
Definition csr_wf (A : CSR) : Prop :=
  0 <= csr_m A /\
  Z.of_nat (length (rowptr A)) = csr_m A + 1 /\
  length (colidx A) = length (values A) /\
  (forall i p0 p1, 0 <= i < csr_m A ->
     rowptr A !! Z.to_nat i = Some p0 ->
     rowptr A !! Z.to_nat (i + 1) = Some p1 ->
     0 <= p0 <= p1 /\ p1 <= Z.of_nat (length (colidx A))) /\
  Forall (fun c => 0 <= c < csr_k A) (colidx A).

(** Row [i] of a row-major buffer with [n] columns, as a set of flat
    indices, and the buffers that agree with [C] outside that row. *)
Definition in_row (n i : Z) (idx : nat) : Prop :=
  i * n <= Z.of_nat idx < i * n + n.

Definition row_frame (n i : Z) (C C' : list F) : Prop :=
  length C' = length C /\
  forall idx : nat, ~ in_row n i idx -> C' !! idx = C !! idx.

(** [zero_fill(x, n)]: [memset] of the first [n] floats. *)
Definition zero_fill (x : list F) (n : Z) : outcome (list F) :=
  if bool_decide (0 <= n <= Z.of_nat (length x))
  then Done (replicate (Z.to_nat n) fzero ++ drop (Z.to_nat n) x)
  else OutOfBounds.

(** [gemm_tiled_scalar]. *)
Definition gemm_tiled_scalar (A B C : list F)
    (m k n tileM tileK tileN : Z) : outcome (list F) :=
  for_step 0 m tileM (fun ii C =>
    for_step 0 k tileK (fun kk C =>
      for_step 0 n tileN (fun jj C =>
        let i_end := Z.min m (ii + tileM) in
        let k_end := Z.min k (kk + tileK) in
        let j_end := Z.min n (jj + tileN) in
        for_range ii i_end (fun i C =>
          for_range kk k_end (fun t C =>
            a ← load A (i * k + t);
            for_range jj j_end (fun j C =>
              bj ← load B (t * n + jj + (j - jj));
              cj ← load C (i * n + jj + (j - jj));
              store C (i * n + jj + (j - jj)) (mul_add cj a bj)) C) C) C)
      C) C) C.

(** The test scenario of the specification: [zero_fill] of the output,
    then one call of the tiled kernel, or two calls in a row. *)
Definition gemm_after_zero_fill (A B C : list F)
    (m k n tileM tileK tileN : Z) : outcome (list F) :=
  C ← zero_fill C (m * n);
  gemm_tiled_scalar A B C m k n tileM tileK tileN.

Definition gemm_twice_after_zero_fill (A B C : list F)
    (m k n tileM tileK tileN : Z) : outcome (list F) :=
  C ← zero_fill C (m * n);
  C ← gemm_tiled_scalar A B C m k n tileM tileK tileN;
  gemm_tiled_scalar A B C m k n tileM tileK tileN.

(** [x[i]] inside a buffer known to hold it. *)
Definition elt (x : list F) (i : Z) : F := default fzero (x !! Z.to_nat i).

(** The accumulation [c += A[i,t] * B[t,j]] for [t = t0 .. t1 - 1], in
    this order. *)
Definition dot_acc (A B : list F) (k n i j : Z) (c : F) (t0 t1 : Z) : F :=
  fold_left (fun acc t => mul_add acc (elt A (i * k + t)) (elt B (t * n + j)))
            (seqZ t0 (t1 - t0)) c.

(** [C'] is [C] with the accumulation over [t0 .. t1 - 1] applied to the
    elements [(i, j)] of the region [R] of an m x n output, and to no
    other element. *)
Definition accumulated (A B : list F) (m k n : Z) (R : Z -> Z -> Prop)
    (t0 t1 : Z) (C C' : list F) : Prop :=
  length C' = length C /\
  forall i j, 0 <= i < m -> 0 <= j < n ->
    (R i j -> C' !! Z.to_nat (i * n + j)
              = Some (dot_acc A B k n i j (elt C (i * n + j)) t0 t1)) /\
    (~ R i j -> C' !! Z.to_nat (i * n + j) = C !! Z.to_nat (i * n + j)).

(** An [__m256] value: eight lanes. [_mm256_loadu_ps(x + i)]. *)
Definition loadu_ps (x : list F) (i : Z) : outcome (list F) :=
  if bool_decide (0 <= i /\ i + 8 <= Z.of_nat (length x))
  then Done (take 8 (drop (Z.to_nat i) x))
  else OutOfBounds.

(** [_mm256_storeu_ps(x + i, v)]. *)
Definition storeu_ps (x : list F) (i : Z) (v : list F) : outcome (list F) :=
  if bool_decide (0 <= i /\ i + 8 <= Z.of_nat (length x))
  then Done (take (Z.to_nat i) x ++ take 8 v ++ drop (Z.to_nat i + 8) x)
  else OutOfBounds.

(** [_mm256_set1_ps(a)]. *)
Definition set1_ps (a : F) : list F := replicate 8 a.

(** [_mm256_fmadd_ps(a, b, c)]: lane-wise [a * b + c]. *)
Fixpoint fmadd_ps (a b c : list F) : list F :=
  match a, b, c with
  | x :: a', y :: b', z :: c' => ffma x y z :: fmadd_ps a' b' c'
  | _, _, _ => []
  end.

(** [gemm_tiled_avx2]. *)
Definition gemm_tiled_avx2 (A B C : list F)
    (m k n tileM tileK tileN : Z) : outcome (list F) :=
  for_step 0 m tileM (fun ii C =>
    for_step 0 k tileK (fun kk C =>
      for_step 0 n tileN (fun jj C =>
        let i_end := Z.min m (ii + tileM) in
        let k_end := Z.min k (kk + tileK) in
        let j_end := Z.min n (jj + tileN) in
        let j_vec_end := jj + Z.quot (j_end - jj) 8 * 8 in
        for_range ii i_end (fun i C =>
          for_range kk k_end (fun t C =>
            a ← load A (i * k + t);
            let a8 := set1_ps a in
            C ← for_step jj j_vec_end 8 (fun j C =>
                   bv ← loadu_ps B (t * n + jj + (j - jj));
                   cv ← loadu_ps C (i * n + jj + (j - jj));
                   storeu_ps C (i * n + jj + (j - jj)) (fmadd_ps a8 bv cv)) C;
            for_range j_vec_end j_end (fun j C =>
              a' ← load A (i * k + t);
              bj ← load B (t * n + j);
              cj ← load C (i * n + j);
              store C (i * n + j) (mul_add cj a' bj)) C) C) C)
      C) C) C.

(** The lambda [getB] of [spmm_csr_scalar]. *)
Definition getB (A : CSR) (B : list F) (n : Z) (layoutB : LayoutB)
    (col j : Z) : outcome F :=
  match layoutB with
  | RowMajor => load B (col * n + j)
  | ColMajor => load B (j * csr_k A + col)
  end.

(** [spmm_csr_scalar]. *)
Definition spmm_csr_scalar (A : CSR) (B C : list F) (n jblock : Z)
    (layoutB : LayoutB) : outcome (list F) :=
  let m := csr_m A in
  C ← zero_fill C (m * n);
  for_range 0 m (fun i C =>
    p0 ← load (rowptr A) i;
    p1 ← load (rowptr A) (i + 1);
    for_step 0 n jblock (fun j0 C =>
      let j1 := Z.min n (j0 + jblock) in
      for_range p0 p1 (fun p C =>
        col ← load (colidx A) p;
        a ← load (values A) p;
        for_range j0 j1 (fun j C =>
          cj ← load C (i * n + j);
          bj ← getB A B n layoutB col j;
          store C (i * n + j) (mul_add cj a bj)) C) C) C) C.

(** [spmm_csr_avx2]. *)
Definition spmm_csr_avx2 (A : CSR) (B C : list F) (n jblock : Z)
    (layoutB : LayoutB) : outcome (list F) :=
  match layoutB with
  | ColMajor => spmm_csr_scalar A B C n jblock layoutB
  | RowMajor =>
    let m := csr_m A in
    C ← zero_fill C (m * n);
    for_range 0 m (fun i C =>
      p0 ← load (rowptr A) i;
      p1 ← load (rowptr A) (i + 1);
      for_step 0 n jblock (fun j0 C =>
        let j1 := Z.min n (j0 + jblock) in
        let j_vec_end := j0 + Z.quot (j1 - j0) 8 * 8 in
        for_range p0 p1 (fun p C =>
          col ← load (colidx A) p;
          a ← load (values A) p;
          let a8 := set1_ps a in
          C ← for_step j0 j_vec_end 8 (fun j C =>
                 bv ← loadu_ps B (col * n + j);
                 cv ← loadu_ps C (i * n + j);
                 storeu_ps C (i * n + j) (fmadd_ps a8 bv cv)) C;
          for_range j_vec_end j1 (fun j C =>
            cj ← load C (i * n + j);
            bj ← load B (col * n + j);
            store C (i * n + j) (mul_add cj a bj)) C) C) C) C
  end.

End Kernels.

(** ** IEEE 754 arithmetic

    [float] is binary32 and [double] is binary64, both with the default
    rounding to nearest even, over the executable [spec_float] model of the
    standard library: a [spec_float] is a zero, an infinity, a NaN or a
    finite [(-1)^s * m * 2^e]. *)

Section IEEE.

Variables prec emax : Z.

(** The value [z] of an integer type converted to the format. *)
Definition fp_of_Z (z : Z) : spec_float :=
  binary_normalize prec emax z 0 false.

(** The fraction [p / q] rounded once: the value of a decimal literal
    such as [0.95] is [fp_ratio 95 100]. *)
Definition fp_ratio (p q : Z) : spec_float :=
  SFdiv prec emax (fp_of_Z p) (fp_of_Z q).

(** [x * y + z] rounded once.  The product of two finite numbers is
    exact as an unnormalised [spec_float], and the addition of the
    standard library rounds the exact sum. *)
Definition SFfma (x y z : spec_float) : spec_float :=
  match x, y, z with
  | S754_finite sx mx ex, S754_finite sy my ey, S754_finite _ _ _ =>
      SFadd prec emax (S754_finite (xorb sx sy) (mx * my) (ex + ey)) z
  | _, _, _ => SFadd prec emax (SFmul prec emax x y) z
  end.

End IEEE.

(** The C++ type [float]. *)
Module F32.
Definition prec : Z := 24.
Definition emax : Z := 128.
Definition zero : spec_float := S754_zero false.
Definition add : spec_float -> spec_float -> spec_float := SFadd prec emax.
Definition mul : spec_float -> spec_float -> spec_float := SFmul prec emax.
Definition fma : spec_float -> spec_float -> spec_float -> spec_float :=
  SFfma prec emax.
Definition of_Z : Z -> spec_float := fp_of_Z prec emax.
Definition ratio : Z -> Z -> spec_float := fp_ratio prec emax.
End F32.

(** The C++ type [double]. *)
Module F64.
Definition prec : Z := 53.
Definition emax : Z := 1024.
Definition zero : spec_float := S754_zero false.
Definition add : spec_float -> spec_float -> spec_float := SFadd prec emax.
Definition sub : spec_float -> spec_float -> spec_float := SFsub prec emax.
Definition mul : spec_float -> spec_float -> spec_float := SFmul prec emax.
Definition div : spec_float -> spec_float -> spec_float := SFdiv prec emax.
Definition ltb : spec_float -> spec_float -> bool := SFltb.
Definition of_Z : Z -> spec_float := fp_of_Z prec emax.
Definition ratio : Z -> Z -> spec_float := fp_ratio prec emax.

(** [std::min(a, b)] is [(b < a) ? b : a] and [std::max(a, b)] is
    [(a < b) ? b : a]. *)
Definition min (a b : spec_float) : spec_float := if ltb b a then b else a.
Definition max (a b : spec_float) : spec_float := if ltb a b then b else a.
End F64.

(** The order of [x < y] on the numbers that are not NaN, read off a key:
    the class (infinities, negative, zero, positive), then the exponent and
    the mantissa, both reversed for the negative numbers. *)
Definition order_key (x : spec_float) : Z * Z * Z :=
  match x with
  | S754_nan => (0, 0, 0)
  | S754_zero _ => (0, 0, 0)
  | S754_infinity s => (if s then -2 else 2, 0, 0)
  | S754_finite true m e => (-1, - e, - Z.pos m)
  | S754_finite false m e => (1, e, Z.pos m)
  end.

Definition key_lt (a b : Z * Z * Z) : Prop :=
  a.1.1 < b.1.1 \/
  (a.1.1 = b.1.1 /\ (a.1.2 < b.1.2 \/ (a.1.2 = b.1.2 /\ a.2 < b.2))).

Definition not_nan (x : spec_float) : Prop := x <> S754_nan.

(** ** Conversions from [double] to [int] *)

(** [std::round]: the nearest integer, halfway cases away from zero. *)
Definition round_half_away (x : spec_float) : option Z :=
  match x with
  | S754_zero _ => Some 0
  | S754_finite s m e =>
      let mag := if bool_decide (0 <= e) then Z.pos m * 2 ^ e
                 else (2 * Z.pos m + 2 ^ (- e)) / 2 ^ (1 - e) in
      Some (if s then - mag else mag)
  | _ => None
  end.

Section RoundToInt.

(** What the conversion instruction of the platform leaves in the [int]
    when the value has no [int] representation (NaN, infinities, values
    beyond 32 bits): the conversion is undefined in C++. *)
Variable cast_ub : spec_float -> Z.

(** [(int)std::round(x)]. *)
Definition round_to_int (x : spec_float) : Z :=
  match round_half_away x with
  | Some z => if bool_decide (- 2 ^ 31 <= z < 2 ^ 31) then z else cast_ub x
  | None => cast_ub x
  end.

End RoundToInt.

Section Band.

Variable cast_ub : spec_float -> Z.

(** The half-width [bw] of the "band" pattern, [std::max(1, (int)std::round(x))]
    for [x = k * std::min(0.20, std::max(0.01, density * 5.0))]. *)
Definition band_width (k : Z) (density : spec_float) : Z :=
  Z.max 1 (round_to_int cast_ub
    (F64.mul (F64.of_Z k)
       (F64.min (F64.ratio 20 100)
          (F64.max (F64.ratio 1 100) (F64.mul density (F64.of_Z 5)))))).

(** The bounds [lo] and [hi] that row [i] of the "band" pattern draws its
    columns between.  [center] is computed on [int64_t], where the product
    of two [int] does not overflow, and for a row of the matrix the
    quotient is an [int] again; [center - bw], [k - 1] and [center + bw]
    are computed on [int]. *)
Definition band_window (m k : Z) (density : spec_float) (i : Z)
    : outcome (Z * Z) :=
  let bw := band_width k density in
  let center := Z.quot (i * k) (Z.max 1 m) in
  below ← int_result (center - bw);
  k1 ← int_result (k - 1);
  above ← int_result (center + bw);
  Done (Z.max 0 below, Z.min k1 above).

End Band.

(** [std::unique] followed by [erase] on a vector of [int]: the first
    element of every run of equal elements. *)
Fixpoint unique (l : list Z) : list Z :=
  match l with
  | [] => []
  | x :: l' =>
      match l' with
      | y :: _ => if bool_decide (x = y) then unique l' else x :: unique l'
      | [] => [x]
      end
  end.

(** [rows[i].push_back(x)]. *)
Definition push_back {T} (rows : list (list T)) (i : Z) (x : T)
    : outcome (list (list T)) :=
  r ← load rows i; store rows i (r ++ [x]).

Section Random.

Variable F : Type.
Variable fzero : F.
Variable fadd fmul : F -> F -> F.
Variable ffma : F -> F -> F -> F.

(** Whether [a2_kernels.cpp] is built with products and sums contracted. *)
Variable contract : bool.

(** The [<random>] library: the state of a [std::mt19937_64], the engine
    seeded with [seed], one call of
    [std::uniform_real_distribution<float>(-1.0f, 1.0f)] and one call of
    [std::uniform_int_distribution<int>(a, b)]. *)
Variable rng : Type.
Variable mt19937_64 : Z -> rng.
Variable uniform_real : rng -> F * rng.
Variable uniform_int : Z -> Z -> rng -> Z * rng.

(** [std::sort(first, last, comp)]. *)
Variable std_sort : forall T : Type, (T -> T -> bool) -> list T -> list T.

Variable cast_ub : spec_float -> Z.

(** [fill_random(x, n, seed)]. *)
Definition fill_random (x : list F) (n : Z) (seed : Z) : outcome (list F) :=
  r ← for_range 0 n (fun i '(x, g) =>
         let '(v, g) := uniform_real g in
         x ← store x i v;
         Done (x, g)) (x, mt19937_64 seed);
  Done r.1.

(** [volatile float s = 1.1f]. *)
Variable scalar_s : F.

(** [stream_triad_bandwidth_gbps(N, iters, seed)] up to the end of the
    timed loop.  [a], [b] and [c] are the three buffers as
    [make_aligned_f32(N, 64)] hands them out, with whatever they hold;
    the result is the three buffers when the loop over [iters] is left.
    The function goes on to turn the elapsed time into GB/s and to free
    the buffers. *)
Definition stream_triad (a b c : list F) (N iters : Z)
    : outcome (list F * list F * list F) :=
  a ← fill_random a N 1;
  b ← fill_random b N 2;
  c ← fill_random c N 3;
  a ← for_range 0 iters (fun it a =>
         for_range 0 N (fun i a =>
           bi ← load b i;
           ci ← load c i;
           store a i (mul_add F fadd fmul ffma contract bi scalar_s ci)) a) a;
  Done (a, b, c).

(** *** [make_random_csr] *)

Definition gen_state : Type := list (list Z) * list (list F) * rng.

(** The body shared, word for word, by the rows of the "band" and of the
    "blockdiag" pattern: [target] draws from [bdist(lo, hi)] pushed on
    row [i], then [std::sort] and [std::unique] on the columns of the
    row.  The values of the row are left as they are. *)
Definition draw_row (i lo hi target : Z) (st : gen_state) : outcome gen_state :=
  '(cols, vals, g) ← for_range 0 target (fun t '(cols, vals, g) =>
      let '(c, g) := uniform_int lo hi g in
      cols ← push_back cols i c;
      let '(v, g) := uniform_real g in
      vals ← push_back vals i v;
      Done (cols, vals, g)) st;
  rc ← load cols i;
  cols ← store cols i (unique (std_sort Z Z.ltb rc));
  Done (cols, vals, g).

(** [(int)std::round(span * std::min(1.0, density * (double)k / (double)span))]
    clamped by [std::max(1, std::min(span, target))]. *)
Definition row_target (density : spec_float) (k span : Z) : Z :=
  let target :=
    round_to_int cast_ub
      (F64.mul (F64.of_Z span)
         (F64.min (F64.of_Z 1)
            (F64.div (F64.mul density (F64.of_Z k)) (F64.of_Z span)))) in
  Z.max 1 (Z.min span target).

(** The rows of the "band" pattern.  [span = hi - lo + 1] is computed on
    [int] like the bounds. *)
Definition band_rows (m k : Z) (density : spec_float) (st : gen_state)
    : outcome gen_state :=
  for_range 0 m (fun i st =>
    '(lo, hi) ← band_window cast_ub m k density i;
    width ← int_result (hi - lo);
    span ← int_result (width + 1);
    draw_row i lo hi (row_target density k span) st) st.

Definition blockdiag_rows (m k : Z) (density : spec_float) (st : gen_state)
    : outcome gen_state :=
  let blocks := 8 in
  let bm := Z.max 1 (Z.quot m blocks) in
  let bk := Z.max 1 (Z.quot k blocks) in
  for_range 0 m (fun i st =>
    let bi := Z.min (blocks - 1) (Z.quot i bm) in
    let lo := bi * bk in
    let hi := Z.min (k - 1) (lo + bk - 1) in
    let span := hi - lo + 1 in
    draw_row i lo hi (row_target density k span) st) st.

(** [rc[a]] inside the comparison lambda of the index sort. *)
Definition col_at (rc : list Z) (a : Z) : Z := default 0 (rc !! Z.to_nat a).

(** The second loop of the uniform pattern, for row [r]: one synthetic
    entry if the row is empty, the indices of the row sorted by column,
    and the first entry of every run of equal columns kept. *)
Definition finish_row (k r : Z) (st : gen_state) : outcome gen_state :=
  let '(cols, vals, g) := st in
  rc ← load cols r;
  rv ← load vals r;
  let '(rc, rv, g) :=
    match rc with
    | [] => let '(c, g) := uniform_int 0 (k - 1) g in
            let '(v, g) := uniform_real g in
            (rc ++ [c], rv ++ [v], g)
    | _ => (rc, rv, g)
    end in
  let idx := std_sort Z (fun a b => col_at rc a <? col_at rc b)
               (seqZ 0 (Z.of_nat (length rc))) in
  '(last, rc2, rv2) ← for_range 0 (Z.of_nat (length idx))
      (fun t2 '(last, rc2, rv2) =>
         it ← load idx t2;
         c ← load rc it;
         if bool_decide (c = last) then Done (last, rc2, rv2)
         else v ← load rv it; Done (c, rc2 ++ [c], rv2 ++ [v]))
      (-1, [], []);
  cols ← store cols r rc2;
  vals ← store vals r rv2;
  Done (cols, vals, g).

Definition uniform_rows (m k : Z) (density : spec_float) (st : gen_state)
    : outcome gen_state :=
  let expected := F64.mul (F64.mul (F64.of_Z m) (F64.of_Z k)) density in
  let nnz := Z.max m (round_to_int cast_ub expected) in
  st ← for_range 0 nnz (fun t '(cols, vals, g) =>
      let '(r, g) := uniform_int 0 (m - 1) g in
      let '(c, g) := uniform_int 0 (k - 1) g in
      cols ← push_back cols r c;
      let '(v, g) := uniform_real g in
      vals ← push_back vals r v;
      Done (cols, vals, g)) st;
  for_range 0 m (fun r st => finish_row k r st) st.

(** The end of [make_random_csr]: the prefix sums of the row lengths,
    then the rows copied one after the other. *)
Definition assemble (m k : Z) (cols : list (list Z)) (vals : list (list F))
    : outcome (CSR F) :=
  '(rp, total) ← for_range 0 m (fun i '(rp, total) =>
      rp ← store rp i total;
      ci ← load cols i;
      Done (rp, total + Z.of_nat (length ci)))
    (replicate (Z.to_nat (m + 1)) 0, 0);
  rp ← store rp m total;
  '(ci, vs, p) ← for_range 0 m (fun i st =>
      rc ← load cols i;
      rv ← load vals i;
      for_range 0 (Z.of_nat (length rc)) (fun t '(ci, vs, p) =>
        c ← load rc t;
        v ← load rv t;
        ci ← store ci p c;
        vs ← store vs p v;
        Done (ci, vs, p + 1)) st)
    (replicate (Z.to_nat total) 0, replicate (Z.to_nat total) fzero, 0);
  Done (mkCSR F m k rp ci vs).

(** [make_random_csr(m, k, density, pattern, seed)]. *)
Definition make_random_csr (m k : Z) (density : spec_float)
    (pattern : string) (seed : Z) : outcome (CSR F) :=
  let st : gen_state :=
    (replicate (Z.to_nat m) [], replicate (Z.to_nat m) [], mt19937_64 seed) in
  '(cols, vals, _) ←
    (if String.eqb pattern "band" then band_rows m k density st
     else if String.eqb pattern "blockdiag" then blockdiag_rows m k density st
     else uniform_rows m k density st);
  assemble m k cols vals.

End Random.

(** *** What the builder promises *)

(** A finished row: at least one column, the columns strictly increasing
    and inside [0, k), and a value for every column. *)
Definition good_row {F} (k : Z) (rc : list Z) (rv : list F) : Prop :=
  rc <> [] /\
  StronglySorted Z.lt rc /\
  Forall (fun c => 0 <= c < k) rc /\
  (length rc <= length rv)%nat.

(** A row of the uniform pattern before it is sorted. *)
Definition raw_row {F} (k : Z) (rc : list Z) (rv : list F) : Prop :=
  length rc = length rv /\ Forall (fun c => 0 <= c < k) rc.

(** [rowptr[i]] of the finished matrix: the entries of the rows before [i]. *)
Definition offset (cols : list (list Z)) (i : nat) : Z :=
  Z.of_nat (length (concat (take i cols))).

(** The invariant of the CSR matrix of an m x k matrix: [rowptr] has
    [m + 1] entries, starts at 0 and ends at the common length of [colidx]
    and [values]; every row [i] is not empty ([rowptr[i] < rowptr[i+1]],
    so [rowptr] never decreases) and its columns
    [colidx[rowptr[i] .. rowptr[i+1])] are strictly increasing and lie in
    [0, k). *)
Definition csr_invariant {F} (m k : Z) (A : CSR F) : Prop :=
  csr_m F A = m /\ csr_k F A = k /\
  Z.of_nat (length (rowptr F A)) = m + 1 /\
  rowptr F A !! 0%nat = Some 0 /\
  rowptr F A !! Z.to_nat m = Some (Z.of_nat (length (colidx F A))) /\
  length (colidx F A) = length (values F A) /\
  forall i, 0 <= i < m ->
    exists p0 p1 row,
      rowptr F A !! Z.to_nat i = Some p0 /\
      rowptr F A !! Z.to_nat (i + 1) = Some p1 /\
      0 <= p0 < p1 /\ p1 <= Z.of_nat (length (colidx F A)) /\
      row = take (Z.to_nat (p1 - p0)) (drop (Z.to_nat p0) (colidx F A)) /\
      Z.of_nat (length row) = p1 - p0 /\
      StronglySorted Z.lt row /\
      Forall (fun c => 0 <= c < k) row.

(** ** Timing statistics ([a2_utils.cpp], and the summary in [main]) *)

(** [(size_t)x] for a [double] that is not negative: the integer part. *)
Definition trunc_to_Z (x : spec_float) : option Z :=
  match x with
  | S754_zero _ => Some 0
  | S754_finite false m e =>
      Some (if bool_decide (0 <= e) then Z.pos m * 2 ^ e else Z.pos m / 2 ^ (- e))
  | _ => None
  end.

Section Stats.

(** [std::sort] and the conversions that are undefined in C++. *)
Variable std_sort : forall T : Type, (T -> T -> bool) -> list T -> list T.
Variable cast_ub : spec_float -> Z.

(** [(size_t)idx]. *)
Definition to_size_t (x : spec_float) : Z :=
  match trunc_to_Z x with
  | Some z => if bool_decide (z < 2 ^ 64) then z else cast_ub x
  | None => cast_ub x
  end.

(** [(a + frac * (b - a)) * 1e6]. *)
Definition lerp_us (a b frac : spec_float) : spec_float :=
  F64.mul (F64.add a (F64.mul frac (F64.sub b a))) (F64.of_Z 1000000).

(** The lambda [pick] of [percentile_us], over the sorted copy [v]. *)
Definition pick (v : list spec_float) (q : spec_float) : outcome spec_float :=
  let size := Z.of_nat (length v) in
  let idx := F64.mul q (F64.of_Z (size - 1)) in
  let i := to_size_t idx in
  let frac := F64.sub idx (F64.of_Z i) in
  a ← load v i;
  b ← load v (Z.min (i + 1) (size - 1));
  Done (lerp_us a b frac).

(** [percentile_us(samples_sec, p50, p95, p99)]: the three outputs. *)
Definition percentile_us (samples_sec : list spec_float)
    : outcome (spec_float * spec_float * spec_float) :=
  match samples_sec with
  | [] => Done (F64.zero, F64.zero, F64.zero)
  | _ =>
      let v := std_sort spec_float F64.ltb samples_sec in
      p50 ← pick v (F64.ratio 50 100);
      p95 ← pick v (F64.ratio 95 100);
      p99 ← pick v (F64.ratio 99 100);
      Done (p50, p95, p99)
  end.

(** [main]: [tmp = call_times; std::sort(tmp); seconds = tmp[tmp.size() / 2]]. *)
Definition median_seconds (call_times : list spec_float) : outcome spec_float :=
  let tmp := std_sort spec_float F64.ltb call_times in
  load tmp (Z.quot (Z.of_nat (length tmp)) 2).

End Stats.

(** The fractional rank [q * (N - 1)] of the specification, [q] given in
    percent: the rank below it is the integer part [q * (N - 1) / 100], and
    the value is interpolated between this rank and the next one of the
    sorted samples, in microseconds. *)
Definition spec_percentile_us (sorted : list spec_float) (q : Z)
    : option spec_float :=
  let size := Z.of_nat (length sorted) in
  let i := q * (size - 1) / 100 in
  let frac := F64.sub (F64.mul (F64.ratio q 100) (F64.of_Z (size - 1)))
                      (F64.of_Z i) in
  match sorted !! Z.to_nat i, sorted !! Z.to_nat (Z.min (i + 1) (size - 1)) with
  | Some a, Some b => Some (lerp_us a b frac)
  | _, _ => None
  end.

(** The float computation of the rank agrees with the exact one for a
    population of [size] samples. *)
Definition rank_exact (size : Z) : bool :=
  forallb (fun q =>
    bool_decide (trunc_to_Z (F64.mul (F64.ratio q 100) (F64.of_Z (size - 1)))
                 = Some (q * (size - 1) / 100)))
    [50; 95; 99].

(** Modelled from the spec: "the median" of the samples, which the source
    does not define.  With the samples in increasing order it is the middle
    one when their number is odd and the mean of the two middle ones when
    it is even. *)
Definition spec_median (sorted : list spec_float) : option spec_float :=
  let size := length sorted in
  if Nat.odd size then sorted !! (size / 2)%nat
  else
    match sorted !! (size / 2 - 1)%nat, sorted !! (size / 2)%nat with
    | Some a, Some b => Some (F64.div (F64.add a b) (F64.of_Z 2))
    | _, _ => None
    end.

(** ** The trial loops of [main] ([a2_benchmark.cpp]) *)

Section Bench.

Variable F : Type.
Variable fzero : F.
Variable fadd fmul : F -> F -> F.
Variable ffma : F -> F -> F -> F.

(** Whether [a2_kernels.cpp] is built with products and sums contracted. *)
Variable contract : bool.

(** Whether the file is compiled with [__AVX2__] defined. *)
Variable have_avx2 : bool.

(** [now_seconds()]: the reading of the steady clock at its [n]-th call. *)
Variable now_seconds : nat -> spec_float.

(** The output buffer, the number of clock readings and of kernel
    invocations so far, and the vector [call_times].  The two counters are
    not variables of the source: they record what the loop does. *)
Record trial_state : Type := mkTrial {
    out : list F;
    ticks : nat;
    kernel_calls : nat;
    call_times : list spec_float
  }.

(** What a trial loop has done after [r] rounds that started at the clock
    reading [ticks0], on an output buffer of [L] floats: [r] kernel
    invocations and [2 * r] clock readings, and for every invocation one
    sample, the difference of the two readings around it. *)
Definition timed_rounds (L : Z) (ticks0 r : nat) (st : trial_state) : Prop :=
  Z.of_nat (length (out st)) = L /\
  kernel_calls st = r /\
  ticks st = (ticks0 + 2 * r)%nat /\
  length (call_times st) = r /\
  forall r', (r' < r)%nat ->
    call_times st !! r'
    = Some (F64.sub (now_seconds (ticks0 + 2 * r' + 1)%nat)
                    (now_seconds (ticks0 + 2 * r')%nat)).

(** The loop of the "gemm" branch: [reps = 15]. *)
Definition gemm_trials (A B C : list F) (m k n tileM tileK tileN : Z)
    (variant : string) (ticks0 : nat) : outcome trial_state :=
  let reps := 15 in
  for_range 0 reps (fun r st =>
    C ← zero_fill F fzero (out st) (m * n);
    let t0 := now_seconds (ticks st) in
    C ← (if have_avx2 && String.eqb variant "simd"
         then gemm_tiled_avx2 F fadd fmul ffma contract
                A B C m k n tileM tileK tileN
         else gemm_tiled_scalar F fadd fmul ffma contract
                A B C m k n tileM tileK tileN);
    let t1 := now_seconds (S (ticks st)) in
    Done (mkTrial C (S (S (ticks st))) (S (kernel_calls st))
                  (call_times st ++ [F64.sub t1 t0])))
    (mkTrial C ticks0 0 []).

(** The loop of the "spmm_csr" branch: [reps = 20]. *)
Definition spmm_trials (A : CSR F) (B C : list F) (n jblock : Z)
    (layoutB : LayoutB) (variant : string) (ticks0 : nat) : outcome trial_state :=
  let reps := 20 in
  for_range 0 reps (fun r st =>
    let t0 := now_seconds (ticks st) in
    C ← (if have_avx2 && String.eqb variant "simd"
         then spmm_csr_avx2 F fzero fadd fmul ffma contract
                A B (out st) n jblock layoutB
         else spmm_csr_scalar F fzero fadd fmul ffma contract
                A B (out st) n jblock layoutB);
    let t1 := now_seconds (S (ticks st)) in
    Done (mkTrial C (S (S (ticks st))) (S (kernel_calls st))
                  (call_times st ++ [F64.sub t1 t0])))
    (mkTrial C ticks0 0 []).

End Bench.

(** ** The [<random>] library instantiated

    [std::mt19937_64] is fixed by the C++ standard ([rand.eng.mers],
    [rand.predef]): its 10000th value from the default seed 5489 is
    9981545732273789042.  The two distributions are left to the
    implementation; they are written here as GNU libstdc++ has them. *)

Module MT.

Definition w : Z := 64.
Definition n : nat := 312.
Definition m : nat := 156.
Definition a : Z := 0xb5026f5aa96619e9.
Definition u : Z := 29.
Definition d : Z := 0x5555555555555555.
Definition s : Z := 17.
Definition b : Z := 0x71d67fffeda60000.
Definition t : Z := 37.
Definition c : Z := 0xfff7eee000000000.
Definition l : Z := 43.
Definition f : Z := 6364136223846793005.

Definition wrap (x : Z) : Z := Z.land x (Z.ones w).
Definition upper_mask : Z := Z.shiftl (Z.ones 33) 31.
Definition lower_mask : Z := Z.ones 31.

(** The state: the [n] words and the position of the next one. *)
Record state : Type := mk { words : list Z; pos : nat }.

Definition word (x : list Z) (i : nat) : Z := default 0 (x !! i).

(** Seeding: [x[0] = seed], [x[i] = f * (x[i-1] ^ (x[i-1] >> 62)) + i]. *)
Fixpoint seed_words (count : nat) (i prev : Z) : list Z :=
  match count with
  | O => []
  | S count' =>
      let x := wrap (f * Z.lxor prev (Z.shiftr prev (w - 2)) + i) in
      x :: seed_words count' (i + 1) x
  end.

Definition seed (sd : Z) : state :=
  let x0 := wrap sd in
  mk (x0 :: seed_words (n - 1) 1 x0) n.

(** The in-place regeneration of the [n] words. *)
Definition twist_at (x : list Z) (i : nat) : list Z :=
  let y := Z.lor (Z.land (word x i) upper_mask)
                 (Z.land (word x ((i + 1) mod n)) lower_mask) in
  let v := Z.lxor (Z.lxor (word x ((i + m) mod n)) (Z.shiftr y 1))
                  (if Z.odd y then a else 0) in
  <[i := v]> x.

Definition twist (x : list Z) : list Z := fold_left twist_at (seq 0 n) x.

Definition temper (z : Z) : Z :=
  let z := Z.lxor z (Z.land (Z.shiftr z u) d) in
  let z := Z.lxor z (Z.land (wrap (Z.shiftl z s)) b) in
  let z := Z.lxor z (Z.land (wrap (Z.shiftl z t)) c) in
  Z.lxor z (Z.shiftr z l).

(** [operator()]: a value of the 64-bit [result_type]. *)
Definition next (g : state) : Z * state :=
  let g := if bool_decide (n <= pos g)%nat then mk (twist (words g)) 0 else g in
  (wrap (temper (word (words g) (pos g))), mk (words g) (S (pos g))).

(** [discard(z)]. *)
Fixpoint discard (z : nat) (g : state) : state :=
  match z with
  | O => g
  | S z' => discard z' (next g).2
  end.

End MT.

Module Lib.

(** [std::uniform_int_distribution<int>(a, b)(g)] over a 64-bit engine.
    The width of the range is taken in [unsigned long]; a range narrower
    than the engine's goes through the multiply-and-shift of Lemire, the
    product held in 128 bits, and redraws while the low half is under
    [2^64 mod range] ([fuel] bounds the redraws written out).  The sum
    [ret + a] is brought back to [int]. *)
Definition to_int (x : Z) : Z := (x + 2 ^ 31) mod 2 ^ 32 - 2 ^ 31.

Fixpoint redraw (fuel : nat) (range threshold product : Z) (g : MT.state)
    : Z * MT.state :=
  match fuel with
  | O => (product, g)
  | S fuel' =>
      if bool_decide (product mod 2 ^ 64 < threshold) then
        let '(x, g) := MT.next g in redraw fuel' range threshold (x * range) g
      else (product, g)
  end.

Definition uniform_int (a b : Z) (g : MT.state) : Z * MT.state :=
  let urange := (b - a) mod 2 ^ 64 in
  let '(x, g) := MT.next g in
  if bool_decide (urange < 2 ^ 64 - 1) then
    let uerange := urange + 1 in
    let product := x * uerange in
    let '(product, g) :=
      if bool_decide (product mod 2 ^ 64 < uerange)
      then redraw 64 uerange ((2 ^ 64 - uerange) mod uerange) product g
      else (product, g) in
    (to_int (Z.shiftr product 64 + a), g)
  else (to_int (x + a), g).

(** [std::generate_canonical<float, 24>]: one 64-bit value converted to
    [float] and divided by [2^64], kept under 1. *)
Definition generate_canonical (g : MT.state) : spec_float * MT.state :=
  let '(x, g) := MT.next g in
  let ret := SFdiv F32.prec F32.emax (F32.of_Z x) (F32.of_Z (2 ^ 64)) in
  (if SFltb ret (F32.of_Z 1) then ret else SFpred F32.prec F32.emax (F32.of_Z 1), g).

(** [std::uniform_real_distribution<float>(-1.0f, 1.0f)(g)]:
    [canonical * (b - a) + a].  The product by [b - a = 2] is exact, so
    the value is the same whether the expression is contracted or not. *)
Definition uniform_real (g : MT.state) : spec_float * MT.state :=
  let '(x, g) := generate_canonical g in
  (F32.add (F32.mul x (F32.of_Z 2)) (F32.of_Z (-1)), g).

(** [std::sort]: insertion sort, which meets the contract of the
    standard.  The order it gives to equivalent elements need not be the
    one of the library's introsort. *)
Fixpoint insert_sorted {T} (lt : T -> T -> bool) (x : T) (l : list T) : list T :=
  match l with
  | [] => [x]
  | y :: l' => if lt y x then y :: insert_sorted lt x l' else x :: l
  end.

Definition std_sort (T : Type) (lt : T -> T -> bool) (l : list T) : list T :=
  foldr (insert_sorted lt) [] l.

(** [cvttsd2si] leaves the "integer indefinite" value. *)
Definition cast_ub (x : spec_float) : Z := - 2 ^ 31.

(** [1.1f]. *)
Definition scalar_s : spec_float := F32.ratio 11 10.

(** The kernels' library functions over this instance. *)
Definition make_random_csr : Z -> Z -> spec_float -> string -> Z
    -> outcome (CSR spec_float) :=
  make_random_csr spec_float F32.zero MT.state MT.seed
    uniform_real uniform_int std_sort cast_ub.

Definition fill_random : list spec_float -> Z -> Z -> outcome (list spec_float) :=
  fill_random spec_float MT.state MT.seed uniform_real.

Definition stream_triad (contract : bool)
    : list spec_float -> list spec_float -> list spec_float
      -> Z -> Z -> outcome (list spec_float * list spec_float * list spec_float) :=
  stream_triad spec_float F32.add F32.mul F32.fma contract
    MT.state MT.seed uniform_real scalar_s.

End Lib.

(** ** What the kernels leave in an element of the output *)

Section Elements.

Variable F : Type.
Variable fzero : F.
Variable fadd fmul : F -> F -> F.
Variable ffma : F -> F -> F -> F.
Variable contract : bool.

Local Abbreviation mul_add := (mul_add F fadd fmul ffma contract).

(** [c] after the updates [step t0], ..., [step (t1 - 1)], in this order. *)
Definition fold_steps (step : Z -> F -> F) (c : F) (t0 t1 : Z) : F :=
  fold_left (fun acc t => step t acc) (seqZ t0 (t1 - t0)) c.

(** [C'] is the m x n buffer [C] in which every element [(i, j)] of the
    region [R] has gone through the updates [step i j t] for
    [t = t0 .. t1 - 1], and no other element has changed. *)
Definition updated (step : Z -> Z -> Z -> F -> F) (m n : Z)
    (R : Z -> Z -> Prop) (t0 t1 : Z) (C C' : list F) : Prop :=
  length C' = length C /\
  forall i j, 0 <= i < m -> 0 <= j < n ->
    (R i j -> C' !! Z.to_nat (i * n + j)
              = Some (fold_steps (step i j) (elt F fzero C (i * n + j)) t0 t1)) /\
    (~ R i j -> C' !! Z.to_nat (i * n + j) = C !! Z.to_nat (i * n + j)).

(** Whether column [j] is handled eight lanes at a time: the loops over
    column blocks start at 0 and advance by [block], so the block of [j]
    starts at [j0 = (j / block) * block] and ends before
    [j1 = min(n, j0 + block)], and the vector loop covers
    [j0 .. j0 + ((j1 - j0) / 8) * 8 - 1]. *)
Definition in_vector_part (n block j : Z) : bool :=
  let j0 := j / block * block in
  let j1 := Z.min n (j0 + block) in
  bool_decide (j < j0 + Z.quot (j1 - j0) 8 * 8).

(** One update of [C[i, j]] in the GEMM kernels, for the index [t] of the
    reduction: [c += a * b] in the scalar kernel and in the scalar tail of
    the vectorised one, fused or not as the build has it, and the fused
    [a * b + c] of the intrinsic in the vector loop. *)
Definition gemm_scalar_step (A B : list F) (k n i j t : Z) (c : F) : F :=
  mul_add c (elt F fzero A (i * k + t)) (elt F fzero B (t * n + j)).

Definition gemm_avx2_step (A B : list F) (k n tileN i j t : Z) (c : F) : F :=
  if in_vector_part n tileN j
  then ffma (elt F fzero A (i * k + t)) (elt F fzero B (t * n + j)) c
  else mul_add c (elt F fzero A (i * k + t)) (elt F fzero B (t * n + j)).

(** [B[col, j]] in the layout [layoutB], for a k x n matrix [B]. *)
Definition B_at (B : list F) (k n : Z) (layoutB : LayoutB) (col j : Z) : F :=
  match layoutB with
  | RowMajor => elt F fzero B (col * n + j)
  | ColMajor => elt F fzero B (j * k + col)
  end.

(** One update of [C[i, j]] in the SpMM kernels, for the position [p] of a
    non-zero of row [i]. *)
Definition spmm_scalar_step (A : CSR F) (B : list F) (n : Z)
    (layoutB : LayoutB) (j p : Z) (c : F) : F :=
  mul_add c (elt F fzero (values F A) p)
            (B_at B (csr_k F A) n layoutB (col_at (colidx F A) p) j).

Definition spmm_avx2_step (A : CSR F) (B : list F) (n jblock : Z)
    (j p : Z) (c : F) : F :=
  if in_vector_part n jblock j
  then ffma (elt F fzero (values F A) p)
            (elt F fzero B (col_at (colidx F A) p * n + j)) c
  else mul_add c (elt F fzero (values F A) p)
                 (elt F fzero B (col_at (colidx F A) p * n + j)).

(** [rowptr[i]]. *)
Definition row_start (A : CSR F) (i : Z) : Z := col_at (rowptr F A) i.

End Elements.

(** ** The column window of the "blockdiag" pattern *)


(** ** The values a generator hands out *)

Section Draws.

Variable F : Type.
Variable rng : Type.
Variable uniform_real : rng -> F * rng.

(** The first [n] values that the distribution draws from the generator
    [g], and the generator they leave. *)
Fixpoint draws (n : nat) (g : rng) : list F * rng :=
  match n with
  | O => ([], g)
  | S n' =>
      let '(v, g) := uniform_real g in
      let '(l, g) := draws n' g in
      (v :: l, g)
  end.

End Draws.

(** A timing sample that the order of [double] tells apart from every
    other: any number but a NaN and [-0.0]. *)
Definition sample (x : spec_float) : Prop := not_nan x /\ x <> S754_zero true.

(** ** The command line of the benchmark ([a2_benchmark.cpp])

    [argv] is the list of the arguments, the name of the program first;
    [argc] is its length. *)

(** [get_arg(argc, argv, key, def)]: the argument that follows the first
    [argv[i]] equal to [key], for [i = 1 .. argc - 2]; [def] when there is
    none.  [get_arg_from] is the loop from an index [i] on, given the
    arguments from [argv[i]] on. *)
Fixpoint get_arg_from (args : list string) (key def : string) : string :=
  match args with
  | a :: rest =>
      match rest with
      | v :: _ => if String.eqb a key then v else get_arg_from rest key def
      | [] => def
      end
  | [] => def
  end.

Definition get_arg (argv : list string) (key def : string) : string :=
  get_arg_from (drop 1 argv) key def.

(** [isspace] in the "C" locale: the space, [\t], [\n], [\v], [\f], [\r]. *)
Definition isspace (c : ascii) : bool :=
  existsb (Ascii.eqb c) [" "; "009"; "010"; "011"; "012"; "013"]%char.

(** The value of a decimal digit. *)
Definition digit (c : ascii) : option Z :=
  let n := Z.of_N (N_of_ascii c) in
  if bool_decide (48 <= n <= 57) then Some (n - 48) else None.

Fixpoint skip_space (s : string) : string :=
  match s with
  | String c s' => if isspace c then skip_space s' else s
  | EmptyString => s
  end.

(** The number that the leading decimal digits of [s] spell after [acc]. *)
Fixpoint digits (s : string) (acc : Z) : Z :=
  match s with
  | String c s' =>
      match digit c with
      | Some d => digits s' (10 * acc + d)
      | None => acc
      end
  | EmptyString => acc
  end.

(** The number that [strtol(s, NULL, 10)] reads: white space, an optional
    sign, decimal digits; 0 when no digit follows. *)
Definition decimal_prefix (s : string) : Z :=
  match skip_space s with
  | String "-" s' => - digits s' 0
  | String "+" s' => digits s' 0
  | s' => digits s' 0
  end.

Section Cli.

(** [std::atof] of the C library, and what [std::atoi] returns for a
    number that has no [int] representation (undefined in C). *)
Variable atof : string -> spec_float.
Variable atoi_ub : string -> Z.

(** [std::atoi(s)]: [(int)strtol(s, NULL, 10)]. *)
Definition atoi (s : string) : Z :=
  let v := decimal_prefix s in
  if bool_decide (- 2 ^ 31 <= v < 2 ^ 31) then v else atoi_ub s.

(** [get_arg_i(argc, argv, key, def)]. *)
Definition get_arg_i (argv : list string) (key : string) (def : Z) : Z :=
  let s := get_arg argv key "" in
  if String.eqb s "" then def else atoi s.

(** [get_arg_f(argc, argv, key, def)]. *)
Definition get_arg_f (argv : list string) (key : string) (def : spec_float)
    : spec_float :=
  let s := get_arg argv key "" in
  if String.eqb s "" then def else atof s.

End Cli.

(** The command line that spells the options [opts], each a key and its
    value, after the name of the program. *)
Definition command_line (prog : string) (opts : list (string * string))
    : list string :=
  prog :: flat_map (fun kv => [kv.1; kv.2]) opts.

(** ** [main] ([a2_benchmark.cpp]) *)

(** The fields of the CSV row that [main] writes, in the order and with
    the types in which it passes them to [std::cout]; the formatting of
    the numbers is the library's. *)
Record row : Type := mkRow {
  row_kernel : string;
  row_variant : string;
  row_layoutB : string;
  row_pattern : string;
  row_m : Z;
  row_k : Z;
  row_n : Z;
  row_density : spec_float;
  row_threads : Z;
  row_tileM : Z;
  row_tileN : Z;
  row_tileK : Z;
  row_jblock : Z;
  row_seed : Z;
  row_run : Z;
  row_seconds : spec_float;
  row_gflops : spec_float;
  row_nnz : Z;
  row_cpnz : spec_float;
  row_ai : spec_float;
  row_bytes_est : spec_float;
  row_bandwidth : spec_float;
  row_p50 : spec_float;
  row_p95 : spec_float;
  row_p99 : spec_float;
  row_conv_seconds : spec_float;
  row_freq_mhz : spec_float;
  row_cycles_est : spec_float;
  row_perf_task_clock_ms : spec_float;
  row_perf_context_switches : spec_float;
  row_perf_cpu_migrations : spec_float;
  row_perf_page_faults : spec_float
}.

(** What a run of [main] writes on [std::cout]: the header of
    [print_header] or a row. *)
Inductive printed : Type :=
  | Header
  | Row (r : row).

(** A run of [main] that returns: the value returned, and what went to
    [std::cout] and to [std::cerr]. *)
Record finished : Type := mkFinished {
  returned : Z;
  cout : list printed;
  cerr : list string
}.

(** A run of [main] that ends: it returns, or [make_aligned_f32] calls
    [std::abort]. *)
Inductive ending : Type :=
  | Returns (f : finished)
  | Aborts.

(** What [main] measures in a branch. *)
Record measured : Type := mkMeasured {
  seconds : spec_float;
  gflops : spec_float;
  nnz : Z;
  conv_seconds : spec_float;
  bytes_est : spec_float;
  ai : spec_float;
  bw_gbps : spec_float;
  samples : list spec_float
}.

(** [(size_t)x] for an [int] or a product of [size_t]. *)
Definition size_t (x : Z) : Z := x mod 2 ^ 64.

Section Main.

Variable F : Type.
Variable fzero : F.
Variable fadd fmul : F -> F -> F.
Variable ffma : F -> F -> F -> F.
Variable contract : bool.

Variable have_avx2 : bool.
Variable now_seconds : nat -> spec_float.

Variable rng : Type.
Variable mt19937_64 : Z -> rng.
Variable uniform_real : rng -> F * rng.
Variable uniform_int : Z -> Z -> rng -> Z * rng.
Variable std_sort : forall T : Type, (T -> T -> bool) -> list T -> list T.
Variable cast_ub : spec_float -> Z.
Variable scalar_s : F.

Variable atof : string -> spec_float.
Variable atoi_ub : string -> Z.

(** [posix_memalign]: the floats of the block that its [n]-th call hands
    out for [bytes] bytes, with whatever they hold, or nothing when the
    call fails.  [omp_set_num_threads] has no counterpart: the loops are
    modelled in their sequential order. *)
Variable memalign : nat -> Z -> option (list F).

(** [make_aligned_f32(count, alignment)] at the [n]-th allocation: the
    buffer, or nothing when [std::abort] is called. *)
Definition make_aligned_f32 (n : nat) (count : Z) : option (list F) :=
  memalign n (size_t (count * 4)).

(** [stream_triad_bandwidth_gbps(N, iters, seed)], the clock read for the
    first time at its reading [ticks]. *)
Definition stream_triad_bandwidth_gbps (N iters seed : Z) (ticks : nat)
    : outcome (option spec_float) :=
  match make_aligned_f32 0 N with
  | None => Done None
  | Some a =>
    match make_aligned_f32 1 N with
    | None => Done None
    | Some b =>
      match make_aligned_f32 2 N with
      | None => Done None
      | Some c =>
          _ ← stream_triad F fadd fmul ffma contract rng mt19937_64
                uniform_real scalar_s a b c N iters;
          let t0 := now_seconds ticks in
          let t1 := now_seconds (S ticks) in
          let sec := F64.max (F64.ratio 1 1000000000) (F64.sub t1 t0) in
          let bytes_per_iter :=
            F64.mul (F64.mul (F64.of_Z N) (F64.of_Z 4)) (F64.of_Z 4) in
          Done (Some (F64.div (F64.div (F64.mul bytes_per_iter (F64.of_Z iters))
                                       sec)
                              (F64.of_Z 1000000000)))
      end
    end
  end.

(** The "stream" branch of [main]. *)
Definition stream_branch (seed : Z) : outcome (option measured) :=
  r ← stream_triad_bandwidth_gbps (Z.quot (64 * 1024 * 1024) 4) 10 seed 0;
  match r with
  | None => Done None
  | Some gbps =>
      Done (Some (mkMeasured F64.zero F64.zero 0 F64.zero F64.zero F64.zero
                    gbps [F64.zero]))
  end.

(** The "gemm" branch of [main]. *)
Definition gemm_branch (variant : string) (m k n tileM tileK tileN seed : Z)
    : outcome (option measured) :=
  match make_aligned_f32 0 (size_t (size_t m * size_t k)) with
  | None => Done None
  | Some A =>
    match make_aligned_f32 1 (size_t (size_t k * size_t n)) with
    | None => Done None
    | Some B =>
      match make_aligned_f32 2 (size_t (size_t m * size_t n)) with
      | None => Done None
      | Some C =>
          A ← fill_random F rng mt19937_64 uniform_real A
                (size_t (size_t m * size_t k)) (Z.lxor seed 0xA5A5);
          B ← fill_random F rng mt19937_64 uniform_real B
                (size_t (size_t k * size_t n)) (Z.lxor seed 0x5A5A);
          st ← gemm_trials F fzero fadd fmul ffma contract have_avx2
                 now_seconds A B C m k n tileM tileK tileN variant 0;
          seconds ← median_seconds std_sort (call_times F st);
          let flops :=
            F64.mul (F64.mul (F64.mul (F64.of_Z 2) (F64.of_Z m)) (F64.of_Z k))
                    (F64.of_Z n) in
          let gflops :=
            F64.div (F64.div flops (F64.max (F64.ratio 1 1000000000000) seconds))
                    (F64.of_Z 1000000000) in
          let bytes_est :=
            F64.mul (F64.of_Z 4)
              (F64.add (F64.add (F64.mul (F64.of_Z m) (F64.of_Z k))
                                (F64.mul (F64.of_Z k) (F64.of_Z n)))
                       (F64.mul (F64.mul (F64.of_Z 2) (F64.of_Z m)) (F64.of_Z n))) in
          let ai := F64.div flops (F64.max (F64.of_Z 1) bytes_est) in
          let bw_gbps :=
            F64.div (F64.div bytes_est
                             (F64.max (F64.ratio 1 1000000000000) seconds))
                    (F64.of_Z 1000000000) in
          Done (Some (mkMeasured seconds gflops 0 F64.zero bytes_est ai bw_gbps
                        (call_times F st)))
      end
    end
  end.

(** The "spmm_csr" branch of [main]. *)
Definition spmm_branch (variant pattern : string) (layoutB : LayoutB)
    (m k n jblock seed : Z) (density : spec_float) : outcome (option measured) :=
  let t0c := now_seconds 0 in
  A ← make_random_csr F fzero rng mt19937_64 uniform_real uniform_int
        std_sort cast_ub m k density pattern seed;
  let t1c := now_seconds 1 in
  let conv_seconds := F64.sub t1c t0c in
  let nnz := csr_nnz F A in
  match make_aligned_f32 0 (size_t (size_t k * size_t n)) with
  | None => Done None
  | Some B =>
    match make_aligned_f32 1 (size_t (size_t m * size_t n)) with
    | None => Done None
    | Some C =>
        B ← fill_random F rng mt19937_64 uniform_real B
              (size_t (size_t k * size_t n)) (Z.lxor seed 0x1234);
        st ← spmm_trials F fzero fadd fmul ffma contract have_avx2
               now_seconds A B C n jblock layoutB variant 2;
        seconds ← median_seconds std_sort (call_times F st);
        let flops :=
          F64.mul (F64.mul (F64.of_Z 2) (F64.of_Z nnz)) (F64.of_Z n) in
        let gflops :=
          F64.div (F64.div flops (F64.max (F64.ratio 1 1000000000000) seconds))
                  (F64.of_Z 1000000000) in
        let bytes_est :=
          F64.add (F64.add (F64.mul (F64.of_Z nnz) (F64.of_Z 8))
                           (F64.mul (F64.mul (F64.of_Z nnz) (F64.of_Z n))
                                    (F64.of_Z 4)))
                  (F64.mul (F64.mul (F64.of_Z m) (F64.of_Z n)) (F64.of_Z 8)) in
        let ai := F64.div flops (F64.max (F64.of_Z 1) bytes_est) in
        let bw_gbps :=
          F64.div (F64.div bytes_est
                           (F64.max (F64.ratio 1 1000000000000) seconds))
                  (F64.of_Z 1000000000) in
        Done (Some (mkMeasured seconds gflops nnz conv_seconds bytes_est ai
                      bw_gbps (call_times F st)))
    end
  end.

(** [main(argc, argv)]. *)
Definition main (argv : list string) : outcome ending :=
  let kernel := get_arg argv "--kernel" "gemm" in
  let variant := get_arg argv "--variant" "simd" in
  let layoutB_s := get_arg argv "--layoutB" "row" in
  let pattern := get_arg argv "--pattern" "uniform" in
  let m := get_arg_i atoi_ub argv "--m" 1024 in
  let k := get_arg_i atoi_ub argv "--k" 1024 in
  let n := get_arg_i atoi_ub argv "--n" 1024 in
  let density := get_arg_f atof argv "--density" (F64.of_Z 1) in
  let threads := get_arg_i atoi_ub argv "--threads" 1 in
  let tileM := get_arg_i atoi_ub argv "--tileM" 64 in
  let tileN := get_arg_i atoi_ub argv "--tileN" 128 in
  let tileK := get_arg_i atoi_ub argv "--tileK" 64 in
  let jblock := get_arg_i atoi_ub argv "--jblock" 128 in
  let seed := size_t (get_arg_i atoi_ub argv "--seed" 123) in
  let run_id := get_arg_i atoi_ub argv "--run" 0 in
  let freq_mhz := get_arg_f atof argv "--freq_mhz" (F64.of_Z 2400) in
  let perf_task_clock_ms := get_arg_f atof argv "--perf_task_clock_ms" F64.zero in
  let perf_context_switches :=
    get_arg_f atof argv "--perf_context_switches" F64.zero in
  let perf_cpu_migrations := get_arg_f atof argv "--perf_cpu_migrations" F64.zero in
  let perf_page_faults := get_arg_f atof argv "--perf_page_faults" F64.zero in
  let header := get_arg_i atoi_ub argv "--header" 0 in
  if negb (Z.eqb header 0) then Done (Returns (mkFinished 0 [Header] []))
  else
    let layoutB := if String.eqb layoutB_s "col" then ColMajor else RowMajor in
    let branch :=
      if String.eqb kernel "stream" then Some (stream_branch seed)
      else if String.eqb kernel "gemm"
      then Some (gemm_branch variant m k n tileM tileK tileN seed)
      else if String.eqb kernel "spmm_csr"
      then Some (spmm_branch variant pattern layoutB m k n jblock seed density)
      else None in
    match branch with
    | None => Done (Returns (mkFinished 2 [] [("Unknown --kernel" ++ String "010" "")%string]))
    | Some run =>
        r ← run;
        match r with
        | None => Done Aborts
        | Some x =>
            '(p50, p95, p99) ← percentile_us std_sort cast_ub (samples x);
            let cycles_est :=
              F64.mul (seconds x) (F64.mul freq_mhz (F64.of_Z 1000000)) in
            let cpnz :=
              if bool_decide (0 < nnz x)
              then F64.div cycles_est (F64.of_Z (nnz x)) else F64.zero in
            Done (Returns (mkFinished 0
              [Row (mkRow kernel variant layoutB_s pattern m k n density threads
                      tileM tileN tileK jblock seed run_id
                      (seconds x) (gflops x) (nnz x) cpnz (ai x) (bytes_est x)
                      (bw_gbps x) p50 p95 p99 (conv_seconds x) freq_mhz
                      cycles_est perf_task_clock_ms perf_context_switches
                      perf_cpu_migrations perf_page_faults)]
              []))
        end
    end.

End Main.

(** ** The perf counters ([a2_utils.cpp]) *)

(** [struct PerfCounters]. *)
Record PerfCounters : Type := mkPerfCounters {
  valid : bool;
  cycles : spec_float;
  instructions : spec_float;
  cache_misses : spec_float;
  llc_load_misses : spec_float;
  llc_store_misses : spec_float;
  dtlb_load_misses : spec_float
}.

(** [fgets(line, size, f)] with room for [room = size - 1] characters, on
    what is left of the file: the characters stored, up to a newline and
    the newline included, and what is left after them.  Nothing is stored
    at the end of the file, where [fgets] returns [NULL]. *)
Fixpoint fgets (room : nat) (s : string) : string * string :=
  match room, s with
  | S room', String c s' =>
      if Ascii.eqb c "010" then (String c EmptyString, s')
      else let '(line, rest) := fgets room' s' in (String c line, rest)
  | _, _ => (EmptyString, s)
  end.

(** The C string that an array of characters holds: its characters before
    the first [NUL]. *)
Fixpoint c_str (s : string) : string :=
  match s with
  | String c s' => if Ascii.eqb c "000" then EmptyString else String c (c_str s')
  | EmptyString => EmptyString
  end.

(** [strstr(hay, needle) != NULL]. *)
Fixpoint strstr (hay needle : string) : bool :=
  String.prefix needle hay ||
  match hay with
  | String _ hay' => strstr hay' needle
  | EmptyString => false
  end.

(** [strchr(s, c) != NULL], for a [c] other than [NUL]. *)
Fixpoint strchr (s : string) (c : ascii) : bool :=
  match s with
  | String d s' => Ascii.eqb d c || strchr s' c
  | EmptyString => false
  end.

(** The first call [strtok_r(line, ",", &save)]: the commas at the start
    are skipped, and the token runs up to the next comma or to the end;
    there is no token when nothing is left after the commas. *)
Fixpoint skip_commas (s : string) : string :=
  match s with
  | String c s' => if Ascii.eqb c "," then skip_commas s' else s
  | EmptyString => EmptyString
  end.

Fixpoint until_comma (s : string) : string :=
  match s with
  | String c s' => if Ascii.eqb c "," then EmptyString else String c (until_comma s')
  | EmptyString => EmptyString
  end.

Definition strtok_first (line : string) : option string :=
  match skip_commas line with
  | EmptyString => None
  | s => Some (until_comma s)
  end.

Section Perf.

(** [std::fopen(path, "r")]: the bytes of the file when it can be opened
    for reading.  [std::atof] of the C library. *)
Variable fopen : string -> option string.
Variable atof : string -> spec_float.

(** [file_exists(path)]. *)
Definition file_exists (path : string) : bool :=
  match fopen path with
  | Some _ => true
  | None => false
  end.

(** The body of the loop of [parse_perf_csv_value] on one line: the value
    read, or nothing when the loop goes on to the next line. *)
Definition parse_line (line event : string) : option spec_float :=
  if negb (strstr line event) then None
  else match strtok_first line with
       | None => None
       | Some tok => if strchr tok "<" then None else Some (atof tok)
       end.

(** The loop [while (std::fgets(line, sizeof(line), f))] of
    [parse_perf_csv_value], with [char line[4096]], on what is left of
    the file.  Every turn takes at least one character, which bounds the
    number of turns by [fuel]. *)
Fixpoint parse_lines (fuel : nat) (rest event : string) : option spec_float :=
  match fuel with
  | O => None
  | S fuel' =>
      match rest with
      | EmptyString => None
      | _ =>
          let '(chunk, rest') := fgets 4095 rest in
          match parse_line (c_str chunk) event with
          | Some v => Some v
          | None => parse_lines fuel' rest' event
          end
      end
  end.

(** [parse_perf_csv_value(perf_csv_path, event, out_val)]: the value
    stored in [out_val] when the function returns [true]. *)
Definition parse_perf_csv_value (path event : string) : option spec_float :=
  match fopen path with
  | None => None
  | Some content => parse_lines (String.length content) content event
  end.

(** [read_perf_csv(perf_csv_path)]. *)
Definition read_perf_csv (path : string) : PerfCounters :=
  let cycles := parse_perf_csv_value path "cycles" in
  let instructions := parse_perf_csv_value path "instructions" in
  let cache_misses := parse_perf_csv_value path "cache-misses" in
  let llc_load_misses := parse_perf_csv_value path "LLC-load-misses" in
  let llc_store_misses := parse_perf_csv_value path "LLC-store-misses" in
  let dtlb_load_misses := parse_perf_csv_value path "dTLB-load-misses" in
  mkPerfCounters
    (existsb (fun o : option spec_float => bool_decide (is_Some o))
       [cycles; instructions; cache_misses; llc_load_misses;
        llc_store_misses; dtlb_load_misses])
    (default F64.zero cycles) (default F64.zero instructions)
    (default F64.zero cache_misses) (default F64.zero llc_load_misses)
    (default F64.zero llc_store_misses) (default F64.zero dtlb_load_misses).

End Perf.

(** The events that [read_perf_csv] looks for. *)
Definition perf_events : list string :=
  ["cycles"; "instructions"; "cache-misses"; "LLC-load-misses";
   "LLC-store-misses"; "dTLB-load-misses"]%string.

(** A line of a text file: no newline and no [NUL] in it, and short
    enough for the buffer of [parse_perf_csv_value] with its newline. *)
Definition text_line (line : string) : Prop :=
  strchr line "010" = false /\ strchr line "000" = false /\
  (String.length line < 4095)%nat.

(** The lines one after the other, a newline after each. *)
Definition unlines (lines : list string) : string :=
  foldr (fun line s => String.append line (String "010" s)) EmptyString lines.

(** ** Small inputs used to run the model *)

Module Ex.

(** A 2 x 2 matrix whose second row has no entry: [[0 3] [0 0]]. *)
Definition sparse2 : CSR spec_float :=
  mkCSR spec_float 2 2 [0; 1; 1] [1] [F32.of_Z 3].

Definition dense2 : list spec_float := map F32.of_Z [1; 2; 3; 4].
Definition out2 : list spec_float := map F32.of_Z [5; 6; 7; 8].
Definition out2' : list spec_float := map F32.of_Z [9; 9; 9; 9].

(** A 1 x 2 times 2 x 1 product whose second term is a little more than
    half an ulp of the first: [1 * 1 + (2^-24 + 2^-47) * 1]. *)
Definition tiny : spec_float := S754_finite false 8388609 (-47).
Definition row12 : list spec_float := [F32.of_Z 1; tiny].
Definition col21 : list spec_float := [F32.of_Z 1; F32.of_Z 1].

(** The identity scenario of the specification. *)
Definition eye2 : list spec_float := map F32.of_Z [1; 0; 0; 1].
Definition b5678 : list spec_float := map F32.of_Z [5; 6; 7; 8].

(** Twenty and fifteen timing samples, as the SpMM and the GEMM trial
    loops record them (in seconds; the values are arbitrary). *)
Definition samples20 : list spec_float :=
  map F64.of_Z [12; 3; 20; 7; 1; 16; 9; 14; 5; 18; 2; 11; 19; 4; 8; 15; 6; 13; 10; 17].
Definition samples15 : list spec_float :=
  map F64.of_Z [12; 3; 7; 1; 9; 14; 5; 2; 11; 4; 8; 15; 6; 13; 10].

(** A clock that advances by one second at every reading. *)
Definition clock (n : nat) : spec_float := F64.of_Z (Z.of_nat n).

(** [dense2] in column-major order. *)
Definition dense2t : list spec_float := map F32.of_Z [1; 3; 2; 4].

(** A 1 x 1 [A], a 1 x 9 [B] and a 1 x 9 [C]: one vector iteration and
    one column of scalar tail. *)
Definition a11 : list spec_float := [F32.of_Z 3].
Definition b19 : list spec_float := map F32.of_Z [1; 2; 3; 4; 5; 6; 7; 8; 9].
Definition c19 : list spec_float := map F32.of_Z [9; 8; 7; 6; 5; 4; 3; 2; 1].

(** A 2 x 9 [B] and a 2 x 9 [C] for [sparse2]. *)
Definition b29 : list spec_float := map F32.of_Z (seqZ 1 18).
Definition c29 : list spec_float := map F32.of_Z (seqZ 101 18).

(** Options of a command line. *)
Definition opts_gemm_m : list (string * string) :=
  [("--kernel", "gemm"); ("--m", "64")]%string.
Definition opts_n8 : list (string * string) := [("--n", "8")]%string.

(** An allocator that never fails and hands out zeroed memory, and
    conversions for the command lines below, which have no real-valued
    option and no integer beyond [int]. *)
Definition memalign (n : nat) (bytes : Z) : option (list spec_float) :=
  Some (replicate (Z.to_nat (bytes / 4)) F32.zero).
Definition no_atof (s : string) : spec_float := F64.zero.
Definition atoi_ub (s : string) : Z := 0.

(** Command lines. *)
Definition argv_header : list string :=
  ["bench"; "--kernel"; "fft"; "--header"; "1"]%string.
Definition argv_fft : list string := ["bench"; "--kernel"; "fft"]%string.
Definition argv_stream : list string :=
  ["bench"; "--kernel"; "stream"; "--m"; "7"]%string.

(** A file as [perf stat -x,] writes it: a counter that was not counted,
    then the cycles and the instructions. *)
Definition perf_lines_skipped : list string :=
  ["<not counted>,,cycles,0,100.00,,"]%string.
Definition perf_tok : string := "123456"%string.
Definition perf_rest : string := ",cycles,1000,100.00,,"%string.
Definition perf_after : string :=
  String.append "7890,,instructions,1000,100.00,," (String "010" EmptyString).
Definition perf_file : string :=
  String.append (unlines perf_lines_skipped)
    (String.append (String.append perf_tok (String "," perf_rest))
                   (String "010" perf_after)).

(** A file system that holds this one file, under the name perf.csv. *)
Definition fopen (path : string) : option string :=
  if String.eqb path "perf.csv" then Some perf_file else None.

(** Lines that name no event, and a file system in which every path
    leads to a file made of them. *)
Definition other_lines : list string := ["# started on Mon"; ""]%string.
Definition fopen_other (path : string) : option string :=
  Some (unlines other_lines).

(** A stand-in for [atof] on texts made of decimal digits. *)
Definition digits_atof (s : string) : spec_float := F64.of_Z (digits s 0).

End Ex.
(** ** Facts about outcomes, buffers and loops *)

Lemma bind_of_Done {A B} (m : outcome A) (a : A) (f : A -> outcome B) :
  m = Done a -> m ≫= f = f a.
Proof. by intros ->. Qed.

Lemma load_Done {A} (x : list A) (i : Z) :
  0 <= i < Z.of_nat (length x) ->
  exists v, load x i = Done v /\ x !! Z.to_nat i = Some v.
Proof.
  intros Hi. unfold load. rewrite bool_decide_eq_false_2 by lia.
  destruct (lookup_lt_is_Some_2 x (Z.to_nat i)) as [v Hv]; [lia|].
  rewrite Hv. eauto.
Qed.

Lemma store_Done {A} (x : list A) (i : Z) (v : A) :
  0 <= i < Z.of_nat (length x) ->
  store x i v = Done (<[Z.to_nat i := v]> x).
Proof. intros. unfold store. by rewrite bool_decide_eq_true_2. Qed.

(** A loop with a positive step that keeps an invariant finishes, and the
    invariant holds at the first value of the loop variable past [hi]. *)
Lemma for_step_fuel_inv {St} (P : Z -> St -> Prop)
    (body : Z -> St -> outcome St) (hi step : Z) :
  0 < step ->
  (forall i s, i < hi -> P i s -> exists s', body i s = Done s' /\ P (i + step) s') ->
  forall fuel i s, hi - i <= Z.of_nat fuel -> P i s ->
  exists i' s', for_step_fuel fuel i hi step body s = Done s'
                /\ P i' s' /\ hi <= i' /\ i <= i'.
Proof.
  intros Hstep Hbody. induction fuel as [|fuel IH]; intros i s Hfuel HP; simpl.
  - rewrite bool_decide_eq_false_2 by lia. exists i, s. repeat split; [done|lia|lia].
  - case_bool_decide as Hi.
    + destruct (Hbody i s Hi HP) as (s' & -> & HP'). simpl.
      destruct (IH (i + step) s') as (i' & s'' & ? & ? & ? & ?); [lia|done|].
      exists i', s''. repeat split; [done|done|lia|lia].
    + exists i, s. repeat split; [done|lia|lia].
Qed.

Lemma for_step_inv {St} (P : Z -> St -> Prop)
    (body : Z -> St -> outcome St) (lo hi step : Z) (s : St) :
  0 < step ->
  P lo s ->
  (forall i s, lo <= i < hi -> P i s ->
     exists s', body i s = Done s' /\ P (i + step) s') ->
  exists i' s', for_step lo hi step body s = Done s' /\ P i' s' /\ hi <= i'.
Proof.
  intros Hstep HP Hbody. unfold for_step.
  destruct (for_step_fuel_inv (fun i s => lo <= i /\ P i s) body hi step Hstep)
    with (fuel := Z.to_nat (hi - lo)) (i := lo) (s := s)
    as (i' & s' & ? & [? ?] & ? & ?); [|lia|split; [lia|done]|by eauto].
  intros i s0 Hi [Hlo HPi]. destruct (Hbody i s0) as (s' & ? & ?); [lia|done|].
  exists s'. repeat split; [done|lia|done].
Qed.

(** The unit-step loop: the invariant holds at [hi] itself. *)
Lemma for_range_inv {St} (P : Z -> St -> Prop)
    (body : Z -> St -> outcome St) (lo hi : Z) (s : St) :
  lo <= hi ->
  P lo s ->
  (forall i s, lo <= i < hi -> P i s -> exists s', body i s = Done s' /\ P (i + 1) s') ->
  exists s', for_range lo hi body s = Done s' /\ P hi s'.
Proof.
  intros Hle HP Hbody. unfold for_range.
  destruct (for_step_inv (fun i s => i <= hi /\ P i s) body lo hi 1 s)
    as (i' & s' & ? & [? ?] & ?); [lia|split; [lia|done]| |].
  - intros i s0 Hi [_ HPi]. destruct (Hbody i s0 Hi HPi) as (s' & ? & ?).
    exists s'. repeat split; [done|lia|done].
  - exists s'. split; [done|]. by replace hi with i' by lia.
Qed.

(** A loop whose body keeps a property of the state finishes and keeps it. *)
Lemma for_step_preserves {St} (P : St -> Prop)
    (body : Z -> St -> outcome St) (lo hi step : Z) (s : St) :
  0 < step ->
  P s ->
  (forall i s, lo <= i < hi -> P s -> exists s', body i s = Done s' /\ P s') ->
  exists s', for_step lo hi step body s = Done s' /\ P s'.
Proof.
  intros Hstep HP Hbody.
  destruct (for_step_inv (fun _ s => P s) body lo hi step s)
    as (_ & s' & ? & ? & _); [done|done|done|by eauto].
Qed.

Lemma for_range_preserves {St} (P : St -> Prop)
    (body : Z -> St -> outcome St) (lo hi : Z) (s : St) :
  P s ->
  (forall i s, lo <= i < hi -> P s -> exists s', body i s = Done s' /\ P s') ->
  exists s', for_range lo hi body s = Done s' /\ P s'.
Proof. intros. by apply for_step_preserves. Qed.

(** Two bodies that agree on the range of the loop give the same loop. *)
Lemma for_step_fuel_ext {St} (f g : Z -> St -> outcome St) (lo hi step : Z) :
  0 <= step ->
  (forall i s, lo <= i < hi -> f i s = g i s) ->
  forall fuel i s, lo <= i ->
    for_step_fuel fuel i hi step f s = for_step_fuel fuel i hi step g s.
Proof.
  intros Hstep Hfg. induction fuel as [|fuel IH]; intros i s Hi; simpl; [done|].
  case_bool_decide as Hlt; [|done].
  rewrite (Hfg i s) by lia. destruct (g i s) as [s'| | |]; simpl; try done.
  apply IH. lia.
Qed.

Lemma for_range_ext {St} (f g : Z -> St -> outcome St) (lo hi : Z) (s : St) :
  (forall i s, lo <= i < hi -> f i s = g i s) ->
  for_range lo hi f s = for_range lo hi g s.
Proof.
  intros Hfg. unfold for_range, for_step.
  apply (for_step_fuel_ext f g lo hi 1); [lia|done|lia].
Qed.

(** ** The SpMM kernels *)

Section SpmmFacts.

Context {F : Type} (fzero : F) (fadd fmul : F -> F -> F)
      (ffma : F -> F -> F -> F) (contract : bool).

Local Abbreviation CSR := (CSR F).
Local Abbreviation zero_fill := (zero_fill F fzero).
Local Abbreviation spmm_csr_scalar := (spmm_csr_scalar F fzero fadd fmul ffma contract).
Local Abbreviation spmm_csr_avx2 := (spmm_csr_avx2 F fzero fadd fmul ffma contract).
Local Abbreviation row_frame := (row_frame F).
Local Abbreviation mul_add := (mul_add F fadd fmul ffma contract).

Lemma row_frame_refl n i (C : list F) : row_frame n i C C.
Proof. by split. Qed.

Lemma row_frame_trans n i (C1 C2 C3 : list F) :
  row_frame n i C1 C2 -> row_frame n i C2 C3 -> row_frame n i C1 C3.
Proof.
  intros [Hl1 H1] [Hl2 H2]. split; [congruence|].
  intros idx Hidx. rewrite H2, H1; done.
Qed.

Lemma row_frame_store n i j (C : list F) (v : F) :
  0 <= j < n -> 0 <= i ->
  row_frame n i C (<[Z.to_nat (i * n + j) := v]> C).
Proof.
  intros Hj Hi. split; [by rewrite length_insert|].
  intros idx Hidx. apply list_lookup_insert_ne.
  unfold in_row in Hidx. nia.
Qed.

Lemma zero_fill_all (C : list F) (L : Z) :
  Z.of_nat (length C) = L ->
  zero_fill C L = Done (replicate (Z.to_nat L) fzero).
Proof.
  intros HL. unfold zero_fill.
  rewrite bool_decide_eq_true_2 by lia.
  rewrite drop_ge by lia. by rewrite app_nil_r.
Qed.

Lemma loadu_ps_Done (x : list F) (i : Z) :
  0 <= i -> i + 8 <= Z.of_nat (length x) ->
  exists v, loadu_ps F x i = Done v /\ length v = 8%nat.
Proof.
  intros H0 H8. unfold loadu_ps. rewrite bool_decide_eq_true_2 by done.
  eexists; split; [done|]. rewrite length_take, length_drop. lia.
Qed.

Lemma fmadd_ps_length (a b c : list F) :
  length (fmadd_ps F ffma a b c) =
  (length a `min` (length b `min` length c))%nat.
Proof.
  revert b c. induction a as [|x a IH]; intros [|y b] [|z c]; simpl; try done.
  by rewrite IH.
Qed.

Lemma storeu_ps_frame n i j (C v : list F) :
  0 <= i -> 0 <= j -> j + 8 <= n ->
  i * n + j + 8 <= Z.of_nat (length C) -> length v = 8%nat ->
  exists C', storeu_ps F C (i * n + j) v = Done C' /\ row_frame n i C C'.
Proof.
  intros Hi Hj Hj8 Hlen Hv. unfold storeu_ps.
  assert (0 <= i * n) as Hin by nia.
  rewrite bool_decide_eq_true_2 by lia.
  eexists; split; [done|]. split.
  - rewrite !length_app, !length_take, length_drop. lia.
  - intros idx Hidx. unfold in_row in Hidx.
  destruct (decide (idx < Z.to_nat (i * n + j))%nat) as [Hlt|Hge].
  + rewrite lookup_app_l by (rewrite length_take; lia).
    by rewrite lookup_take_lt.
  + rewrite lookup_app_r by (rewrite length_take; lia).
    rewrite lookup_app_r by (rewrite !length_take; nia).
    rewrite lookup_drop, !length_take. f_equal. nia.
Qed.

Section Row.

Variables (A : CSR) (B : list F) (n jblock : Z).
Hypothesis Hn : 1 <= n.
Hypothesis Hjblock : 1 <= jblock.
Hypothesis Hwf : csr_wf F A.
Hypothesis HB : Z.of_nat (length B) = csr_k F A * n.

Local Abbreviation m := (csr_m F A).
Local Abbreviation k := (csr_k F A).

(** The scalar update of the columns [j0 .. j1) of output row [i]. *)
Lemma scalar_columns layoutB i col a j0 j1 (C : list F) :
  0 <= i < m -> 0 <= col < k -> 0 <= j0 <= j1 -> j1 <= n ->
  Z.of_nat (length C) = m * n ->
  exists C',
    for_range j0 j1 (fun j C =>
      cj ← load C (i * n + j);
      bj ← getB F A B n layoutB col j;
      store C (i * n + j) (mul_add cj a bj)) C = Done C'
    /\ row_frame n i C C'.
Proof.
  intros Hi Hcol Hj01 Hj1 HC.
  apply (for_range_inv (fun _ C' => row_frame n i C C'));
    [lia|apply row_frame_refl|].
  intros j Cx Hj [Hlen Hfr].
  destruct (load_Done Cx (i * n + j)) as (cj & -> & _); [nia|].
  cbn [mbind outcome_bind].
  assert (exists bj, getB F A B n layoutB col j = Done bj) as [bj ->].
  { destruct layoutB; cbn [getB].
    - destruct (load_Done B (col * n + j)) as (bj & ? & _); [nia|eauto].
    - destruct (load_Done B (j * k + col)) as (bj & ? & _); [nia|eauto]. }
  cbn [mbind outcome_bind].
  rewrite store_Done by nia. eexists; split; [done|].
  eapply row_frame_trans; [by split|]. apply row_frame_store; lia.
Qed.

(** The vectorised update of the columns [j0 .. j1) of output row [i]:
    eight lanes at a time, then the scalar tail. *)
Lemma avx2_columns i col a j0 j1 (C : list F) :
  0 <= i < m -> 0 <= col < k -> 0 <= j0 <= j1 -> j1 <= n ->
  Z.of_nat (length C) = m * n ->
  exists C',
    (C ← for_step j0 (j0 + Z.quot (j1 - j0) 8 * 8) 8 (fun j C =>
           bv ← loadu_ps F B (col * n + j);
           cv ← loadu_ps F C (i * n + j);
           storeu_ps F C (i * n + j) (fmadd_ps F ffma (set1_ps F a) bv cv)) C;
     for_range (j0 + Z.quot (j1 - j0) 8 * 8) j1 (fun j C =>
       cj ← load C (i * n + j);
       bj ← load B (col * n + j);
       store C (i * n + j) (mul_add cj a bj)) C) = Done C'
    /\ row_frame n i C C'.
Proof.
  intros Hi Hcol Hj01 Hj1 HC.
  rewrite Z.quot_div_nonneg by lia.
  pose proof (Z.mul_div_le (j1 - j0) 8 ltac:(lia)) as Hq.
  pose proof (Z.div_pos (j1 - j0) 8 ltac:(lia) ltac:(lia)) as Hq0.
  set (q := (j1 - j0) / 8) in *.
  destruct (for_step_inv
    (fun j Cx => (exists r, j = j0 + 8 * r) /\ row_frame n i C Cx)
    (fun j C =>
       bv ← loadu_ps F B (col * n + j);
       cv ← loadu_ps F C (i * n + j);
       storeu_ps F C (i * n + j) (fmadd_ps F ffma (set1_ps F a) bv cv))
    j0 (j0 + q * 8) 8 C) as (j' & C1 & -> & [_ Hfr1] & _); [lia| | |].
  { split; [exists 0; lia|apply row_frame_refl]. }
  { intros j Cx Hj [[r ->] [Hlen Hfr]].
    destruct (loadu_ps_Done B (col * n + (j0 + 8 * r)))
      as (bv & -> & Hbv); [nia|nia|].
    cbn [mbind outcome_bind].
    destruct (loadu_ps_Done Cx (i * n + (j0 + 8 * r)))
      as (cv & -> & Hcv); [nia|nia|].
    cbn [mbind outcome_bind].
    destruct (storeu_ps_frame n i (j0 + 8 * r) Cx
                (fmadd_ps F ffma (set1_ps F a) bv cv))
      as (C' & -> & Hfr'); [lia|lia|lia|nia| |].
    { rewrite fmadd_ps_length, Hbv, Hcv. unfold set1_ps.
      by rewrite length_replicate. }
    eexists; split; [done|]. split; [exists (r + 1); lia|].
    eapply row_frame_trans; [by split|done]. }
  cbn [mbind outcome_bind].
  destruct (for_range_inv (fun _ Cx => row_frame n i C1 Cx)
    (fun j C =>
       cj ← load C (i * n + j);
       bj ← load B (col * n + j);
       store C (i * n + j) (mul_add cj a bj))
    (j0 + q * 8) j1 C1) as (C2 & -> & Hfr2); [lia|apply row_frame_refl| |].
  { intros j Cx Hj [Hlen Hfr]. destruct Hfr1 as [Hlen1 _].
    destruct (load_Done Cx (i * n + j)) as (cj & -> & _); [nia|].
    cbn [mbind outcome_bind].
    destruct (load_Done B (col * n + j)) as (bj & -> & _); [nia|].
    cbn [mbind outcome_bind].
    rewrite store_Done by nia. eexists; split; [done|].
    eapply row_frame_trans; [by split|]. apply row_frame_store; lia. }
  eexists; split; [done|]. by eapply row_frame_trans.
Qed.

Lemma other_row (i r j : Z) :
  0 <= j < n -> 0 <= r -> r <> i -> ~ in_row n i (Z.to_nat (r * n + j)).
Proof.
  intros Hj Hr0 Hr. unfold in_row. rewrite Z2Nat.id by nia.
  destruct (Z.lt_ge_cases r i).
  - assert ((r + 1) * n <= i * n) by nia. nia.
  - assert ((i + 1) * n <= r * n) by nia. nia.
Qed.

(** The row loop shared by the two kernels, for any update [upd] of a
    column block that stays inside the bounds and inside its row. *)
Lemma spmm_rows (upd : Z -> Z -> Z -> Z -> F -> list F -> outcome (list F))
    (C : list F) :
  (forall i col a j0 j1 C,
     0 <= i < m -> 0 <= col < k -> 0 <= j0 <= j1 -> j1 <= n ->
     Z.of_nat (length C) = m * n ->
     exists C', upd i j0 j1 col a C = Done C' /\ row_frame n i C C') ->
  Z.of_nat (length C) = m * n ->
  exists C1,
    (C ← zero_fill C (m * n);
     for_range 0 m (fun i C =>
       p0 ← load (rowptr F A) i;
       p1 ← load (rowptr F A) (i + 1);
       for_step 0 n jblock (fun j0 C =>
         for_range p0 p1 (fun p C =>
           col ← load (colidx F A) p;
           a ← load (values F A) p;
           upd i j0 (Z.min n (j0 + jblock)) col a C) C) C) C) = Done C1
    /\ Z.of_nat (length C1) = m * n
    /\ forall i p, 0 <= i < m ->
         rowptr F A !! Z.to_nat i = Some p ->
         rowptr F A !! Z.to_nat (i + 1) = Some p ->
         forall j, 0 <= j < n -> C1 !! Z.to_nat (i * n + j) = Some fzero.
Proof.
  intros Hupd HC. destruct Hwf as (Hm & Hrp & Hcv & Hrows & Hcols).
  rewrite (zero_fill_all C (m * n) HC). cbn [mbind outcome_bind].
  apply (for_range_inv (fun _ Cx =>
    Z.of_nat (length Cx) = m * n /\
    forall r p, 0 <= r < m ->
      rowptr F A !! Z.to_nat r = Some p ->
      rowptr F A !! Z.to_nat (r + 1) = Some p ->
      forall j, 0 <= j < n -> Cx !! Z.to_nat (r * n + j) = Some fzero));
    [lia| |].
  { split; [rewrite length_replicate; nia|].
    intros r p Hr _ _ j Hj. apply lookup_replicate_2. nia. }
  intros i Cx Hi [Hlen Hzero].
  destruct (load_Done (rowptr F A) i) as (p0 & -> & Hp0); [lia|].
  cbn [mbind outcome_bind].
  destruct (load_Done (rowptr F A) (i + 1)) as (p1 & -> & Hp1); [lia|].
  cbn [mbind outcome_bind].
  destruct (Hrows i p0 p1 Hi Hp0 Hp1) as [Hp01 Hp1n].
  destruct (for_step_inv
    (fun _ Cy => row_frame n i Cx Cy /\ (p0 = p1 -> Cy = Cx))
    (fun j0 C =>
       for_range p0 p1 (fun p C =>
         col ← load (colidx F A) p;
         a ← load (values F A) p;
         upd i j0 (Z.min n (j0 + jblock)) col a C) C)
    0 n jblock Cx) as (_ & Cx' & -> & [[Hlen' Hfr] Hsame] & _);
    [lia|split; [apply row_frame_refl|done]| |].
  { intros j0 Cy Hj0 [[Hly Hfy] Hsy].
    destruct (for_range_inv
      (fun _ Cz => row_frame n i Cx Cz /\ (p0 = p1 -> Cz = Cx))
      (fun p C =>
         col ← load (colidx F A) p;
         a ← load (values F A) p;
         upd i j0 (Z.min n (j0 + jblock)) col a C)
      p0 p1 Cy) as (Cz & -> & HCz); [lia|by split| |by eauto].
    intros p Cz Hp [[Hlz Hfz] _].
    destruct (load_Done (colidx F A) p) as (col & -> & Hcol); [lia|].
    cbn [mbind outcome_bind].
    destruct (load_Done (values F A) p) as (a & -> & _); [lia|].
    cbn [mbind outcome_bind].
    pose proof (Forall_lookup_1 _ _ _ _ Hcols Hcol) as Hcolk. cbn beta in Hcolk.
    destruct (Hupd i col a j0 (Z.min n (j0 + jblock)) Cz)
      as (C' & -> & Hfr'); [lia|lia|lia|lia|lia|].
    eexists; split; [done|]. split; [|lia].
    eapply row_frame_trans; [by split|done]. }
  eexists; split; [done|]. split; [lia|].
  intros r p Hr Hr0 Hr1 j Hj.
  destruct (decide (r = i)) as [->|Hne].
  - rewrite Hsame by congruence. by eapply Hzero.
  - rewrite Hfr by (apply other_row; [done|lia|done]). by eapply Hzero.
Qed.

End Row.

Lemma spmm_csr_scalar_fresh (A : CSR) (B C C' : list F) n jblock layoutB :
  Z.of_nat (length C) = csr_m F A * n ->
  Z.of_nat (length C') = csr_m F A * n ->
  spmm_csr_scalar A B C n jblock layoutB =
  spmm_csr_scalar A B C' n jblock layoutB.
Proof.
  intros HC HC'. unfold spmm_csr_scalar. by rewrite (zero_fill_all C _ HC), (zero_fill_all C' _ HC').
Qed.

Lemma spmm_csr_avx2_fresh (A : CSR) (B C C' : list F) n jblock layoutB :
  Z.of_nat (length C) = csr_m F A * n ->
  Z.of_nat (length C') = csr_m F A * n ->
  spmm_csr_avx2 A B C n jblock layoutB =
  spmm_csr_avx2 A B C' n jblock layoutB.
Proof.
  intros HC HC'. destruct layoutB; [|by apply spmm_csr_scalar_fresh].
  unfold spmm_csr_avx2. by rewrite (zero_fill_all C _ HC), (zero_fill_all C' _ HC').
Qed.

Lemma spmm_csr_scalar_Done (A : CSR) (B C : list F) (n jblock : Z)
    (layoutB : LayoutB) :
  1 <= n -> 1 <= jblock ->
  csr_wf F A ->
  Z.of_nat (length B) = csr_k F A * n ->
  Z.of_nat (length C) = csr_m F A * n ->
  exists Cs, spmm_csr_scalar A B C n jblock layoutB = Done Cs /\
    Z.of_nat (length Cs) = csr_m F A * n /\
    forall i p, 0 <= i < csr_m F A ->
      rowptr F A !! Z.to_nat i = Some p ->
      rowptr F A !! Z.to_nat (i + 1) = Some p ->
      forall j, 0 <= j < n -> Cs !! Z.to_nat (i * n + j) = Some fzero.
Proof.
  intros Hn Hjb Hwf HB HC.
  apply spmm_rows with
    (upd := fun i j0 j1 col a C =>
              for_range j0 j1 (fun j C =>
                cj ← load C (i * n + j);
                bj ← getB F A B n layoutB col j;
                store C (i * n + j) (mul_add cj a bj)) C); try done.
  intros. by apply scalar_columns.
Qed.

Lemma spmm_csr_avx2_Done (A : CSR) (B C : list F) (n jblock : Z)
    (layoutB : LayoutB) :
  1 <= n -> 1 <= jblock ->
  csr_wf F A ->
  Z.of_nat (length B) = csr_k F A * n ->
  Z.of_nat (length C) = csr_m F A * n ->
  exists Cv, spmm_csr_avx2 A B C n jblock layoutB = Done Cv /\
    Z.of_nat (length Cv) = csr_m F A * n /\
    forall i p, 0 <= i < csr_m F A ->
      rowptr F A !! Z.to_nat i = Some p ->
      rowptr F A !! Z.to_nat (i + 1) = Some p ->
      forall j, 0 <= j < n -> Cv !! Z.to_nat (i * n + j) = Some fzero.
Proof.
  intros Hn Hjb Hwf HB HC.
  destruct layoutB; [|by apply spmm_csr_scalar_Done].
  apply spmm_rows with
    (upd := fun i j0 j1 col a C =>
              C ← for_step j0 (j0 + Z.quot (j1 - j0) 8 * 8) 8 (fun j C =>
                     bv ← loadu_ps F B (col * n + j);
                     cv ← loadu_ps F C (i * n + j);
                     storeu_ps F C (i * n + j)
                       (fmadd_ps F ffma (set1_ps F a) bv cv)) C;
              for_range (j0 + Z.quot (j1 - j0) 8 * 8) j1 (fun j C =>
                cj ← load C (i * n + j);
                bj ← load B (col * n + j);
                store C (i * n + j) (mul_add cj a bj)) C); try done.
  intros. apply avx2_columns with (A := A); done.
Qed.

(** C5.  On a well-formed CSR matrix [A] (m x k), a dense [B] (k x n) and
    an output buffer of m x n floats, with [n >= 1] and [jblock >= 1],
    both SpMM kernels return; what they return does not depend on what
    the output buffer held before the call; and every row of [A] without
    non-zeros ([rowptr[i] = rowptr[i+1]]) gives an output row of [+0.0]. *)
Theorem spmm_overwrites_output (A : CSR) (B C C' : list F)
    (n jblock : Z) (layoutB : LayoutB) :
  1 <= n -> 1 <= jblock ->
  csr_wf F A ->
  Z.of_nat (length B) = csr_k F A * n ->
  Z.of_nat (length C) = csr_m F A * n ->
  Z.of_nat (length C') = csr_m F A * n ->
  exists Cs Cv,
    spmm_csr_scalar A B C n jblock layoutB = Done Cs /\
    spmm_csr_scalar A B C' n jblock layoutB = Done Cs /\
    spmm_csr_avx2 A B C n jblock layoutB = Done Cv /\
    spmm_csr_avx2 A B C' n jblock layoutB = Done Cv /\
    Z.of_nat (length Cs) = csr_m F A * n /\
    Z.of_nat (length Cv) = csr_m F A * n /\
    forall i p, 0 <= i < csr_m F A ->
      rowptr F A !! Z.to_nat i = Some p ->
      rowptr F A !! Z.to_nat (i + 1) = Some p ->
      forall j, 0 <= j < n ->
        Cs !! Z.to_nat (i * n + j) = Some fzero /\
        Cv !! Z.to_nat (i * n + j) = Some fzero.
Proof.
  intros Hn Hjb Hwf HB HC HC'.
  destruct (spmm_csr_scalar_Done A B C n jblock layoutB)
    as (Cs & Hs & Hls & Hzs); [done..|].
  destruct (spmm_csr_avx2_Done A B C n jblock layoutB)
    as (Cv & Hv & Hlv & Hzv); [done..|].
  exists Cs, Cv. repeat split; try done.
  - by rewrite <- (spmm_csr_scalar_fresh A B C C').
  - by rewrite <- (spmm_csr_avx2_fresh A B C C').
  - by eapply Hzs.
  - by eapply Hzv.
Qed.

(** C6.  With a column-major [B] the vectorised SpMM kernel is the scalar
    kernel: same arguments, same outcome. *)
Theorem spmm_avx2_colmajor_is_scalar (A : CSR) (B C : list F) (n jblock : Z) :
  spmm_csr_avx2 A B C n jblock ColMajor =
  spmm_csr_scalar A B C n jblock ColMajor.
Proof. reflexivity. Qed.

End SpmmFacts.

Lemma sparse2_wf : csr_wf spec_float Ex.sparse2.
Proof.
  unfold csr_wf. cbn.
  split; [lia|]. split; [done|]. split; [done|]. split.
  - intros i p0 p1 Hi. assert (i = 0 \/ i = 1) as [-> | ->] by lia;
      cbn; intros [= <-] [= <-]; lia.
  - repeat constructor; lia.
Qed.

Lemma spmm_overwrites_output_witness :
  exists Cs Cv,
    spmm_csr_scalar spec_float F32.zero F32.add F32.mul F32.fma true
      Ex.sparse2 Ex.dense2 Ex.out2 2 1 RowMajor = Done Cs /\
    spmm_csr_scalar spec_float F32.zero F32.add F32.mul F32.fma true
      Ex.sparse2 Ex.dense2 Ex.out2' 2 1 RowMajor = Done Cs /\
    spmm_csr_avx2 spec_float F32.zero F32.add F32.mul F32.fma true
      Ex.sparse2 Ex.dense2 Ex.out2 2 1 RowMajor = Done Cv /\
    spmm_csr_avx2 spec_float F32.zero F32.add F32.mul F32.fma true
      Ex.sparse2 Ex.dense2 Ex.out2' 2 1 RowMajor = Done Cv /\
    Z.of_nat (length Cs) = csr_m spec_float Ex.sparse2 * 2 /\
    Z.of_nat (length Cv) = csr_m spec_float Ex.sparse2 * 2 /\
    forall i p, 0 <= i < csr_m spec_float Ex.sparse2 ->
      rowptr spec_float Ex.sparse2 !! Z.to_nat i = Some p ->
      rowptr spec_float Ex.sparse2 !! Z.to_nat (i + 1) = Some p ->
      forall j, 0 <= j < 2 ->
        Cs !! Z.to_nat (i * 2 + j) = Some F32.zero /\
        Cv !! Z.to_nat (i * 2 + j) = Some F32.zero.
Proof.
  apply (spmm_overwrites_output F32.zero F32.add F32.mul F32.fma true
           Ex.sparse2 Ex.dense2 Ex.out2 Ex.out2' 2 1 RowMajor);
    [lia | lia | exact sparse2_wf | reflexivity | reflexivity | reflexivity].
Defined.

Example spmm_sparse2_runs :
  spmm_csr_scalar spec_float F32.zero F32.add F32.mul F32.fma true
    Ex.sparse2 Ex.dense2 Ex.out2 2 1 RowMajor
  = Done (map F32.of_Z [9; 12; 0; 0]).
Proof. vm_compute. reflexivity. Qed.

(** ** The tiled GEMM kernel *)

Section GemmFacts.

Context {F : Type} (fzero : F) (fadd fmul : F -> F -> F)
        (ffma : F -> F -> F -> F) (contract : bool).

Local Abbreviation zero_fill := (zero_fill F fzero).
Local Abbreviation elt := (elt F fzero).
Local Abbreviation gemm_tiled_scalar := (gemm_tiled_scalar F fadd fmul ffma contract).
Local Abbreviation dot_acc := (dot_acc F fzero fadd fmul ffma contract).
Local Abbreviation mul_add := (mul_add F fadd fmul ffma contract).

Variables (A B : list F) (m k n : Z).
Hypothesis Hm : 0 <= m.
Hypothesis Hk : 0 <= k.
Hypothesis Hn : 0 <= n.
Hypothesis HA : Z.of_nat (length A) = m * k.
Hypothesis HB : Z.of_nat (length B) = k * n.

Local Abbreviation accumulated := (accumulated F fzero fadd fmul ffma contract A B m k n).

Lemma load_elt (x : list F) (i : Z) :
  0 <= i < Z.of_nat (length x) -> load x i = Done (elt x i).
Proof.
  intros Hi. destruct (load_Done x i Hi) as (v & -> & Hv).
  unfold elt. by rewrite Hv.
Qed.

Lemma lookup_elt (x : list F) (i : Z) :
  0 <= i < Z.of_nat (length x) -> x !! Z.to_nat i = Some (elt x i).
Proof.
  intros Hi. destruct (load_Done x i Hi) as (v & _ & Hv).
  unfold elt. by rewrite Hv.
Qed.

Lemma flat_index_inj (i j i' j' : Z) :
  0 <= j < n -> 0 <= j' < n -> i * n + j = i' * n + j' -> i = i' /\ j = j'.
Proof.
  intros Hj Hj' Heq.
  assert (i = i') as ->; [|lia].
  destruct (Z.lt_trichotomy i i') as [Hlt|[Heq'|Hgt]]; [|done|].
  - assert ((i + 1) * n <= i' * n) by nia. lia.
  - assert ((i' + 1) * n <= i * n) by nia. lia.
Qed.

Lemma dot_acc_nil i j c t : dot_acc A B k n i j c t t = c.
Proof. unfold dot_acc. by rewrite Z.sub_diag. Qed.

Lemma dot_acc_split i j c t0 t1 t2 :
  t0 <= t1 <= t2 ->
  dot_acc A B k n i j c t0 t2
  = dot_acc A B k n i j (dot_acc A B k n i j c t0 t1) t1 t2.
Proof.
  intros Ht. unfold dot_acc.
  replace (t2 - t0) with ((t1 - t0) + (t2 - t1)) by lia.
  rewrite seqZ_app by lia. rewrite fold_left_app.
  by replace (t0 + (t1 - t0)) with t1 by lia.
Qed.

Lemma dot_acc_one i j c t :
  dot_acc A B k n i j c t (t + 1)
  = mul_add c (elt A (i * k + t)) (elt B (t * n + j)).
Proof.
  unfold dot_acc. by replace (t + 1 - t) with 1 by lia.
Qed.

(** *** Composition of partial accumulations *)

Lemma accumulated_none (R : Z -> Z -> Prop) t0 t1 (C : list F) :
  (forall i j, ~ R i j) -> accumulated R t0 t1 C C.
Proof. intros HR. split; [done|]. intros i j _ _. split; [by intros ?%HR|done]. Qed.

Lemma accumulated_region (R R' : Z -> Z -> Prop) t0 t1 (C C' : list F) :
  (forall i j, 0 <= i < m -> 0 <= j < n -> R i j <-> R' i j) ->
  accumulated R t0 t1 C C' -> accumulated R' t0 t1 C C'.
Proof.
  intros HRR [Hlen H]. split; [done|]. intros i j Hi Hj.
  destruct (H i j Hi Hj) as [H1 H2]. specialize (HRR i j Hi Hj).
  split; intros ?; [apply H1|apply H2]; tauto.
Qed.

Lemma accumulated_space (R1 R2 : Z -> Z -> Prop) t0 t1 (C0 C1 C2 : list F) :
  Z.of_nat (length C0) = m * n ->
  (forall i j, R1 i j -> R2 i j -> False) ->
  accumulated R1 t0 t1 C0 C1 ->
  accumulated R2 t0 t1 C1 C2 ->
  accumulated (fun i j => R1 i j \/ R2 i j) t0 t1 C0 C2.
Proof.
  intros HL Hdisj [Hl1 H1] [Hl2 H2]. split; [congruence|].
  intros i j Hi Hj.
  destruct (H1 i j Hi Hj) as [H1in H1out].
  destruct (H2 i j Hi Hj) as [H2in H2out].
  assert (0 <= i * n + j < m * n) as Hidx by nia.
  split.
  - intros [HR|HR].
    + rewrite H2out by eauto. by apply H1in.
    + rewrite H2in by done. do 2 f_equal.
      assert (~ R1 i j) as Hn1 by eauto.
      unfold elt. by rewrite (H1out Hn1).
  - intros HR. rewrite H2out, H1out by tauto. done.
Qed.

Lemma accumulated_time (R : Z -> Z -> Prop) t0 t1 t2 (C0 C1 C2 : list F) :
  t0 <= t1 <= t2 ->
  accumulated R t0 t1 C0 C1 ->
  accumulated R t1 t2 C1 C2 ->
  accumulated R t0 t2 C0 C2.
Proof.
  intros Ht [Hl1 H1] [Hl2 H2]. split; [congruence|].
  intros i j Hi Hj.
  destruct (H1 i j Hi Hj) as [H1in H1out].
  destruct (H2 i j Hi Hj) as [H2in H2out].
  split.
  - intros HR. rewrite H2in by done. f_equal.
    rewrite (dot_acc_split i j _ t0 t1 t2) by done. f_equal.
    unfold elt at 1. by rewrite (H1in HR).
  - intros HR. by rewrite H2out, H1out.
Qed.

Lemma accumulated_no_time (R : Z -> Z -> Prop) t (C : list F) :
  Z.of_nat (length C) = m * n -> accumulated R t t C C.
Proof.
  intros HL. split; [done|]. intros i j Hi Hj. split; [|done].
  intros _. rewrite dot_acc_nil. apply lookup_elt. nia.
Qed.

(** *** The loop nest, innermost loop first *)

Local Abbreviation rect i0 i1 j0 j1 :=
  (fun i j : Z => i0 <= i < i1 /\ j0 <= j < j1).

Lemma accumulated_cell i j t (C : list F) :
  0 <= i < m -> 0 <= j < n -> Z.of_nat (length C) = m * n ->
  accumulated (rect i (i + 1) j (j + 1)) t (t + 1) C
    (<[Z.to_nat (i * n + j) :=
         mul_add (elt C (i * n + j)) (elt A (i * k + t)) (elt B (t * n + j))]> C).
Proof.
  intros Hi Hj HL. split; [by rewrite length_insert|].
  intros i' j' Hi' Hj'. split.
  - intros [? ?]. assert (i' = i) as -> by lia. assert (j' = j) as -> by lia.
    rewrite list_lookup_insert_eq by nia. by rewrite dot_acc_one.
  - intros HR. apply list_lookup_insert_ne. intros Heq.
    apply Z2Nat.inj in Heq; [|nia|nia].
    apply flat_index_inj in Heq; [|done|done]. lia.
Qed.

Lemma gemm_columns i t jj j_end (C : list F) :
  0 <= i < m -> 0 <= t < k -> 0 <= jj <= j_end -> j_end <= n ->
  Z.of_nat (length C) = m * n ->
  exists C',
    for_range jj j_end (fun j C =>
      bj ← load B (t * n + jj + (j - jj));
      cj ← load C (i * n + jj + (j - jj));
      store C (i * n + jj + (j - jj))
            (mul_add cj (elt A (i * k + t)) bj)) C = Done C'
    /\ accumulated (rect i (i + 1) jj j_end) t (t + 1) C C'.
Proof.
  intros Hi Ht Hjj Hje HL.
  apply (for_range_inv
    (fun j Cx => accumulated (rect i (i + 1) jj j) t (t + 1) C Cx)); [lia| |].
  { apply accumulated_none. lia. }
  intros j Cx Hj Hacc. pose proof Hacc as [Hlen _].
  replace (t * n + jj + (j - jj)) with (t * n + j) by lia.
  replace (i * n + jj + (j - jj)) with (i * n + j) by lia.
  rewrite (load_elt B) by nia. cbn [mbind outcome_bind].
  rewrite (load_elt Cx) by nia. cbn [mbind outcome_bind].
  rewrite store_Done by nia. eexists; split; [done|].
  eapply accumulated_region;
    [|eapply (accumulated_space (rect i (i + 1) jj j) (rect i (i + 1) j (j + 1)));
      [done|lia|exact Hacc|apply accumulated_cell; [lia|lia|lia]]].
  intros i' j' _ _. simpl. lia.
Qed.

Lemma gemm_reduction i kk k_end jj j_end (C : list F) :
  0 <= i < m -> 0 <= kk <= k_end -> k_end <= k ->
  0 <= jj <= j_end -> j_end <= n ->
  Z.of_nat (length C) = m * n ->
  exists C',
    for_range kk k_end (fun t C =>
      a ← load A (i * k + t);
      for_range jj j_end (fun j C =>
        bj ← load B (t * n + jj + (j - jj));
        cj ← load C (i * n + jj + (j - jj));
        store C (i * n + jj + (j - jj)) (mul_add cj a bj)) C) C = Done C'
    /\ accumulated (rect i (i + 1) jj j_end) kk k_end C C'.
Proof.
  intros Hi Hkk Hke Hjj Hje HL.
  apply (for_range_inv
    (fun t Cx => accumulated (rect i (i + 1) jj j_end) kk t C Cx)); [lia| |].
  { by apply accumulated_no_time. }
  intros t Cx Ht Hacc. pose proof Hacc as [Hlen _].
  rewrite (load_elt A) by nia. cbn [mbind outcome_bind].
  destruct (gemm_columns i t jj j_end Cx) as (C' & -> & Hacc');
    [lia|lia|lia|lia|lia|].
  eexists; split; [done|].
  eapply accumulated_time; [|exact Hacc|exact Hacc']. lia.
Qed.

Lemma gemm_tile ii i_end kk k_end jj j_end (C : list F) :
  0 <= ii <= i_end -> i_end <= m -> 0 <= kk <= k_end -> k_end <= k ->
  0 <= jj <= j_end -> j_end <= n ->
  Z.of_nat (length C) = m * n ->
  exists C',
    for_range ii i_end (fun i C =>
      for_range kk k_end (fun t C =>
        a ← load A (i * k + t);
        for_range jj j_end (fun j C =>
          bj ← load B (t * n + jj + (j - jj));
          cj ← load C (i * n + jj + (j - jj));
          store C (i * n + jj + (j - jj)) (mul_add cj a bj)) C) C) C = Done C'
    /\ accumulated (rect ii i_end jj j_end) kk k_end C C'.
Proof.
  intros Hii Hie Hkk Hke Hjj Hje HL.
  apply (for_range_inv
    (fun i Cx => accumulated (rect ii i jj j_end) kk k_end C Cx)); [lia| |].
  { apply accumulated_none. lia. }
  intros i Cx Hi Hacc. pose proof Hacc as [Hlen _].
  destruct (gemm_reduction i kk k_end jj j_end Cx) as (C' & -> & Hacc');
    [lia|lia|lia|lia|lia|lia|].
  eexists; split; [done|].
  eapply accumulated_region;
    [|eapply (accumulated_space (rect ii i jj j_end) (rect i (i + 1) jj j_end));
      [done|lia|exact Hacc|exact Hacc']].
  intros i' j' _ _. simpl. lia.
Qed.

Variables tileM tileK tileN : Z.
Hypothesis HtileM : 0 < tileM.
Hypothesis HtileK : 0 < tileK.
Hypothesis HtileN : 0 < tileN.

Local Abbreviation tile_body ii kk jj :=
  (fun C : list F =>
     for_range ii (Z.min m (ii + tileM)) (fun i C =>
       for_range kk (Z.min k (kk + tileK)) (fun t C =>
         a ← load A (i * k + t);
         for_range jj (Z.min n (jj + tileN)) (fun j C =>
           bj ← load B (t * n + jj + (j - jj));
           cj ← load C (i * n + jj + (j - jj));
           store C (i * n + jj + (j - jj)) (mul_add cj a bj)) C) C) C).

Lemma gemm_column_tiles ii kk (C : list F) :
  0 <= ii < m -> 0 <= kk < k ->
  Z.of_nat (length C) = m * n ->
  exists C',
    for_step 0 n tileN (fun jj C => tile_body ii kk jj C) C = Done C'
    /\ accumulated (rect ii (Z.min m (ii + tileM)) 0 n)
                   kk (Z.min k (kk + tileK)) C C'.
Proof.
  intros Hii Hkk HL.
  destruct (for_step_inv
    (fun jj Cx => 0 <= jj /\
       accumulated (rect ii (Z.min m (ii + tileM)) 0 (Z.min jj n))
                   kk (Z.min k (kk + tileK)) C Cx)
    (fun jj C => tile_body ii kk jj C) 0 n tileN C)
    as (jj' & C' & -> & [_ Hacc] & Hjj'); [done| | |].
  { split; [done|]. apply accumulated_none. lia. }
  { intros jj Cx Hjj [_ Hacc]. pose proof Hacc as [Hlen _].
    destruct (gemm_tile ii (Z.min m (ii + tileM)) kk (Z.min k (kk + tileK))
                jj (Z.min n (jj + tileN)) Cx) as (Cy & -> & Hacc');
      [lia|lia|lia|lia|lia|lia|lia|].
    eexists; split; [done|]. split; [lia|].
    eapply accumulated_region;
      [|eapply (accumulated_space
                  (rect ii (Z.min m (ii + tileM)) 0 (Z.min jj n))
                  (rect ii (Z.min m (ii + tileM)) jj (Z.min n (jj + tileN))));
        [done|lia|exact Hacc|exact Hacc']].
    intros i' j' _ _. simpl. lia. }
  eexists; split; [done|].
  eapply accumulated_region; [|exact Hacc]. intros i' j' _ _. simpl. lia.
Qed.

Lemma gemm_reduction_tiles ii (C : list F) :
  0 <= ii < m ->
  Z.of_nat (length C) = m * n ->
  exists C',
    for_step 0 k tileK (fun kk C =>
      for_step 0 n tileN (fun jj C => tile_body ii kk jj C) C) C = Done C'
    /\ accumulated (rect ii (Z.min m (ii + tileM)) 0 n) 0 k C C'.
Proof.
  intros Hii HL.
  destruct (for_step_inv
    (fun kk Cx => 0 <= kk /\
       accumulated (rect ii (Z.min m (ii + tileM)) 0 n) 0 (Z.min kk k) C Cx)
    (fun kk C => for_step 0 n tileN (fun jj C => tile_body ii kk jj C) C)
    0 k tileK C) as (kk' & C' & -> & [_ Hacc] & Hkk'); [done| | |].
  { split; [done|]. replace (Z.min 0 k) with 0 by lia.
    by apply accumulated_no_time. }
  { intros kk Cx Hkk [_ Hacc]. pose proof Hacc as [Hlen _].
    destruct (gemm_column_tiles ii kk Cx) as (Cy & -> & Hacc'); [lia|lia|lia|].
    eexists; split; [done|]. split; [lia|].
    replace (Z.min kk k) with kk in Hacc by lia.
    replace (Z.min (kk + tileK) k) with (Z.min k (kk + tileK)) by lia.
    eapply accumulated_time; [|exact Hacc|exact Hacc']. lia. }
  eexists; split; [done|]. by replace (Z.min kk' k) with k in Hacc by lia.
Qed.

(** The whole kernel: it returns, and every element of the m x n output
    has received the accumulation over [t = 0 .. k - 1]. *)
Lemma gemm_tiled_scalar_accumulates (C : list F) :
  Z.of_nat (length C) = m * n ->
  exists C',
    gemm_tiled_scalar A B C m k n tileM tileK tileN = Done C'
    /\ accumulated (fun _ _ => True) 0 k C C'.
Proof.
  intros HL. unfold gemm_tiled_scalar. cbv zeta.
  destruct (for_step_inv
    (fun ii Cx => 0 <= ii /\ accumulated (rect 0 (Z.min ii m) 0 n) 0 k C Cx)
    (fun ii C =>
       for_step 0 k tileK (fun kk C =>
         for_step 0 n tileN (fun jj C => tile_body ii kk jj C) C) C)
    0 m tileM C) as (ii' & C' & -> & [_ Hacc] & Hii'); [done| | |].
  { split; [done|]. apply accumulated_none. lia. }
  { intros ii Cx Hii [_ Hacc]. pose proof Hacc as [Hlen _].
    destruct (gemm_reduction_tiles ii Cx) as (Cy & -> & Hacc'); [lia|lia|].
    eexists; split; [done|]. split; [lia|].
    eapply accumulated_region;
      [|eapply (accumulated_space (rect 0 (Z.min ii m) 0 n)
                  (rect ii (Z.min m (ii + tileM)) 0 n));
        [done|lia|exact Hacc|exact Hacc']].
    intros i' j' _ _. simpl. lia. }
  eexists; split; [done|].
  eapply accumulated_region; [|exact Hacc]. intros i' j' ? ?. simpl. lia.
Qed.

End GemmFacts.

(** C7 (amended).  With positive tile sizes, [zero_fill] followed by one or
    by two calls of the tiled kernel returns.  After one call every element
    [C[i][j]] is [+0.0] after the [k] updates [c += A[i][t] * B[t][j]],
    [t = 0 .. k - 1], in this order; after two calls it is that value
    after the same [k] updates once more, in the same order: the second
    call accumulates, it does not overwrite.  This holds for both ways of
    building the kernel, with [c += a * b] contracted into one fused
    operation or evaluated as a rounded product and a rounded sum. *)
Theorem gemm_twice_accumulates {F : Type} (fzero : F) (fadd fmul : F -> F -> F)
    (ffma : F -> F -> F -> F) (contract : bool)
    (A B C : list F) (m k n tileM tileK tileN : Z) :
  0 <= m -> 0 <= k -> 0 <= n ->
  0 < tileM -> 0 < tileK -> 0 < tileN ->
  Z.of_nat (length A) = m * k ->
  Z.of_nat (length B) = k * n ->
  Z.of_nat (length C) = m * n ->
  exists C1 C2,
    gemm_after_zero_fill F fzero fadd fmul ffma contract
      A B C m k n tileM tileK tileN = Done C1 /\
    gemm_twice_after_zero_fill F fzero fadd fmul ffma contract
      A B C m k n tileM tileK tileN = Done C2 /\
    forall i j, 0 <= i < m -> 0 <= j < n ->
      let once := dot_acc F fzero fadd fmul ffma contract A B k n i j fzero 0 k in
      C1 !! Z.to_nat (i * n + j) = Some once /\
      C2 !! Z.to_nat (i * n + j)
        = Some (dot_acc F fzero fadd fmul ffma contract A B k n i j once 0 k).
Proof.
  intros Hm Hk Hn HtM HtK HtN HA HB HC.
  unfold gemm_after_zero_fill, gemm_twice_after_zero_fill.
  rewrite (zero_fill_all fzero C (m * n) HC). cbn [mbind outcome_bind].
  set (Z0 := replicate (Z.to_nat (m * n)) fzero).
  assert (Z.of_nat (length Z0) = m * n) as HZ0
    by (unfold Z0; rewrite length_replicate; nia).
  destruct (gemm_tiled_scalar_accumulates fzero fadd fmul ffma contract
              A B m k n Hm Hk Hn HA HB
              tileM tileK tileN HtM HtK HtN Z0 HZ0) as (C1 & -> & [Hl1 H1]).
  cbn [mbind outcome_bind].
  destruct (gemm_tiled_scalar_accumulates fzero fadd fmul ffma contract
              A B m k n Hm Hk Hn HA HB
              tileM tileK tileN HtM HtK HtN C1 ltac:(lia)) as (C2 & -> & [Hl2 H2]).
  assert (forall i j, 0 <= i < m -> 0 <= j < n ->
            elt F fzero Z0 (i * n + j) = fzero) as HZ.
  { intros i j Hi Hj. unfold elt, Z0. by rewrite lookup_replicate_2 by nia. }
  assert (forall i j, 0 <= i < m -> 0 <= j < n ->
            C1 !! Z.to_nat (i * n + j)
            = Some (dot_acc F fzero fadd fmul ffma contract A B k n i j fzero 0 k))
    as HC1.
  { intros i j Hi Hj. destruct (H1 i j Hi Hj) as [E _].
    by rewrite (E I), HZ. }
  exists C1, C2. split; [done|]. split; [done|].
  intros i j Hi Hj. cbv zeta. split; [by apply HC1|].
  destruct (H2 i j Hi Hj) as [E _].
  rewrite (E I). unfold elt at 1. by rewrite HC1.
Qed.

Lemma gemm_twice_accumulates_witness :
  exists C1 C2,
    gemm_after_zero_fill spec_float F32.zero F32.add F32.mul F32.fma true
      Ex.eye2 Ex.b5678 Ex.out2 2 2 2 64 64 128 = Done C1 /\
    gemm_twice_after_zero_fill spec_float F32.zero F32.add F32.mul F32.fma true
      Ex.eye2 Ex.b5678 Ex.out2 2 2 2 64 64 128 = Done C2 /\
    forall i j, 0 <= i < 2 -> 0 <= j < 2 ->
      let once := dot_acc spec_float F32.zero F32.add F32.mul F32.fma true
                    Ex.eye2 Ex.b5678 2 2 i j F32.zero 0 2 in
      C1 !! Z.to_nat (i * 2 + j) = Some once /\
      C2 !! Z.to_nat (i * 2 + j)
        = Some (dot_acc spec_float F32.zero F32.add F32.mul F32.fma true
                  Ex.eye2 Ex.b5678 2 2 i j once 0 2).
Proof.
  apply (gemm_twice_accumulates F32.zero F32.add F32.mul F32.fma true
           Ex.eye2 Ex.b5678 Ex.out2 2 2 2 64 64 128);
    [lia | lia | lia | lia | lia | lia | reflexivity | reflexivity | reflexivity].
Defined.

(** The identity scenario: [[1 0] [0 1]] times [[5 6] [7 8]]. *)
Example gemm_identity_2x2 :
  gemm_after_zero_fill spec_float F32.zero F32.add F32.mul F32.fma true
    Ex.eye2 Ex.b5678 Ex.out2 2 2 2 64 64 128
  = Done (map F32.of_Z [5; 6; 7; 8]).
Proof. vm_compute. reflexivity. Qed.

(** On these small integers no operation rounds, and two calls give
    twice the product. *)
Example gemm_identity_2x2_twice :
  gemm_twice_after_zero_fill spec_float F32.zero F32.add F32.mul F32.fma true
    Ex.eye2 Ex.b5678 Ex.out2 2 2 2 64 64 128
  = Done (map F32.of_Z [10; 12; 14; 16]).
Proof. vm_compute. reflexivity. Qed.

(** C7 as stated fails in binary32, in both ways of building the kernel:
    with [A = [1, 2^-24 + 2^-47]] and [B = [1, 1]] the products are exact,
    one call gives [1 + 2^-23], two calls give [2], and twice the
    single-call value is [2 + 2^-22]. *)
Lemma gemm_twice_not_double :
  (exists c1 c2,
     gemm_after_zero_fill spec_float F32.zero F32.add F32.mul F32.fma true
       Ex.row12 Ex.col21 [F32.zero] 1 2 1 64 64 128 = Done [c1] /\
     gemm_twice_after_zero_fill spec_float F32.zero F32.add F32.mul F32.fma true
       Ex.row12 Ex.col21 [F32.zero] 1 2 1 64 64 128 = Done [c2] /\
     c1 = S754_finite false 8388609 (-23) /\
     c2 = S754_finite false 8388608 (-22) /\
     c2 <> F32.mul (F32.of_Z 2) c1 /\
     c2 <> F32.add c1 c1 /\
     SFeqb c2 (F32.mul (F32.of_Z 2) c1) = false) /\
  (exists c1 c2,
     gemm_after_zero_fill spec_float F32.zero F32.add F32.mul F32.fma false
       Ex.row12 Ex.col21 [F32.zero] 1 2 1 64 64 128 = Done [c1] /\
     gemm_twice_after_zero_fill spec_float F32.zero F32.add F32.mul F32.fma false
       Ex.row12 Ex.col21 [F32.zero] 1 2 1 64 64 128 = Done [c2] /\
     c1 = S754_finite false 8388609 (-23) /\
     c2 = S754_finite false 8388608 (-22) /\
     c2 <> F32.mul (F32.of_Z 2) c1 /\
     c2 <> F32.add c1 c1 /\
     SFeqb c2 (F32.mul (F32.of_Z 2) c1) = false).
Proof.
  split;
    (exists (S754_finite false 8388609 (-23)), (S754_finite false 8388608 (-22));
     split; [vm_compute; reflexivity|]; split; [vm_compute; reflexivity|];
     split; [reflexivity|]; split; [reflexivity|];
     split; [vm_compute; discriminate|];
     split; [vm_compute; discriminate|]; vm_compute; reflexivity).
Qed.

(** ** The stream-triad probe *)

Section StreamFacts.

Context {F : Type} (fadd fmul : F -> F -> F)
        (ffma : F -> F -> F -> F) (contract : bool).
Context {rng : Type} (mt19937_64 : Z -> rng) (uniform_real : rng -> F * rng).
Context (scalar_s : F).

Local Abbreviation fill := (fill_random F rng mt19937_64 uniform_real).
Local Abbreviation mul_add := (mul_add F fadd fmul ffma contract).
Local Abbreviation triad :=
  (stream_triad F fadd fmul ffma contract rng mt19937_64 uniform_real scalar_s).

Lemma fill_random_Done (x : list F) (N seed : Z) :
  0 <= N <= Z.of_nat (length x) ->
  exists x', fill x N seed = Done x' /\ length x' = length x.
Proof.
  intros HN. unfold fill_random.
  destruct (for_range_inv
    (fun _ (st : list F * rng) => length st.1 = length x)
    (fun i '(x, g) =>
       let '(v, g) := uniform_real g in
       x ← store x i v; Done (x, g))
    0 N (x, mt19937_64 seed)) as ([x' g'] & -> & Hlen); [lia|done| |by eauto].
  intros i [y g] Hi Hy. cbn in Hy. destruct (uniform_real g) as [v g1].
  rewrite store_Done by lia. cbn [mbind outcome_bind].
  eexists; split; [done|]. cbn. by rewrite length_insert.
Qed.

(** One sweep [a[i] = b[i] + s * c[i]] over the [N] indices. *)
Lemma triad_sweep (a b c : list F) (N : Z) :
  0 <= N ->
  Z.of_nat (length a) = N -> Z.of_nat (length b) = N -> Z.of_nat (length c) = N ->
  exists a',
    for_range 0 N (fun i a =>
      bi ← load b i;
      ci ← load c i;
      store a i (mul_add bi scalar_s ci)) a = Done a'
    /\ Z.of_nat (length a') = N
    /\ forall i, 0 <= i < N ->
         exists bi ci, b !! Z.to_nat i = Some bi /\ c !! Z.to_nat i = Some ci /\
                       a' !! Z.to_nat i = Some (mul_add bi scalar_s ci).
Proof.
  intros HN Ha Hb Hc.
  destruct (for_range_inv
    (fun i x => Z.of_nat (length x) = N /\
       forall i', 0 <= i' < i ->
         exists bi ci, b !! Z.to_nat i' = Some bi /\ c !! Z.to_nat i' = Some ci /\
                       x !! Z.to_nat i' = Some (mul_add bi scalar_s ci))
    (fun i a =>
       bi ← load b i;
       ci ← load c i;
       store a i (mul_add bi scalar_s ci))
    0 N a) as (a' & -> & Hlen & Hval); [lia|split; [done|lia]| |by eauto].
  intros i x Hi [Hlen Hval].
  destruct (load_Done b i) as (bi & -> & Hbi); [lia|]. cbn [mbind outcome_bind].
  destruct (load_Done c i) as (ci & -> & Hci); [lia|]. cbn [mbind outcome_bind].
  rewrite store_Done by lia. eexists; split; [done|].
  split; [by rewrite length_insert|].
  intros i' Hi'. destruct (decide (i' = i)) as [->|Hne].
  - exists bi, ci. repeat split; [done|done|].
    apply list_lookup_insert_eq. lia.
  - destruct (Hval i') as (bi' & ci' & ? & ? & ?); [lia|].
    exists bi', ci'. repeat split; [done|done|].
    rewrite list_lookup_insert_ne by lia. done.
Qed.

(** C9.  When the timed loop of the stream-triad probe is left after at
    least one iteration (the claim has [N = 1024] and [iters = 1]), every
    [a[i]] is [b[i] + s * c[i]] in [float] arithmetic, with [s = 1.1f] and
    [b] and [c] the buffers filled from the seeds 2 and 3: the expression
    as the build evaluates it, in one fused operation or as a rounded
    product and a rounded sum. *)
Theorem stream_triad_exact (a0 b0 c0 : list F) (N iters : Z) :
  0 <= N -> 1 <= iters ->
  Z.of_nat (length a0) = N ->
  Z.of_nat (length b0) = N ->
  Z.of_nat (length c0) = N ->
  exists a b c,
    triad a0 b0 c0 N iters = Done (a, b, c) /\
    fill b0 N 2 = Done b /\
    fill c0 N 3 = Done c /\
    forall i, 0 <= i < N ->
      exists bi ci, b !! Z.to_nat i = Some bi /\ c !! Z.to_nat i = Some ci /\
                    a !! Z.to_nat i = Some (mul_add bi scalar_s ci).
Proof.
  intros HN Hit Ha Hb Hc. unfold stream_triad.
  destruct (fill_random_Done a0 N 1) as (a1 & -> & Ha1); [lia|].
  cbn [mbind outcome_bind].
  destruct (fill_random_Done b0 N 2) as (b & -> & Hb1); [lia|].
  cbn [mbind outcome_bind].
  destruct (fill_random_Done c0 N 3) as (c & -> & Hc1); [lia|].
  cbn [mbind outcome_bind].
  destruct (for_range_inv
    (fun it x => Z.of_nat (length x) = N /\
       (1 <= it -> forall i, 0 <= i < N ->
          exists bi ci, b !! Z.to_nat i = Some bi /\ c !! Z.to_nat i = Some ci /\
                        x !! Z.to_nat i = Some (mul_add bi scalar_s ci)))
    (fun (it : Z) a =>
       for_range 0 N (fun i a =>
         bi ← load b i;
         ci ← load c i;
         store a i (mul_add bi scalar_s ci)) a)
    0 iters a1) as (a & -> & Hlen & Hval); [lia|split; [lia|lia]| |].
  - intros it x Hi [Hlen _].
    destruct (triad_sweep x b c N) as (x' & -> & Hlen' & Hval'); [lia..|].
    eexists; split; [done|]. by split.
  - cbn [mbind outcome_bind]. exists a, b, c. repeat split; try done.
    by apply Hval.
Qed.

End StreamFacts.

Lemma stream_triad_exact_witness :
  exists a b c,
    Lib.stream_triad true (replicate 1024 F32.zero) (replicate 1024 F32.zero)
      (replicate 1024 F32.zero) 1024 1 = Done (a, b, c) /\
    Lib.fill_random (replicate 1024 F32.zero) 1024 2 = Done b /\
    Lib.fill_random (replicate 1024 F32.zero) 1024 3 = Done c /\
    forall i, 0 <= i < 1024 ->
      exists bi ci, b !! Z.to_nat i = Some bi /\ c !! Z.to_nat i = Some ci /\
                    a !! Z.to_nat i
                    = Some (mul_add spec_float F32.add F32.mul F32.fma true
                              bi Lib.scalar_s ci).
Proof.
  apply (stream_triad_exact F32.add F32.mul F32.fma true MT.seed Lib.uniform_real Lib.scalar_s
           (replicate 1024 F32.zero) (replicate 1024 F32.zero)
           (replicate 1024 F32.zero) 1024 1);
    [lia | lia | reflexivity | reflexivity | reflexivity].
Defined.

(** ** Sorting *)

Ltac solve_elem := rewrite ?elem_of_cons in *; intuition (subst; auto).

Lemma insert_sorted_perm {T} (lt : T -> T -> bool) (x : T) (l : list T) :
  Lib.insert_sorted lt x l ≡ₚ x :: l.
Proof.
  induction l as [|y l IH]; simpl; [done|].
  destruct (lt y x); [|done]. rewrite IH. apply Permutation_swap.
Qed.

Lemma lib_sort_perm {T} (lt : T -> T -> bool) (l : list T) :
  Lib.std_sort T lt l ≡ₚ l.
Proof.
  induction l as [|x l IH]; simpl; [done|].
  by rewrite insert_sorted_perm, IH.
Qed.

Lemma insert_sorted_sorted {T} (lt : T -> T -> bool) (x : T) (l : list T) :
  strict_weak_on lt (x :: l) ->
  StronglySorted (fun a b => lt b a = false) l ->
  StronglySorted (fun a b => lt b a = false) (Lib.insert_sorted lt x l).
Proof.
  intros (Hirr & Htr & Hneg). induction l as [|y l IH]; intros Hs; simpl.
  - repeat constructor.
  - apply StronglySorted_cons in Hs as [Hy Hs].
    destruct (lt y x) eqn:Hyx.
    + apply StronglySorted_cons. split.
      * rewrite insert_sorted_perm. constructor; [|done].
        destruct (lt x y) eqn:Hxy; [|done].
        rewrite <- (Hirr y); [|solve_elem].
        symmetry. apply (Htr y x y); solve_elem.
      * apply IH; [| | |done].
        -- intros z Hz. apply Hirr. solve_elem.
        -- intros a b c Ha Hb Hc. apply Htr; solve_elem.
        -- intros a b c Ha Hb Hc. apply Hneg; solve_elem.
    + apply StronglySorted_cons. split.
      * constructor; [done|].
        rewrite Forall_forall in Hy |- *. intros z Hz.
        apply (Hneg z y x); [solve_elem..| |done]. by apply Hy.
      * apply StronglySorted_cons. by split.
Qed.

Lemma lib_sort_contract : sort_contract Lib.std_sort.
Proof.
  intros T lt l Hsw. split; [apply lib_sort_perm|].
  induction l as [|x l IH]; simpl; [constructor|].
  apply insert_sorted_sorted.
  - destruct Hsw as (Hirr & Htr & Hneg).
    assert (forall z, z ∈ x :: Lib.std_sort T lt l -> z ∈ x :: l) as Hin.
    { intros z. by rewrite (lib_sort_perm lt l). }
    split; [|split].
    + intros z Hz. apply Hirr. auto.
    + intros a b c Ha Hb Hc. apply Htr; auto.
    + intros a b c Ha Hb Hc. apply Hneg; auto.
  - apply IH. destruct Hsw as (Hirr & Htr & Hneg).
    split; [|split].
    + intros z Hz. apply Hirr. solve_elem.
    + intros a b c Ha Hb Hc. apply Htr; solve_elem.
    + intros a b c Ha Hb Hc. apply Hneg; solve_elem.
Qed.

(** A comparison through an integer key is a strict weak ordering. *)
Lemma strict_weak_on_key {T} (lt : T -> T -> bool) (key : T -> Z) (l : list T) :
  (forall x y, lt x y = bool_decide (key x < key y)) ->
  strict_weak_on lt l.
Proof.
  intros Hlt. split; [|split].
  - intros x _. rewrite Hlt. apply bool_decide_eq_false_2. lia.
  - intros x y z _ _ _. rewrite !Hlt, !bool_decide_eq_true. lia.
  - intros x y z _ _ _. rewrite !Hlt, !bool_decide_eq_false. lia.
Qed.

(** ** The order of [double] *)

Lemma SFltb_key (x y : spec_float) :
  not_nan x -> not_nan y ->
  SFltb x y = true <-> key_lt (order_key x) (order_key y).
Proof.
  intros Hx Hy. unfold key_lt, SFltb, SFcompare.
  destruct x as [sx|sx| |sx mx ex]; [| |done|];
    (destruct y as [sy|sy| |sy my ey]; [| |done|]);
    try (destruct sx); try (destruct sy); cbn [order_key fst snd];
    try (split; [discriminate|lia]);
    try (split; [lia|done]); try (split; [done|lia]).
  all: change (Pos.compare_cont Eq mx my) with (Pos.compare mx my).
  all: destruct (Z.compare_spec ex ey);
    [destruct (Pos.compare_spec mx my)|..]; cbn [CompOpp].
  all: try (split; [discriminate|lia]);
    try (split; [lia|done]); try (split; [done|lia]).
Qed.

Lemma F64_ltb_strict_weak (l : list spec_float) :
  Forall not_nan l -> strict_weak_on F64.ltb l.
Proof.
  intros Hl. rewrite Forall_forall in Hl.
  assert (forall x y, x ∈ l -> y ∈ l ->
            F64.ltb x y = false <-> ~ key_lt (order_key x) (order_key y)) as Hf.
  { intros x y Hx Hy. rewrite <- (SFltb_key x y) by auto.
    unfold F64.ltb. destruct (SFltb x y); split; intros H; done. }
  split; [|split].
  - intros x Hx. apply Hf; [done|done|]. unfold key_lt. lia.
  - intros x y z Hx Hy Hz. unfold F64.ltb.
    rewrite !SFltb_key by auto. unfold key_lt. lia.
  - intros x y z Hx Hy Hz. rewrite !Hf by done. unfold key_lt. lia.
Qed.

(** ** Ranks and percentiles *)

Lemma rank_exact_4096 : forallb rank_exact (seqZ 1 4096) = true.
Proof. vm_compute. reflexivity. Qed.

Lemma rank_exact_small (size : Z) :
  1 <= size <= 4096 -> rank_exact size = true.
Proof.
  intros Hs. pose proof rank_exact_4096 as H.
  rewrite forallb_forall in H. apply H.
  apply list_elem_of_In, elem_of_seqZ. lia.
Qed.

Section StatsFacts.

Context (std_sort : forall T : Type, (T -> T -> bool) -> list T -> list T).
Context (cast_ub : spec_float -> Z).

Lemma pick_rank (v : list spec_float) (q : Z) :
  q ∈ [50; 95; 99] ->
  1 <= Z.of_nat (length v) <= 4096 ->
  exists p, pick cast_ub v (F64.ratio q 100) = Done p /\
            spec_percentile_us v q = Some p.
Proof.
  intros Hq Hsize. pose proof (rank_exact_small _ Hsize) as Hr.
  unfold rank_exact in Hr. rewrite forallb_forall in Hr.
  specialize (Hr q). rewrite <- list_elem_of_In in Hr.
  pose proof (Hr Hq) as Hi. apply bool_decide_eq_true in Hi. clear Hr.
  set (size := Z.of_nat (length v)) in *.
  assert (0 <= q <= 100) as Hq100.
  { rewrite !elem_of_cons in Hq. rewrite elem_of_nil in Hq. lia. }
  assert (0 <= q * (size - 1) / 100 <= size - 1) as Hrange.
  { split; [apply Z.div_pos; nia|].
    apply Z.div_le_upper_bound; nia. }
  unfold pick, spec_percentile_us, to_size_t. fold size. cbv zeta.
  rewrite Hi. rewrite bool_decide_eq_true_2 by lia.
  destruct (load_Done v (q * (size - 1) / 100)) as (a & -> & ->); [lia|].
  cbn [mbind outcome_bind].
  destruct (load_Done v (Z.min (q * (size - 1) / 100 + 1) (size - 1)))
    as (b & -> & ->); [lia|].
  cbn [mbind outcome_bind]. eauto.
Qed.

Lemma sorted_rank_below (v : list spec_float) (i : nat) (s x : spec_float) :
  strict_weak_on F64.ltb v ->
  StronglySorted (fun a b => F64.ltb b a = false) v ->
  v !! i = Some s -> x ∈ take (S i) v -> F64.ltb s x = false.
Proof.
  intros (Hirr & _ & _) Hs Hi Hx.
  rewrite (take_S_r _ _ _ Hi) in Hx. apply elem_of_app in Hx as [Hx|Hx].
  - rewrite <- (take_drop i v) in Hs.
    eapply (StronglySorted_app_1_elem_of _ _ _ x s) in Hs; [done|done|].
    erewrite drop_S by done. left.
  - apply list_elem_of_singleton in Hx as ->. apply Hirr.
    by eapply list_elem_of_lookup_2.
Qed.

Lemma sorted_rank_above (v : list spec_float) (i : nat) (s x : spec_float) :
  strict_weak_on F64.ltb v ->
  StronglySorted (fun a b => F64.ltb b a = false) v ->
  v !! i = Some s -> x ∈ drop i v -> F64.ltb x s = false.
Proof.
  intros (Hirr & _ & _) Hs Hi Hx.
  erewrite drop_S in Hx by done. apply elem_of_cons in Hx as [->|Hx].
  - apply Hirr. by eapply list_elem_of_lookup_2.
  - rewrite <- (take_drop (S i) v) in Hs.
    eapply (StronglySorted_app_1_elem_of _ _ _ s x) in Hs; [done| |done].
    rewrite (take_S_r _ _ _ Hi). apply elem_of_app. right. left.
Qed.

Lemma filter_all_length {T} (P : T -> Prop) `{forall x, Decision (P x)}
    (l : list T) :
  (forall x, x ∈ l -> P x) -> length (filter P l) = length l.
Proof.
  induction l as [|x l IH]; intros Hl; [done|].
  rewrite filter_cons_True by (apply Hl; left). cbn. f_equal.
  apply IH. intros y Hy. apply Hl. by right.
Qed.

(** C10.  On an empty sample list [percentile_us] sets the three outputs
    to [0.0] and returns. *)
Theorem percentile_us_empty :
  percentile_us std_sort cast_ub [] = Done (F64.zero, F64.zero, F64.zero).
Proof. reflexivity. Qed.

(** C8 (amended).  For a non-empty population of at most 4096 samples, none
    of them a NaN: the "seconds" of the summary is the sample at position
    [N / 2] of the sorted samples (at least [N / 2 + 1] samples are not
    above it and at least [N - N / 2] are not below it), which is the
    median when [N] is odd; and p50, p95, p99 are the values interpolated
    linearly at the fractional ranks [q * (N - 1)] of the sorted samples,
    in microseconds. *)
Theorem summary_ranks (samples : list spec_float) :
  sort_contract std_sort ->
  samples <> [] ->
  Forall not_nan samples ->
  (length samples <= 4096)%nat ->
  let v := std_sort spec_float F64.ltb samples in
  let N := length samples in
  exists seconds p50 p95 p99,
    median_seconds std_sort samples = Done seconds /\
    v !! (N / 2)%nat = Some seconds /\
    (N / 2 + 1 <= length (filter (fun x => F64.ltb seconds x = false) samples))%nat /\
    (N - N / 2 <= length (filter (fun x => F64.ltb x seconds = false) samples))%nat /\
    (Nat.odd N = true -> spec_median v = Some seconds) /\
    percentile_us std_sort cast_ub samples = Done (p50, p95, p99) /\
    spec_percentile_us v 50 = Some p50 /\
    spec_percentile_us v 95 = Some p95 /\
    spec_percentile_us v 99 = Some p99.
Proof.
  intros Hsort Hne Hnan Hsize v N.
  assert (strict_weak_on F64.ltb samples) as Hsw by by apply F64_ltb_strict_weak.
  destruct (Hsort _ F64.ltb samples Hsw) as [Hperm Hsorted]. fold v in Hperm, Hsorted.
  assert (length v = N) as Hlen by by rewrite Hperm.
  assert (0 < N)%nat as HN by (destruct samples; [done|cbn; lia]).
  assert (strict_weak_on F64.ltb v) as Hswv.
  { apply F64_ltb_strict_weak. by rewrite Hperm. }
  assert (N / 2 < N)%nat as Hhalf by (apply Nat.div_lt; lia).
  destruct (lookup_lt_is_Some_2 v (N / 2)%nat) as [seconds Hsec]; [lia|].
  destruct (pick_rank v 50) as (p50 & Hp50 & Hs50);
    [repeat constructor|lia|].
  destruct (pick_rank v 95) as (p95 & Hp95 & Hs95);
    [repeat constructor|lia|].
  destruct (pick_rank v 99) as (p99 & Hp99 & Hs99);
    [repeat constructor|lia|].
  exists seconds, p50, p95, p99.
  split; [|split; [exact Hsec|split; [|split; [|split; [|split; [|split;
    [exact Hs50|split; [exact Hs95|exact Hs99]]]]]]]].
  - unfold median_seconds. fold v. cbv zeta. rewrite Hlen.
    rewrite Z.quot_div_nonneg by lia.
    change 2 with (Z.of_nat 2). rewrite <- Nat2Z.inj_div.
    unfold load. rewrite bool_decide_eq_false_2 by lia.
    by rewrite Nat2Z.id, Hsec.
  - rewrite <- Hperm. rewrite <- (take_drop (S (N / 2)) v) at 1.
    rewrite filter_app, length_app.
    rewrite filter_all_length.
    + rewrite length_take. lia.
    + intros x Hx. by eapply sorted_rank_below.
  - rewrite <- Hperm. rewrite <- (take_drop (N / 2) v) at 1.
    rewrite filter_app, length_app.
    rewrite (filter_all_length _ (drop _ _)).
    + rewrite length_drop. lia.
    + intros x Hx. by eapply sorted_rank_above.
  - intros Hodd. unfold spec_median. by rewrite Hlen, Hodd.
  - unfold percentile_us. destruct samples as [|x0 samples']; [by destruct Hne|].
    fold v. cbv zeta. rewrite Hp50. cbn [mbind outcome_bind].
    rewrite Hp95. cbn [mbind outcome_bind].
    rewrite Hp99. done.
Qed.

End StatsFacts.

Lemma samples15_not_nan : Forall not_nan Ex.samples15.
Proof. repeat constructor; discriminate. Qed.

Lemma summary_ranks_witness :
  let v := Lib.std_sort spec_float F64.ltb Ex.samples15 in
  let N := length Ex.samples15 in
  exists seconds p50 p95 p99,
    median_seconds Lib.std_sort Ex.samples15 = Done seconds /\
    v !! (N / 2)%nat = Some seconds /\
    (N / 2 + 1
     <= length (filter (fun x => F64.ltb seconds x = false) Ex.samples15))%nat /\
    (N - N / 2
     <= length (filter (fun x => F64.ltb x seconds = false) Ex.samples15))%nat /\
    (Nat.odd N = true -> spec_median v = Some seconds) /\
    percentile_us Lib.std_sort Lib.cast_ub Ex.samples15 = Done (p50, p95, p99) /\
    spec_percentile_us v 50 = Some p50 /\
    spec_percentile_us v 95 = Some p95 /\
    spec_percentile_us v 99 = Some p99.
Proof.
  apply (summary_ranks Lib.std_sort Lib.cast_ub Ex.samples15);
    [exact lib_sort_contract | discriminate | exact samples15_not_nan | cbn; lia].
Defined.

(** Fifteen samples 1 .. 15: the summary reports 8 seconds, and a p50 of
    8 seconds in microseconds. *)
Example summary_of_15 :
  median_seconds Lib.std_sort Ex.samples15 = Done (F64.of_Z 8) /\
  exists p95 p99,
    percentile_us Lib.std_sort Lib.cast_ub Ex.samples15
    = Done (F64.of_Z 8000000, p95, p99).
Proof. split; [|eexists _, _]; vm_compute; reflexivity. Qed.

(** C8 as stated fails on an even number of samples: of the twenty
    samples 1 .. 20 the summary reports 11 as "seconds", their median is
    10.5, and the p50 of the same summary is 10.5 seconds. *)
Lemma seconds_not_median_of_20 :
  median_seconds Lib.std_sort Ex.samples20 = Done (F64.of_Z 11) /\
  spec_median (Lib.std_sort spec_float F64.ltb Ex.samples20)
    = Some (F64.ratio 21 2) /\
  SFeqb (F64.of_Z 11) (F64.ratio 21 2) = false /\
  F64.of_Z 11 <> F64.ratio 21 2 /\
  exists p95 p99,
    percentile_us Lib.std_sort Lib.cast_ub Ex.samples20
    = Done (F64.of_Z 10500000, p95, p99).
Proof.
  split; [vm_compute; reflexivity|].
  split; [vm_compute; reflexivity|].
  split; [vm_compute; reflexivity|].
  split; [vm_compute; discriminate|].
  eexists _, _. vm_compute. reflexivity.
Qed.

(** ** The vectorised GEMM kernel returns *)

Section GemmAvx2Facts.

Context {F : Type} (fadd fmul : F -> F -> F) (ffma : F -> F -> F -> F)
        (contract : bool).

Local Abbreviation mul_add := (mul_add F fadd fmul ffma contract).

Variables (A B : list F) (m k n : Z).
Hypothesis Hm : 0 <= m.
Hypothesis Hk : 0 <= k.
Hypothesis Hn : 0 <= n.
Hypothesis HA : Z.of_nat (length A) = m * k.
Hypothesis HB : Z.of_nat (length B) = k * n.

Lemma gemm_avx2_columns (a : F) i t jj j_end (C : list F) :
  0 <= i < m -> 0 <= t < k -> 0 <= jj <= j_end -> j_end <= n ->
  Z.of_nat (length C) = m * n ->
  exists C',
    (C ← for_step jj (jj + Z.quot (j_end - jj) 8 * 8) 8 (fun j C =>
           bv ← loadu_ps F B (t * n + jj + (j - jj));
           cv ← loadu_ps F C (i * n + jj + (j - jj));
           storeu_ps F C (i * n + jj + (j - jj))
             (fmadd_ps F ffma (set1_ps F a) bv cv)) C;
     for_range (jj + Z.quot (j_end - jj) 8 * 8) j_end (fun j C =>
       a' ← load A (i * k + t);
       bj ← load B (t * n + j);
       cj ← load C (i * n + j);
       store C (i * n + j) (mul_add cj a' bj)) C) = Done C'
    /\ Z.of_nat (length C') = m * n.
Proof.
  intros Hi Ht Hjj Hje HC.
  rewrite Z.quot_div_nonneg by lia.
  pose proof (Z.mul_div_le (j_end - jj) 8 ltac:(lia)) as Hq.
  pose proof (Z.div_pos (j_end - jj) 8 ltac:(lia) ltac:(lia)) as Hq0.
  set (q := (j_end - jj) / 8) in *.
  destruct (for_step_inv
    (fun j Cx => (exists r, j = jj + 8 * r) /\ Z.of_nat (length Cx) = m * n)
    (fun j C =>
       bv ← loadu_ps F B (t * n + jj + (j - jj));
       cv ← loadu_ps F C (i * n + jj + (j - jj));
       storeu_ps F C (i * n + jj + (j - jj)) (fmadd_ps F ffma (set1_ps F a) bv cv))
    jj (jj + q * 8) 8 C) as (j' & C1 & -> & [_ HC1] & _); [lia| | |].
  { split; [exists 0; lia|done]. }
  { intros j Cx Hj [[r ->] Hlen].
    replace (t * n + jj + (jj + 8 * r - jj)) with (t * n + (jj + 8 * r)) by lia.
    replace (i * n + jj + (jj + 8 * r - jj)) with (i * n + (jj + 8 * r)) by lia.
    destruct (loadu_ps_Done B (t * n + (jj + 8 * r))) as (bv & -> & Hbv); [nia|nia|].
    cbn [mbind outcome_bind].
    destruct (loadu_ps_Done Cx (i * n + (jj + 8 * r))) as (cv & -> & Hcv); [nia|nia|].
    cbn [mbind outcome_bind].
    destruct (storeu_ps_frame n i (jj + 8 * r) Cx
                (fmadd_ps F ffma (set1_ps F a) bv cv))
      as (C' & -> & [Hlen' _]); [lia|lia|lia|nia| |].
    { rewrite fmadd_ps_length, Hbv, Hcv. unfold set1_ps.
      by rewrite length_replicate. }
    eexists; split; [done|]. split; [exists (r + 1); lia|lia]. }
  cbn [mbind outcome_bind].
  apply for_range_preserves; [done|].
  intros j Cx Hj Hlen.
  destruct (load_Done A (i * k + t)) as (a' & -> & _); [nia|].
  cbn [mbind outcome_bind].
  destruct (load_Done B (t * n + j)) as (bj & -> & _); [nia|].
  cbn [mbind outcome_bind].
  destruct (load_Done Cx (i * n + j)) as (cj & -> & _); [nia|].
  cbn [mbind outcome_bind].
  rewrite store_Done by nia. eexists; split; [done|].
  by rewrite length_insert.
Qed.

Lemma gemm_tiled_avx2_Done (C : list F) (tileM tileK tileN : Z) :
  0 < tileM -> 0 < tileK -> 0 < tileN ->
  Z.of_nat (length C) = m * n ->
  exists C',
    gemm_tiled_avx2 F fadd fmul ffma contract A B C m k n tileM tileK tileN = Done C'
    /\ Z.of_nat (length C') = m * n.
Proof.
  intros HtM HtK HtN HC. unfold gemm_tiled_avx2. cbv zeta.
  apply for_step_preserves; [done|done|]. intros ii C1 Hii HC1.
  apply for_step_preserves; [done|done|]. intros kk C2 Hkk HC2.
  apply for_step_preserves; [done|done|]. intros jj C3 Hjj HC3.
  apply for_range_preserves; [done|]. intros i C4 Hi HC4.
  apply for_range_preserves; [done|]. intros t C5 Ht HC5.
  destruct (load_Done A (i * k + t)) as (a & Ha & _); [nia|].
  rewrite (bind_of_Done _ a _ Ha).
  apply gemm_avx2_columns; lia.
Qed.

End GemmAvx2Facts.

(** ** The trial loops *)

Section BenchFacts.

Context {F : Type} (fzero : F) (fadd fmul : F -> F -> F)
        (ffma : F -> F -> F -> F) (contract : bool).
Context (have_avx2 : bool) (now_seconds : nat -> spec_float).

Local Abbreviation gemm_trials :=
  (gemm_trials F fzero fadd fmul ffma contract have_avx2 now_seconds).
Local Abbreviation spmm_trials :=
  (spmm_trials F fzero fadd fmul ffma contract have_avx2 now_seconds).

Local Abbreviation timed_rounds := (timed_rounds F now_seconds).

Lemma timed_rounds_next L ticks0 (st : trial_state F) (C : list F) (r : Z) :
  0 <= r ->
  timed_rounds L ticks0 (Z.to_nat r) st ->
  Z.of_nat (length C) = L ->
  timed_rounds L ticks0 (Z.to_nat (r + 1))
    (mkTrial F C (S (S (ticks F st))) (S (kernel_calls F st))
       (call_times F st ++
          [F64.sub (now_seconds (S (ticks F st))) (now_seconds (ticks F st))])).
Proof.
  intros Hr (Hout & Hcalls & Hticks & Hlen & Htimes) HC.
  unfold timed_rounds in *. cbn.
  rewrite Z2Nat.inj_add by lia. change (Z.to_nat 1) with 1%nat.
  split; [done|]. split; [lia|]. split; [lia|].
  split; [rewrite length_app; cbn; lia|].
  intros r' Hr'. destruct (decide (r' = Z.to_nat r)) as [->|Hne].
  - rewrite lookup_app_r by lia. rewrite Hlen, Nat.sub_diag. cbn.
    rewrite Hticks. do 3 f_equal; lia.
  - rewrite lookup_app_l by lia. apply Htimes. lia.
Qed.

Lemma timed_rounds_start L ticks0 (C : list F) :
  Z.of_nat (length C) = L ->
  timed_rounds L ticks0 (Z.to_nat 0) (mkTrial F C ticks0 0 []).
Proof.
  intros HC. unfold timed_rounds. cbn.
  repeat split; [done|lia|]. intros r' Hr'. lia.
Qed.

(** C4 (amended).  On inputs of matching sizes, whatever the variant, the
    trial loop of the "gemm" branch returns after 15 invocations of the
    kernel and the one of the "spmm_csr" branch after 20; every invocation
    stands between two readings of the clock, and the difference of the
    two readings is the sample recorded for it.  There is one sample per
    invocation: no invocation is left out of the statistics. *)
Theorem trials_all_timed (A B C : list F) (m k n tileM tileK tileN : Z)
    (M : CSR F) (MB MC : list F) (sn jblock : Z) (layoutB : LayoutB)
    (variant : string) (ticks0 : nat) :
  0 <= m -> 0 <= k -> 0 <= n ->
  0 < tileM -> 0 < tileK -> 0 < tileN ->
  Z.of_nat (length A) = m * k ->
  Z.of_nat (length B) = k * n ->
  Z.of_nat (length C) = m * n ->
  1 <= sn -> 1 <= jblock ->
  csr_wf F M ->
  Z.of_nat (length MB) = csr_k F M * sn ->
  Z.of_nat (length MC) = csr_m F M * sn ->
  (exists st,
     gemm_trials A B C m k n tileM tileK tileN variant ticks0 = Done st /\
     timed_rounds (m * n) ticks0 15 st) /\
  (exists st,
     spmm_trials M MB MC sn jblock layoutB variant ticks0 = Done st /\
     timed_rounds (csr_m F M * sn) ticks0 20 st).
Proof.
  intros Hm Hk Hn HtM HtK HtN HA HB HC Hsn Hjb Hwf HMB HMC. split.
  - unfold gemm_trials. cbv zeta.
    apply (for_range_inv
      (fun r st => timed_rounds (m * n) ticks0 (Z.to_nat r) st)); [lia| |].
    { by apply timed_rounds_start. }
    intros r st Hr Hst. pose proof Hst as (Hout & _).
    rewrite (zero_fill_all fzero (out F st) (m * n)) by done.
    cbn [mbind outcome_bind].
    assert (Z.of_nat (length (replicate (Z.to_nat (m * n)) fzero)) = m * n)
      as HZ by (rewrite length_replicate; nia).
    destruct (have_avx2 && String.eqb variant "simd").
    + destruct (gemm_tiled_avx2_Done fadd fmul ffma contract A B m k n Hm Hk Hn HA HB
                  (replicate (Z.to_nat (m * n)) fzero) tileM tileK tileN)
        as (C' & -> & HC'); [done..|].
      cbn [mbind outcome_bind]. eexists; split; [done|].
      by apply timed_rounds_next; [lia|done|].
    + destruct (gemm_tiled_scalar_accumulates fzero fadd fmul ffma contract A B m k n
                  Hm Hk Hn HA HB tileM tileK tileN HtM HtK HtN
                  (replicate (Z.to_nat (m * n)) fzero) HZ)
        as (C' & -> & [HC' _]).
      cbn [mbind outcome_bind]. eexists; split; [done|].
      apply timed_rounds_next; [lia|done|lia].
  - unfold spmm_trials. cbv zeta.
    apply (for_range_inv
      (fun r st => timed_rounds (csr_m F M * sn) ticks0 (Z.to_nat r) st));
      [lia| |].
    { by apply timed_rounds_start. }
    intros r st Hr Hst. pose proof Hst as (Hout & _).
    destruct (have_avx2 && String.eqb variant "simd").
    + destruct (spmm_csr_avx2_Done fzero fadd fmul ffma contract M MB (out F st)
                  sn jblock layoutB) as (C' & -> & HC' & _); [done..|].
      cbn [mbind outcome_bind]. eexists; split; [done|].
      by apply timed_rounds_next; [lia|done|].
    + destruct (spmm_csr_scalar_Done fzero fadd fmul ffma contract M MB (out F st)
                  sn jblock layoutB) as (C' & -> & HC' & _); [done..|].
      cbn [mbind outcome_bind]. eexists; split; [done|].
      by apply timed_rounds_next; [lia|done|].
Qed.

End BenchFacts.

Lemma trials_all_timed_witness :
  (exists st,
     gemm_trials spec_float F32.zero F32.add F32.mul F32.fma true true Ex.clock
       Ex.eye2 Ex.b5678 Ex.out2 2 2 2 64 64 128 "simd" 0 = Done st /\
     timed_rounds spec_float Ex.clock (2 * 2) 0 15 st) /\
  (exists st,
     spmm_trials spec_float F32.zero F32.add F32.mul F32.fma true true Ex.clock
       Ex.sparse2 Ex.dense2 Ex.out2 2 1 RowMajor "simd" 0 = Done st /\
     timed_rounds spec_float Ex.clock (csr_m spec_float Ex.sparse2 * 2) 0 20 st).
Proof.
  apply (trials_all_timed F32.zero F32.add F32.mul F32.fma true true Ex.clock
           Ex.eye2 Ex.b5678 Ex.out2 2 2 2 64 64 128
           Ex.sparse2 Ex.dense2 Ex.out2 2 1 RowMajor "simd" 0%nat);
    [lia | lia | lia | lia | lia | lia | reflexivity | reflexivity | reflexivity
    | lia | lia | exact sparse2_wf | reflexivity | reflexivity].
Defined.

(** C4 as stated fails: the loops have no warm-up.  On a 2 x 2 product the
    "gemm" loop invokes the kernel 15 times, not 16, and the "spmm_csr"
    loop 20 times, not 21; each loop records as many samples as it makes
    invocations, the first invocation included. *)
Lemma trials_have_no_warm_up :
  (exists st,
     gemm_trials spec_float F32.zero F32.add F32.mul F32.fma true false Ex.clock
       Ex.eye2 Ex.b5678 Ex.out2 2 2 2 64 64 128 "scalar" 0 = Done st /\
     kernel_calls spec_float st = 15%nat /\
     kernel_calls spec_float st <> (15 + 1)%nat /\
     length (call_times spec_float st) = kernel_calls spec_float st /\
     call_times spec_float st !! 0%nat
       = Some (F64.sub (Ex.clock 1) (Ex.clock 0))) /\
  (exists st,
     spmm_trials spec_float F32.zero F32.add F32.mul F32.fma true false Ex.clock
       Ex.sparse2 Ex.dense2 Ex.out2 2 1 RowMajor "scalar" 0 = Done st /\
     kernel_calls spec_float st = 20%nat /\
     kernel_calls spec_float st <> (20 + 1)%nat /\
     length (call_times spec_float st) = kernel_calls spec_float st /\
     call_times spec_float st !! 0%nat
       = Some (F64.sub (Ex.clock 1) (Ex.clock 0))).
Proof.
  split; eexists; (split; [vm_compute; reflexivity|]); cbn;
    repeat split; try reflexivity; lia.
Qed.

(** ** The CSR builder *)

(** *** Offsets into the concatenated rows *)

Lemma offset_S (cols : list (list Z)) (i : nat) (rc : list Z) :
  cols !! i = Some rc ->
  offset cols (S i) = offset cols i + Z.of_nat (length rc).
Proof.
  intros Hi. unfold offset. rewrite (take_S_r _ _ _ Hi), concat_app, length_app.
  cbn. rewrite app_nil_r. lia.
Qed.

Lemma offset_le (cols : list (list Z)) (i j : nat) :
  (i <= j)%nat -> offset cols i <= offset cols j.
Proof.
  intros Hij. unfold offset.
  replace j with (i + (j - i))%nat by lia.
  rewrite <- take_take_drop, concat_app, length_app. lia.
Qed.

Lemma offset_all (cols : list (list Z)) (i : nat) :
  (length cols <= i)%nat -> offset cols i = Z.of_nat (length (concat cols)).
Proof. intros Hi. unfold offset. by rewrite take_ge. Qed.

Lemma concat_row (cols : list (list Z)) (i : nat) (rc : list Z) :
  cols !! i = Some rc ->
  take (length rc) (drop (Z.to_nat (offset cols i)) (concat cols)) = rc.
Proof.
  intros Hi. unfold offset. rewrite Nat2Z.id.
  rewrite <- (take_drop i cols) at 2. rewrite concat_app, drop_app_length.
  rewrite (drop_S _ _ _ Hi). cbn. apply take_app_length.
Qed.

(** *** [std::unique] on a sorted vector *)

Lemma unique_elem (l : list Z) (x : Z) : x ∈ unique l -> x ∈ l.
Proof.
  induction l as [|a l IH]; [done|]. cbn [unique].
  destruct l as [|b l]; [done|].
  case_bool_decide as Hab.
  - intros Hx. right. by apply IH.
  - intros [->|Hx]%elem_of_cons; [left|right; by apply IH].
Qed.

Lemma unique_not_nil (l : list Z) : l <> [] -> unique l <> [].
Proof.
  induction l as [|a l IH]; [done|]. intros _. cbn [unique].
  destruct l as [|b l]; [done|].
  case_bool_decide; [by apply IH|done].
Qed.

Lemma unique_length (l : list Z) : (length (unique l) <= length l)%nat.
Proof.
  induction l as [|a l IH]; [done|]. cbn [unique].
  destruct l as [|b l]; [done|].
  case_bool_decide; cbn [length] in *; lia.
Qed.

Lemma unique_sorted (l : list Z) :
  StronglySorted Z.le l -> StronglySorted Z.lt (unique l).
Proof.
  induction l as [|a l IH]; [constructor|].
  intros [Ha Hl]%StronglySorted_cons. cbn [unique].
  destruct l as [|b l]; [repeat constructor|].
  case_bool_decide as Hab; [by apply IH|].
  apply StronglySorted_cons. split; [|by apply IH].
  apply Forall_forall. intros x Hx%unique_elem.
  apply StronglySorted_cons in Hl as [Hb _].
  apply Forall_cons in Ha as [Hab' _].
  apply elem_of_cons in Hx as [->|Hx]; [lia|].
  rewrite Forall_forall in Hb. specialize (Hb x Hx). lia.
Qed.

Lemma strongly_sorted_lookup {T} (R : T -> T -> Prop) (l : list T)
    (i j : nat) (x y : T) :
  StronglySorted R l -> (i < j)%nat ->
  l !! i = Some x -> l !! j = Some y -> R x y.
Proof.
  intros Hs Hij Hi Hj. rewrite <- (take_drop j l) in Hs.
  eapply StronglySorted_app_1_elem_of; [done| |].
  - apply list_elem_of_lookup. exists i. by rewrite lookup_take_lt.
  - apply list_elem_of_lookup. exists 0%nat. rewrite lookup_drop.
    by rewrite Nat.add_0_r.
Qed.

(** *** The prefix sums and the copy of the rows *)

Section AssembleFacts.

Context {F : Type} (fzero : F).

Variables (m k : Z) (cols : list (list Z)) (vals : list (list F)).
Hypothesis Hm : 0 <= m.
Hypothesis Hcols : Z.of_nat (length cols) = m.
Hypothesis Hrows : Forall2 (good_row k) cols vals.

Lemma assemble_rowptr :
  exists rp,
    for_range 0 m (fun i '(rp, total) =>
      rp ← store rp i total;
      ci ← load cols i;
      Done (rp, total + Z.of_nat (length ci)))
      (replicate (Z.to_nat (m + 1)) 0, 0)
    = Done (rp, Z.of_nat (length (concat cols))) /\
    Z.of_nat (length rp) = m + 1 /\
    forall i : nat, (Z.of_nat i < m) -> rp !! i = Some (offset cols i).
Proof.
  destruct (for_range_inv
    (fun i (st : list Z * Z) =>
       Z.of_nat (length st.1) = m + 1 /\
       st.2 = offset cols (Z.to_nat i) /\
       forall i' : nat, Z.of_nat i' < i -> st.1 !! i' = Some (offset cols i'))
    (fun i '(rp, total) =>
       rp ← store rp i total;
       ci ← load cols i;
       Done (rp, total + Z.of_nat (length ci)))
    0 m (replicate (Z.to_nat (m + 1)) 0, 0))
    as ([rp total] & Hrun & Hlen & Htot & Hrp); [lia| | |].
  - cbn. rewrite length_replicate. repeat split; [lia|lia].
  - intros i [rp total] Hi (Hlen & Htot & Hrp). cbn in Hlen, Htot, Hrp.
    rewrite store_Done by lia. cbn [mbind outcome_bind].
    destruct (load_Done cols i) as (ci & -> & Hci); [lia|].
    cbn [mbind outcome_bind]. eexists; split; [done|]. cbn.
    split; [by rewrite length_insert|]. split.
    + rewrite Z2Nat.inj_add by lia. change (Z.to_nat 1) with 1%nat.
      rewrite Nat.add_1_r, (offset_S _ _ _ Hci). lia.
    + intros i' Hi'. destruct (decide (i' = Z.to_nat i)) as [->|Hne].
      * rewrite list_lookup_insert_eq by lia. by rewrite Htot.
      * rewrite list_lookup_insert_ne by lia. apply Hrp. lia.
  - cbn in Hlen, Htot, Hrp. subst total.
    rewrite offset_all in Hrun by lia. eauto.
Qed.

Lemma assemble_rows (total : Z) :
  total = Z.of_nat (length (concat cols)) ->
  exists vs,
    for_range 0 m (fun i st =>
      rc ← load cols i;
      rv ← load vals i;
      for_range 0 (Z.of_nat (length rc)) (fun t '(ci, vs, p) =>
        c ← load rc t;
        v ← load rv t;
        ci ← store ci p c;
        vs ← store vs p v;
        Done (ci, vs, p + 1)) st)
      (replicate (Z.to_nat total) 0, replicate (Z.to_nat total) fzero, 0)
    = Done (concat cols, vs, total) /\
    length vs = length (concat cols).
Proof.
  intros Htotal.
  pose proof (Forall2_length _ _ _ Hrows) as Hvals.
  destruct (for_range_inv
    (fun i (st : list Z * list F * Z) =>
       Z.of_nat (length st.1.1) = total /\
       Z.of_nat (length st.1.2) = total /\
       st.2 = offset cols (Z.to_nat i) /\
       take (Z.to_nat st.2) st.1.1 = concat (take (Z.to_nat i) cols))
    (fun i st =>
       rc ← load cols i;
       rv ← load vals i;
       for_range 0 (Z.of_nat (length rc)) (fun t '(ci, vs, p) =>
         c ← load rc t;
         v ← load rv t;
         ci ← store ci p c;
         vs ← store vs p v;
         Done (ci, vs, p + 1)) st)
    0 m (replicate (Z.to_nat total) 0, replicate (Z.to_nat total) fzero, 0))
    as ([[ci vs] p] & Hrun & Hlc & Hlv & Hp & Htake); [lia| | |].
  - cbn. rewrite !length_replicate. repeat split; lia.
  - intros i [[ci vs] p] Hi (Hlc & Hlv & Hp & Htake). cbn in Hlc, Hlv, Hp, Htake.
    destruct (load_Done cols i) as (rc & -> & Hrc); [lia|].
    cbn [mbind outcome_bind].
    destruct (load_Done vals i) as (rv & -> & Hrv); [lia|].
    cbn [mbind outcome_bind].
    pose proof (Forall2_lookup_lr _ _ _ _ _ _ Hrows Hrc Hrv) as (_ & _ & _ & Hlrv).
    pose proof (offset_S _ _ _ Hrc) as HoS.
    pose proof (offset_le cols (S (Z.to_nat i)) (length cols) ltac:(lia)) as Hole.
    rewrite (offset_all cols (length cols)) in Hole by lia.
    destruct (for_range_inv
      (fun t (st : list Z * list F * Z) =>
         Z.of_nat (length st.1.1) = total /\
         Z.of_nat (length st.1.2) = total /\
         st.2 = offset cols (Z.to_nat i) + t /\
         take (Z.to_nat st.2) st.1.1
         = concat (take (Z.to_nat i) cols) ++ take (Z.to_nat t) rc)
      (fun t '(ci, vs, p) =>
         c ← load rc t;
         v ← load rv t;
         ci ← store ci p c;
         vs ← store vs p v;
         Done (ci, vs, p + 1))
      0 (Z.of_nat (length rc)) (ci, vs, p))
      as ([[ci' vs'] p'] & -> & Hlc' & Hlv' & Hp' & Htake'); [lia| | |].
    + cbn. rewrite app_nil_r. repeat split; [done|done|lia|done].
    + intros t [[ci1 vs1] p1] Ht (Hlc1 & Hlv1 & Hp1 & Htake1).
      cbn in Hlc1, Hlv1, Hp1, Htake1.
      destruct (load_Done rc t) as (c & -> & Hc); [lia|].
      cbn [mbind outcome_bind].
      destruct (load_Done rv t) as (v & -> & _); [lia|].
      cbn [mbind outcome_bind].
      assert (0 <= offset cols (Z.to_nat i)) as Ho0 by (unfold offset; lia).
      rewrite store_Done by lia. cbn [mbind outcome_bind].
      rewrite store_Done by lia. cbn [mbind outcome_bind].
      eexists; split; [done|]. cbn.
      rewrite !length_insert. repeat split; [done|done|lia|].
      rewrite !Z2Nat.inj_add by lia. change (Z.to_nat 1) with 1%nat.
      rewrite !Nat.add_1_r.
      rewrite (take_S_r _ _ c) by (apply list_lookup_insert_eq; lia).
      rewrite take_insert_ge by lia.
      rewrite (take_S_r rc _ c) by done.
      rewrite Htake1. by rewrite <- app_assoc.
    + eexists; split; [done|]. cbn in *.
      repeat split; [done|done| |].
      * rewrite Z2Nat.inj_add by lia. change (Z.to_nat 1) with 1%nat.
        rewrite Nat.add_1_r. lia.
      * rewrite Htake'. rewrite Nat2Z.id, (take_ge rc) by lia.
        rewrite Z2Nat.inj_add by lia. change (Z.to_nat 1) with 1%nat.
        rewrite Nat.add_1_r, (take_S_r _ _ _ Hrc), concat_app. cbn.
        by rewrite app_nil_r.
  - cbn in Hlc, Hlv, Hp, Htake.
    rewrite offset_all in Hp by lia.
    rewrite take_ge in Htake by lia.
    rewrite (take_ge cols) in Htake by lia.
    subst ci p. rewrite <- Htotal in Hrun. exists vs. split; [done|]. lia.
Qed.

Lemma assemble_invariant :
  exists A, assemble F fzero m k cols vals = Done A /\
            csr_invariant m k A /\ colidx F A = concat cols.
Proof.
  unfold assemble.
  destruct assemble_rowptr as (rp & -> & Hlrp & Hrp).
  cbn [mbind outcome_bind].
  rewrite store_Done by lia. cbn [mbind outcome_bind].
  destruct (assemble_rows _ eq_refl) as (vs & -> & Hlvs).
  cbn [mbind outcome_bind]. eexists; split; [done|]. split; [|done].
  set (total := Z.of_nat (length (concat cols))).
  assert (forall i : nat, Z.of_nat i <= m ->
            <[Z.to_nat m := total]> rp !! i = Some (offset cols i)) as Hrp'.
  { intros i Hi. destruct (decide (i = Z.to_nat m)) as [->|Hne].
    - rewrite list_lookup_insert_eq by lia. unfold total.
      by rewrite offset_all by lia.
    - rewrite list_lookup_insert_ne by lia. apply Hrp. lia. }
  unfold csr_invariant. cbn.
  split; [done|]. split; [done|].
  split; [by rewrite length_insert|].
  split; [by rewrite Hrp' by lia|].
  split; [rewrite Hrp' by lia; by rewrite offset_all by lia|].
  split; [done|].
  intros i Hi.
  destruct (lookup_lt_is_Some_2 cols (Z.to_nat i)) as [rc Hrc]; [lia|].
  destruct (lookup_lt_is_Some_2 vals (Z.to_nat i)) as [rv Hrv].
  { rewrite <- (Forall2_length _ _ _ Hrows). lia. }
  pose proof (Forall2_lookup_lr _ _ _ _ _ _ Hrows Hrc Hrv)
    as (Hne & Hsorted & Hrange & _).
  pose proof (offset_S _ _ _ Hrc) as HoS.
  pose proof (offset_le cols (S (Z.to_nat i)) (length cols) ltac:(lia)) as Hole.
  rewrite (offset_all cols (length cols)) in Hole by lia.
  assert (0 <= offset cols (Z.to_nat i)) as Ho0 by (unfold offset; lia).
  assert (0 < Z.of_nat (length rc)) as Hpos by (destruct rc; [done|cbn; lia]).
  exists (offset cols (Z.to_nat i)), (offset cols (S (Z.to_nat i))), rc.
  split; [apply Hrp'; lia|].
  split.
  { replace (Z.to_nat (i + 1)) with (S (Z.to_nat i)) by lia. apply Hrp'. lia. }
  split; [lia|]. split; [lia|].
  split.
  { rewrite HoS.
    replace (offset cols (Z.to_nat i) + Z.of_nat (length rc)
             - offset cols (Z.to_nat i)) with (Z.of_nat (length rc)) by lia.
    rewrite Nat2Z.id. symmetry. by apply concat_row. }
  split; [lia|]. by split.
Qed.

End AssembleFacts.

(** *** The rows of the three patterns *)

Lemma Z_ltb_bool_decide (x y : Z) : (x <? y) = bool_decide (x < y).
Proof.
  destruct (Z.ltb_spec x y); symmetry;
    [apply bool_decide_eq_true_2|apply bool_decide_eq_false_2]; lia.
Qed.

Lemma strongly_sorted_impl {T} (R R' : T -> T -> Prop) (l : list T) :
  (forall x y, R x y -> R' x y) -> StronglySorted R l -> StronglySorted R' l.
Proof.
  intros HR. induction 1 as [|x l Hl IH Hx]; constructor; [done|].
  eapply Forall_impl; [done|]. auto.
Qed.

Lemma push_back_Done {T} (rows : list (list T)) (i : Z) (x : T) (r : list T) :
  0 <= i -> rows !! Z.to_nat i = Some r ->
  push_back rows i x = Done (<[Z.to_nat i := r ++ [x]]> rows).
Proof.
  intros Hi Hr. unfold push_back.
  pose proof (lookup_lt_Some _ _ _ Hr) as Hlt.
  destruct (load_Done rows i) as (r' & -> & Hr'); [lia|].
  cbn [mbind outcome_bind]. rewrite store_Done by lia. congruence.
Qed.

Section GenFacts.

Context {F : Type} {rng : Type}.
Context (uniform_real : rng -> F * rng).
Context (uniform_int : Z -> Z -> rng -> Z * rng).
Context (std_sort : forall T : Type, (T -> T -> bool) -> list T -> list T).
Context (cast_ub : spec_float -> Z).

(** The contracts of the library: a draw of
    [uniform_int_distribution<int>(a, b)] with [a <= b] lies in [[a, b]],
    and [std::sort] sorts. *)
Hypothesis uniform_int_range : forall a b g,
  - 2 ^ 31 <= a -> a <= b -> b < 2 ^ 31 ->
  a <= (uniform_int a b g).1 <= b.
Hypothesis std_sort_sorts : sort_contract std_sort.

Local Abbreviation gen_state := (gen_state F rng).
Local Abbreviation draw_row := (draw_row F rng uniform_real uniform_int std_sort).

Variable k : Z.
Hypothesis Hk : 1 <= k < 2 ^ 31.

Lemma sorted_unique_row (rc : list Z) :
  rc <> [] -> Forall (fun c => 0 <= c < k) rc ->
  let rc' := unique (std_sort Z Z.ltb rc) in
  rc' <> [] /\ StronglySorted Z.lt rc' /\ Forall (fun c => 0 <= c < k) rc' /\
  (length rc' <= length rc)%nat.
Proof.
  intros Hne Hrange rc'.
  destruct (std_sort_sorts Z Z.ltb rc) as [Hperm Hsorted].
  { apply (strict_weak_on_key _ id). intros. apply Z_ltb_bool_decide. }
  split; [|split; [|split]].
  - apply unique_not_nil. intros Hnil. rewrite Hnil in Hperm.
    by apply Permutation_nil_l in Hperm.
  - apply unique_sorted. eapply strongly_sorted_impl; [|done].
    intros x y Hxy. cbn in Hxy. apply Z.ltb_ge in Hxy. lia.
  - apply Forall_forall. intros c Hc%unique_elem.
    rewrite Hperm in Hc. rewrite Forall_forall in Hrange. auto.
  - unfold rc'. etrans; [apply unique_length|]. by rewrite Hperm.
Qed.

Lemma draw_row_good (i lo hi target : Z) (cols : list (list Z))
    (vals : list (list F)) (g : rng) :
  0 <= i ->
  cols !! Z.to_nat i = Some [] -> vals !! Z.to_nat i = Some [] ->
  0 <= lo <= hi -> hi < k -> 1 <= target ->
  exists rc rv g',
    draw_row i lo hi target (cols, vals, g)
    = Done (<[Z.to_nat i := rc]> cols, <[Z.to_nat i := rv]> vals, g') /\
    good_row k rc rv.
Proof.
  intros Hi Hci Hvi Hlo Hhi Htarget. unfold draw_row.
  pose proof (lookup_lt_Some _ _ _ Hci) as Hilt.
  pose proof (lookup_lt_Some _ _ _ Hvi) as Hilt'.
  match goal with |- context [for_range 0 target ?body ?st0] =>
    destruct (for_range_inv
      (fun t (st : list (list Z) * list (list F) * rng) =>
         exists rc rv,
           st.1.1 = <[Z.to_nat i := rc]> cols /\
           st.1.2 = <[Z.to_nat i := rv]> vals /\
           length rc = Z.to_nat t /\ length rv = Z.to_nat t /\
           Forall (fun c => 0 <= c < k) rc)
      body 0 target st0)
      as ([[cols' vals'] g'] & -> & rc & rv & Hc' & Hv' & Hlrc & Hlrv & Hrange);
      [lia| | |]
  end.
  - exists [], []. cbn. by rewrite !list_insert_id.
  - intros t [[cols1 vals1] g1] Ht (rc & rv & Hc1 & Hv1 & Hlrc & Hlrv & Hrange).
    cbn in Hc1, Hv1. subst cols1 vals1.
    pose proof (uniform_int_range lo hi g1 ltac:(lia) ltac:(lia) ltac:(lia)) as Hc.
    destruct (uniform_int lo hi g1) as [c g2]. cbn in Hc.
    rewrite (push_back_Done _ i c rc) by (by rewrite ?list_lookup_insert_eq).
    cbn [mbind outcome_bind].
    destruct (uniform_real g2) as [v g3].
    rewrite (push_back_Done _ i v rv) by (by rewrite ?list_lookup_insert_eq).
    cbn [mbind outcome_bind]. eexists; split; [done|].
    exists (rc ++ [c]), (rv ++ [v]). cbn.
    rewrite !list_insert_insert_eq, !length_app. cbn.
    repeat split; [lia|lia|].
    apply Forall_app. split; [done|]. repeat constructor; lia.
  - cbn in Hc', Hv'. subst cols' vals'. cbn [mbind outcome_bind].
    destruct (load_Done (<[Z.to_nat i := rc]> cols) i) as (rc1 & -> & Hrc1);
      [rewrite length_insert; lia|].
    rewrite list_lookup_insert_eq in Hrc1 by done. injection Hrc1 as <-.
    cbn [mbind outcome_bind].
    rewrite store_Done by (rewrite length_insert; lia).
    cbn [mbind outcome_bind]. rewrite list_insert_insert_eq.
    eexists _, rv, g'. split; [done|].
    destruct (sorted_unique_row rc) as (? & ? & ? & ?); [|done|].
    { destruct rc; [cbn in Hlrc; lia|done]. }
    repeat split; [done|done|done|lia].
Qed.

(** Rows drawn one after the other by [draw_row], as the "band" and the
    "blockdiag" pattern do. *)
Lemma draw_rows_good (m : Z) (lo hi target : Z -> Z) (g : rng) :
  0 <= m ->
  (forall i, 0 <= i < m -> 0 <= lo i <= hi i /\ hi i < k /\ 1 <= target i) ->
  exists cols vals g',
    for_range 0 m (fun i st => draw_row i (lo i) (hi i) (target i) st)
      (replicate (Z.to_nat m) [], replicate (Z.to_nat m) [], g)
    = Done (cols, vals, g') /\
    Z.of_nat (length cols) = m /\ Forall2 (good_row k) cols vals.
Proof.
  intros Hm Hbounds.
  destruct (for_range_inv
    (fun i (st : gen_state) =>
       length st.1.1 = Z.to_nat m /\ length st.1.2 = Z.to_nat m /\
       forall (i' : nat) rc rv,
         st.1.1 !! i' = Some rc -> st.1.2 !! i' = Some rv ->
         (Z.of_nat i' < i -> good_row k rc rv) /\
         (i <= Z.of_nat i' -> rc = [] /\ rv = []))
    (fun i st => draw_row i (lo i) (hi i) (target i) st)
    0 m (replicate (Z.to_nat m) [], replicate (Z.to_nat m) [], g))
    as ([[cols vals] g'] & -> & Hlc & Hlv & Hrows); [lia| | |].
  - cbn. rewrite !length_replicate. split; [done|]. split; [done|].
    intros i' rc rv Hrc Hrv. split; [lia|]. intros _.
    apply lookup_replicate in Hrc as [-> _].
    by apply lookup_replicate in Hrv as [-> _].
  - intros i [[cols vals] g1] Hi (Hlc & Hlv & Hrows). cbn in Hlc, Hlv, Hrows.
    destruct (lookup_lt_is_Some_2 cols (Z.to_nat i)) as [rc0 Hrc0]; [lia|].
    destruct (lookup_lt_is_Some_2 vals (Z.to_nat i)) as [rv0 Hrv0]; [lia|].
    destruct (Hrows _ _ _ Hrc0 Hrv0) as [_ Hnil].
    destruct Hnil as [-> ->]; [lia|].
    destruct (Hbounds i Hi) as (Hlo & Hhi & Htarget).
    destruct (draw_row_good i (lo i) (hi i) (target i) cols vals g1)
      as (rc & rv & g2 & -> & Hgood); [lia|done..|].
    eexists; split; [done|]. cbn. rewrite !length_insert.
    split; [done|]. split; [done|].
    intros i' rc' rv' Hrc' Hrv'.
    destruct (decide (i' = Z.to_nat i)) as [->|Hne].
    + rewrite list_lookup_insert_eq in Hrc' by lia.
      rewrite list_lookup_insert_eq in Hrv' by lia.
      injection Hrc' as <-. injection Hrv' as <-. split; [done|lia].
    + rewrite list_lookup_insert_ne in Hrc' by done.
      rewrite list_lookup_insert_ne in Hrv' by done.
      destruct (Hrows _ _ _ Hrc' Hrv') as [Hg Hn]. split; intros ?.
      * apply Hg. lia.
      * apply Hn. lia.
  - cbn in Hlc, Hlv, Hrows. exists cols, vals, g'. split; [done|].
    split; [lia|]. apply Forall2_same_length_lookup_2; [lia|].
    intros i' rc rv Hrc Hrv. apply (Hrows _ _ _ Hrc Hrv).
    apply lookup_lt_Some in Hrc. lia.
Qed.

(** The loop of the uniform pattern that keeps the first entry of every
    run of equal columns. *)
Lemma dedup_good (rc : list Z) (rv : list F) :
  raw_row k rc rv -> rc <> [] ->
  let idx := std_sort Z (fun a b => col_at rc a <? col_at rc b)
               (seqZ 0 (Z.of_nat (length rc))) in
  exists last rc2 rv2,
    for_range 0 (Z.of_nat (length idx))
      (fun t2 '(last, rc2, rv2) =>
         it ← load idx t2;
         c ← load rc it;
         if bool_decide (c = last) then Done (last, rc2, rv2)
         else v ← load rv it; Done (c, rc2 ++ [c], rv2 ++ [v]))
      (-1, [], [])
    = Done (last, rc2, rv2) /\
    good_row k rc2 rv2.
Proof.
  intros [Hlen Hrange] Hne idx.
  destruct (std_sort_sorts Z (fun a b => col_at rc a <? col_at rc b)
              (seqZ 0 (Z.of_nat (length rc)))) as [Hperm Hsorted].
  { apply (strict_weak_on_key _ (col_at rc)). intros. apply Z_ltb_bool_decide. }
  fold idx in Hperm, Hsorted.
  assert (length idx = length rc) as Hlidx.
  { rewrite Hperm, length_seqZ. lia. }
  assert (0 < length rc)%nat as Hpos by (destruct rc; [done|cbn; lia]).
  assert (forall (t : nat) it, idx !! t = Some it ->
            exists c, 0 <= it < Z.of_nat (length rc) /\
                      rc !! Z.to_nat it = Some c /\ col_at rc it = c /\
                      0 <= c < k) as Hidx.
  { intros t it Hit.
    assert (it ∈ seqZ 0 (Z.of_nat (length rc))) as Hin.
    { rewrite <- Hperm. by eapply list_elem_of_lookup_2. }
    apply elem_of_seqZ in Hin.
    destruct (lookup_lt_is_Some_2 rc (Z.to_nat it)) as [c Hc]; [lia|].
    exists c. split; [lia|]. split; [done|]. split.
    - unfold col_at. by rewrite Hc.
    - rewrite Forall_forall in Hrange. apply Hrange.
      by eapply list_elem_of_lookup_2. }
  destruct (for_range_inv
    (fun t2 (st : Z * list Z * list F) =>
       length st.1.2 = length st.2 /\
       StronglySorted Z.lt st.1.2 /\
       Forall (fun c => 0 <= c < k /\ c <= st.1.1) st.1.2 /\
       (t2 = 0 -> st.1.1 = -1 /\ st.1.2 = []) /\
       (0 < t2 -> st.1.2 <> [] /\
                  exists it, idx !! Z.to_nat (t2 - 1) = Some it /\
                             col_at rc it = st.1.1))
    (fun t2 '(last, rc2, rv2) =>
       it ← load idx t2;
       c ← load rc it;
       if bool_decide (c = last) then Done (last, rc2, rv2)
       else v ← load rv it; Done (c, rc2 ++ [c], rv2 ++ [v]))
    0 (Z.of_nat (length idx)) (-1, [], []))
    as ([[last rc2] rv2] & -> & Hl2 & Hs2 & Hr2 & _ & Hlast); [lia| | |].
  - cbn [fst snd]. split; [reflexivity|]. split; [constructor|].
    split; [constructor|]. split; [by intros _|]. intros H0. lia.
  - intros t2 [[last rc2] rv2] Ht2 (Hl2 & Hs2 & Hr2 & Hzero & Hlast).
    cbn in Hl2, Hs2, Hr2, Hzero, Hlast.
    destruct (load_Done idx t2) as (it & -> & Hit); [lia|].
    cbn [mbind outcome_bind].
    destruct (Hidx _ _ Hit) as (c & Hitr & Hc & Hcol & Hck).
    destruct (load_Done rc it) as (c' & -> & Hc'); [lia|].
    assert (c' = c) as -> by congruence.
    cbn [mbind outcome_bind].
    assert (Z.to_nat (t2 + 1 - 1) = Z.to_nat t2) as Ht21 by (f_equal; lia).
    case_bool_decide as Hcl.
    + eexists; split; [done|]. cbn. subst last.
      repeat split; try done; try lia.
      * destruct (decide (t2 = 0)) as [->|Hnz].
        -- destruct Hzero as [Hm1 _]; [done|]. lia.
        -- apply Hlast. lia.
      * exists it. by rewrite Ht21.
    + destruct (load_Done rv it) as (v & -> & _); [lia|].
      cbn [mbind outcome_bind]. eexists; split; [done|]. cbn.
      assert (Forall (fun x => x < c) rc2) as Hlt.
      { destruct (decide (t2 = 0)) as [->|Hnz].
        - destruct Hzero as [_ ->]; [done|]. constructor.
        - destruct Hlast as [_ (it' & Hit' & Hcol')]; [lia|].
          pose proof (strongly_sorted_lookup _ idx (Z.to_nat (t2 - 1))
                        (Z.to_nat t2) it' it Hsorted ltac:(lia) Hit' Hit) as Hle.
          cbn in Hle. apply Z.ltb_ge in Hle.
          eapply Forall_impl; [exact Hr2|]. cbn. intros x [_ Hx]. lia. }
      rewrite !length_app. cbn. repeat split; try lia.
      * apply StronglySorted_app. repeat split; [|done|repeat constructor].
        intros x1 x2 Hx1 Hx2. apply list_elem_of_singleton in Hx2 as ->.
        rewrite Forall_forall in Hlt. auto.
      * apply Forall_app. split; [|repeat constructor; lia].
        apply Forall_forall. intros x Hx.
        rewrite Forall_forall in Hr2, Hlt.
        specialize (Hr2 x Hx). specialize (Hlt x Hx). cbn in Hr2. lia.
      * by destruct rc2.
      * exists it. by rewrite Ht21.
  - cbn in Hl2, Hs2, Hr2, Hlast. exists last, rc2, rv2. split; [done|].
    destruct Hlast as [Hne2 _]; [lia|].
    repeat split; [done|done| |lia].
    eapply Forall_impl; [exact Hr2|]. cbn. intros x [? _]. done.
Qed.

Lemma finish_row_good (r : Z) (cols : list (list Z)) (vals : list (list F))
    (g : rng) (rc0 : list Z) (rv0 : list F) :
  0 <= r ->
  cols !! Z.to_nat r = Some rc0 -> vals !! Z.to_nat r = Some rv0 ->
  raw_row k rc0 rv0 ->
  exists rc rv g',
    finish_row F rng uniform_real uniform_int std_sort k r (cols, vals, g)
    = Done (<[Z.to_nat r := rc]> cols, <[Z.to_nat r := rv]> vals, g') /\
    good_row k rc rv.
Proof.
  intros Hr Hrc0 Hrv0 Hraw. unfold finish_row.
  pose proof (lookup_lt_Some _ _ _ Hrc0) as Hlt.
  pose proof (lookup_lt_Some _ _ _ Hrv0) as Hlt'.
  destruct (load_Done cols r) as (rc1 & -> & Hrc1); [lia|].
  assert (rc1 = rc0) as -> by congruence. cbn [mbind outcome_bind].
  destruct (load_Done vals r) as (rv1 & -> & Hrv1); [lia|].
  assert (rv1 = rv0) as -> by congruence. cbn [mbind outcome_bind].
  assert (exists rc rv g1,
            match rc0 with
            | [] => let '(c, g0) := uniform_int 0 (k - 1) g in
                    let '(v, g1) := uniform_real g0 in
                    (rc0 ++ [c], rv0 ++ [v], g1)
            | _ :: _ => (rc0, rv0, g)
            end = (rc, rv, g1) /\ raw_row k rc rv /\ rc <> [])
    as (rc & rv & g1 & -> & Hraw1 & Hne).
  { destruct rc0 as [|c0 rc0].
    - pose proof (uniform_int_range 0 (k - 1) g ltac:(lia) ltac:(lia) ltac:(lia))
        as Hc.
      destruct (uniform_int 0 (k - 1) g) as [c g0]. cbn in Hc.
      destruct (uniform_real g0) as [v g1].
      eexists _, _, _. split; [done|]. destruct Hraw as [Hl _].
      split; [|done]. split; [rewrite !length_app; cbn in *; lia|].
      repeat constructor; lia.
    - eexists _, _, _. by split. }
  destruct (dedup_good rc rv Hraw1 Hne) as (last & rc2 & rv2 & -> & Hgood).
  cbn [mbind outcome_bind].
  rewrite store_Done by lia. cbn [mbind outcome_bind].
  rewrite store_Done by lia. cbn [mbind outcome_bind].
  by eexists _, _, _.
Qed.

Lemma uniform_rows_good (m nnz : Z) (g : rng) :
  1 <= m < 2 ^ 31 -> 0 <= nnz ->
  exists cols vals g',
    (st ← for_range 0 nnz (fun (t : Z) '(cols, vals, g) =>
        let '(r, g) := uniform_int 0 (m - 1) g in
        let '(c, g) := uniform_int 0 (k - 1) g in
        cols ← push_back cols r c;
        let '(v, g) := uniform_real g in
        vals ← push_back vals r v;
        Done (cols, vals, g))
        (replicate (Z.to_nat m) [], replicate (Z.to_nat m) [], g);
     for_range 0 m (fun r st =>
       finish_row F rng uniform_real uniform_int std_sort k r st) st)
    = Done (cols, vals, g') /\
    Z.of_nat (length cols) = m /\ Forall2 (good_row k) cols vals.
Proof.
  intros Hm Hnnz.
  match goal with |- context [for_range 0 nnz ?body ?st0] =>
    destruct (for_range_inv
      (fun (t : Z) (st : list (list Z) * list (list F) * rng) =>
         length st.1.1 = Z.to_nat m /\ Forall2 (raw_row k) st.1.1 st.1.2)
      body 0 nnz st0) as ([[cols1 vals1] g1] & -> & Hl1 & Hraw); [lia| | |]
  end.
  - cbn. rewrite length_replicate. split; [done|].
    apply Forall2_replicate. by split.
  - intros t [[cols vals] g0] Ht [Hlc Hraw]. cbn in Hlc, Hraw.
    pose proof (Forall2_length _ _ _ Hraw) as Hlv.
    pose proof (uniform_int_range 0 (m - 1) g0 ltac:(lia) ltac:(lia) ltac:(lia))
      as Hr.
    destruct (uniform_int 0 (m - 1) g0) as [r g2]. cbn in Hr.
    pose proof (uniform_int_range 0 (k - 1) g2 ltac:(lia) ltac:(lia) ltac:(lia))
      as Hc.
    destruct (uniform_int 0 (k - 1) g2) as [c g3]. cbn in Hc.
    destruct (lookup_lt_is_Some_2 cols (Z.to_nat r)) as [rc Hrc]; [lia|].
    destruct (lookup_lt_is_Some_2 vals (Z.to_nat r)) as [rv Hrv]; [lia|].
    rewrite (push_back_Done _ r c rc) by (done || lia).
    cbn [mbind outcome_bind].
    destruct (uniform_real g3) as [v g4].
    rewrite (push_back_Done _ r v rv) by (done || lia).
    cbn [mbind outcome_bind]. eexists; split; [done|]. cbn.
    rewrite length_insert. split; [done|].
    apply Forall2_insert; [done|].
    destruct (Forall2_lookup_lr _ _ _ _ _ _ Hraw Hrc Hrv) as [Hl Hrg].
    split; [rewrite !length_app; cbn; lia|].
    apply Forall_app. split; [done|]. repeat constructor; lia.
  - cbn in Hl1, Hraw. cbn [mbind outcome_bind].
    pose proof (Forall2_length _ _ _ Hraw) as Hlv1.
    destruct (for_range_inv
      (fun r (st : gen_state) =>
         length st.1.1 = Z.to_nat m /\ length st.1.2 = Z.to_nat m /\
         forall (i' : nat) rc rv,
           st.1.1 !! i' = Some rc -> st.1.2 !! i' = Some rv ->
           (Z.of_nat i' < r -> good_row k rc rv) /\
           (r <= Z.of_nat i' -> raw_row k rc rv))
      (fun r st => finish_row F rng uniform_real uniform_int std_sort k r st)
      0 m (cols1, vals1, g1))
      as ([[cols vals] g'] & -> & Hlc & Hlv & Hrows); [lia| | |].
    + cbn. split; [done|]. split; [lia|].
      intros i' rc rv Hrc Hrv. split; [lia|]. intros _.
      by eapply Forall2_lookup_lr.
    + intros r [[cols vals] g0] Hr (Hlc & Hlv & Hrows). cbn in Hlc, Hlv, Hrows.
      destruct (lookup_lt_is_Some_2 cols (Z.to_nat r)) as [rc0 Hrc0]; [lia|].
      destruct (lookup_lt_is_Some_2 vals (Z.to_nat r)) as [rv0 Hrv0]; [lia|].
      destruct (Hrows _ _ _ Hrc0 Hrv0) as [_ Hraw0].
      destruct (finish_row_good r cols vals g0 rc0 rv0)
        as (rc & rv & g2 & -> & Hgood); [lia|done|done|apply Hraw0; lia|].
      eexists; split; [done|]. cbn. rewrite !length_insert.
      split; [done|]. split; [done|].
      intros i' rc' rv' Hrc' Hrv'.
      destruct (decide (i' = Z.to_nat r)) as [->|Hne].
      * rewrite list_lookup_insert_eq in Hrc' by lia.
        rewrite list_lookup_insert_eq in Hrv' by lia.
        injection Hrc' as <-. injection Hrv' as <-. split; [done|lia].
      * rewrite list_lookup_insert_ne in Hrc' by done.
        rewrite list_lookup_insert_ne in Hrv' by done.
        destruct (Hrows _ _ _ Hrc' Hrv') as [Hg Hn]. split; intros ?.
        -- apply Hg. lia.
        -- apply Hn. lia.
    + cbn in Hlc, Hlv, Hrows. exists cols, vals, g'. split; [done|].
      split; [lia|]. apply Forall2_same_length_lookup_2; [lia|].
      intros i' rc rv Hrc Hrv. apply (Hrows _ _ _ Hrc Hrv).
      apply lookup_lt_Some in Hrc. lia.
Qed.

End GenFacts.

(** *** The three patterns and the whole builder *)

Section MakeFacts.

Context {F : Type} (fzero : F) {rng : Type}.
Context (mt19937_64 : Z -> rng) (uniform_real : rng -> F * rng).
Context (uniform_int : Z -> Z -> rng -> Z * rng).
Context (std_sort : forall T : Type, (T -> T -> bool) -> list T -> list T).
Context (cast_ub : spec_float -> Z).

Hypothesis uniform_int_range : forall a b g,
  - 2 ^ 31 <= a -> a <= b -> b < 2 ^ 31 ->
  a <= (uniform_int a b g).1 <= b.
Hypothesis std_sort_sorts : sort_contract std_sort.

Variables m k : Z.
Hypothesis Hm : 1 <= m < 2 ^ 31.
Hypothesis Hk : 1 <= k < 2 ^ 31.

(** The bounds of row [i] of the "band" pattern when [center + bw] stays
    inside [int], which [k + bw <= 2^31] ensures: no operation overflows. *)
Lemma band_window_Done (density : spec_float) (i : Z) :
  k + band_width cast_ub k density <= 2 ^ 31 ->
  0 <= i < m ->
  band_window cast_ub m k density i
  = Done (Z.max 0 (i * k / m - band_width cast_ub k density),
          Z.min (k - 1) (i * k / m + band_width cast_ub k density)).
Proof.
  intros Hbw Hi. unfold band_window. cbv zeta.
  assert (1 <= band_width cast_ub k density) as Hbw1
    by (unfold band_width; lia).
  generalize dependent (band_width cast_ub k density). intros bw Hbw Hbw1.
  rewrite Z.quot_div_nonneg by nia.
  replace (Z.max 1 m) with m by lia.
  assert (0 <= i * k / m) by (apply Z.div_pos; nia).
  assert (i * k / m < k) by (apply Z.div_lt_upper_bound; nia).
  unfold int_result.
  rewrite !bool_decide_eq_true_2 by lia. done.
Qed.

(** Without overflow the rows of the "band" pattern are drawn between
    [max(0, center - bw)] and [min(k - 1, center + bw)]. *)
Lemma band_rows_plain (density : spec_float) (st : gen_state F rng) :
  k + band_width cast_ub k density <= 2 ^ 31 ->
  band_rows F rng uniform_real uniform_int std_sort cast_ub m k density st
  = for_range 0 m (fun i st =>
      draw_row F rng uniform_real uniform_int std_sort i
        (Z.max 0 (i * k / m - band_width cast_ub k density))
        (Z.min (k - 1) (i * k / m + band_width cast_ub k density))
        (row_target cast_ub density k
           (Z.min (k - 1) (i * k / m + band_width cast_ub k density)
            - Z.max 0 (i * k / m - band_width cast_ub k density) + 1)) st) st.
Proof.
  intros Hbw. unfold band_rows. apply for_range_ext. intros i st' Hi.
  rewrite (band_window_Done density i Hbw Hi). cbn [mbind outcome_bind].
  assert (1 <= band_width cast_ub k density) as Hbw1
    by (unfold band_width; lia).
  generalize dependent (band_width cast_ub k density). intros bw Hbw Hbw1.
  assert (0 <= i * k / m) by (apply Z.div_pos; nia).
  assert (i * k / m < k) by (apply Z.div_lt_upper_bound; nia).
  unfold int_result.
  rewrite bool_decide_eq_true_2 by lia. cbn [mbind outcome_bind].
  rewrite bool_decide_eq_true_2 by lia. done.
Qed.

Lemma band_rows_good (density : spec_float) (g : rng) :
  k + band_width cast_ub k density <= 2 ^ 31 ->
  exists cols vals g',
    band_rows F rng uniform_real uniform_int std_sort cast_ub m k density
      (replicate (Z.to_nat m) [], replicate (Z.to_nat m) [], g)
    = Done (cols, vals, g') /\
    Z.of_nat (length cols) = m /\ Forall2 (good_row k) cols vals.
Proof.
  intros Hbw. rewrite (band_rows_plain density _ Hbw).
  assert (1 <= band_width cast_ub k density) as Hbw1
    by (unfold band_width; lia).
  generalize dependent (band_width cast_ub k density). intros bw Hbw Hbw1.
  apply (draw_rows_good uniform_real uniform_int std_sort
           uniform_int_range std_sort_sorts k Hk m
           (fun i => Z.max 0 (i * k / m - bw))
           (fun i => Z.min (k - 1) (i * k / m + bw))
           (fun i => row_target cast_ub density k
                       (Z.min (k - 1) (i * k / m + bw)
                        - Z.max 0 (i * k / m - bw) + 1)));
    [lia|].
  intros i Hi.
  assert (0 <= i * k / m) by (apply Z.div_pos; nia).
  assert (i * k / m < k) by (apply Z.div_lt_upper_bound; nia).
  unfold row_target. lia.
Qed.

Lemma blockdiag_rows_good (density : spec_float) (g : rng) :
  8 <= k \/ m <= k ->
  exists cols vals g',
    blockdiag_rows F rng uniform_real uniform_int std_sort cast_ub m k density
      (replicate (Z.to_nat m) [], replicate (Z.to_nat m) [], g)
    = Done (cols, vals, g') /\
    Z.of_nat (length cols) = m /\ Forall2 (good_row k) cols vals.
Proof.
  intros Hshape. unfold blockdiag_rows. cbv zeta.
  apply (draw_rows_good uniform_real uniform_int std_sort
           uniform_int_range std_sort_sorts k Hk m
           (fun i => Z.min (8 - 1) (Z.quot i (Z.max 1 (Z.quot m 8)))
                     * Z.max 1 (Z.quot k 8))
           (fun i => Z.min (k - 1)
                       (Z.min (8 - 1) (Z.quot i (Z.max 1 (Z.quot m 8)))
                        * Z.max 1 (Z.quot k 8) + Z.max 1 (Z.quot k 8) - 1))
           (fun i => row_target cast_ub density k
                       (Z.min (k - 1)
                          (Z.min (8 - 1) (Z.quot i (Z.max 1 (Z.quot m 8)))
                           * Z.max 1 (Z.quot k 8) + Z.max 1 (Z.quot k 8) - 1)
                        - Z.min (8 - 1) (Z.quot i (Z.max 1 (Z.quot m 8)))
                          * Z.max 1 (Z.quot k 8) + 1)));
    [lia|].
  intros i Hi. rewrite !Z.quot_div_nonneg by lia.
  pose proof (Z.div_pos m 8 ltac:(lia) ltac:(lia)) as Hm8.
  pose proof (Z.div_pos k 8 ltac:(lia) ltac:(lia)) as Hk8.
  pose proof (Z.mul_div_le k 8 ltac:(lia)) as Hk8'.
  set (bm := Z.max 1 (m / 8)). set (bk := Z.max 1 (k / 8)).
  assert (0 <= i / bm) as Hbi0 by (apply Z.div_pos; lia).
  set (bi := Z.min (8 - 1) (i / bm)).
  assert (0 <= bi <= 7) as Hbi by lia.
  assert (1 <= bk) as Hbk by lia.
  assert (bi * bk <= k - 1) as Hlo.
  { destruct Hshape as [Hk8ge|Hmk].
    - assert (1 <= k / 8) by (apply Z.div_le_lower_bound; lia).
      replace bk with (k / 8) by lia. nia.
    - destruct (Z.le_gt_cases 8 k) as [Hk8ge|Hk8lt].
      + assert (1 <= k / 8) by (apply Z.div_le_lower_bound; lia).
        replace bk with (k / 8) by lia. nia.
      + assert (k / 8 = 0) as Hk0 by (apply Z.div_small; lia).
        assert (m / 8 = 0) as Hm0 by (apply Z.div_small; lia).
        assert (bk = 1) as -> by lia. assert (bm = 1) as Hbm1 by lia.
        assert (i / bm = i) as Hib by (rewrite Hbm1; apply Z.div_1_r).
        lia. }
  unfold row_target. nia.
Qed.

(** The builder keeps the CSR invariant on every input of the uniform
    pattern, on the inputs of the band pattern whose bounds stay inside
    [int], and on the inputs of the block-diagonal pattern with at least 8
    columns or at least as many columns as rows. *)
Lemma make_random_csr_invariant (density : spec_float) (pattern : string)
    (seed : Z) :
  (pattern = "band"%string -> k + band_width cast_ub k density <= 2 ^ 31) ->
  (pattern = "blockdiag"%string -> 8 <= k \/ m <= k) ->
  exists A,
    make_random_csr F fzero rng mt19937_64 uniform_real uniform_int
      std_sort cast_ub m k density pattern seed = Done A /\
    csr_invariant m k A.
Proof.
  intros Hband Hshape. unfold make_random_csr. cbv zeta.
  match goal with |- context [mbind _ ?run] =>
    assert (exists cols vals g',
              run = Done (cols, vals, g') /\
              Z.of_nat (length cols) = m /\ Forall2 (good_row k) cols vals)
      as (cols & vals & g' & -> & Hlen & Hrows)
  end.
  { destruct (String.eqb_spec pattern "band") as [Hp|_];
      [by apply band_rows_good, Hband|].
    destruct (String.eqb_spec pattern "blockdiag") as [Hp|_];
      [by apply blockdiag_rows_good, Hshape|].
    unfold uniform_rows. cbv zeta.
    apply (uniform_rows_good uniform_real uniform_int std_sort
             uniform_int_range std_sort_sorts k Hk m); lia. }
  cbn [mbind outcome_bind].
  destruct (assemble_invariant fzero m k cols vals) as (A & -> & Hinv & _);
    [lia|done|done|].
  by exists A.
Qed.

End MakeFacts.

(** ** The library instance meets the contracts *)

Lemma mt_next_range (g : MT.state) : 0 <= (MT.next g).1 < 2 ^ 64.
Proof.
  unfold MT.next. cbn [fst]. unfold MT.wrap.
  rewrite Z.land_ones by (unfold MT.w; lia).
  apply Z.mod_pos_bound. unfold MT.w. lia.
Qed.

Lemma redraw_range (fuel : nat) (range threshold product : Z) (g : MT.state) :
  0 < range ->
  0 <= product < 2 ^ 64 * range ->
  0 <= (Lib.redraw fuel range threshold product g).1 < 2 ^ 64 * range.
Proof.
  intros Hrange. revert product g.
  induction fuel as [|fuel IH]; intros product g Hp; cbn [Lib.redraw]; [done|].
  case_bool_decide; [|done].
  pose proof (mt_next_range g) as Hx. destruct (MT.next g) as [x g1].
  cbn in Hx. apply IH. nia.
Qed.

Lemma to_int_small (x : Z) : - 2 ^ 31 <= x < 2 ^ 31 -> Lib.to_int x = x.
Proof. intros Hx. unfold Lib.to_int. rewrite Z.mod_small; lia. Qed.

Lemma lib_uniform_int_range (a b : Z) (g : MT.state) :
  - 2 ^ 31 <= a -> a <= b -> b < 2 ^ 31 ->
  a <= (Lib.uniform_int a b g).1 <= b.
Proof.
  intros Ha Hab Hb. unfold Lib.uniform_int. cbv zeta.
  rewrite (Z.mod_small (b - a)) by lia.
  pose proof (mt_next_range g) as Hx. destruct (MT.next g) as [x g1].
  cbn in Hx. rewrite bool_decide_eq_true_2 by lia.
  assert (0 <= x * (b - a + 1) < 2 ^ 64 * (b - a + 1)) as Hp by nia.
  assert (exists product g2,
            (if bool_decide (x * (b - a + 1) mod 2 ^ 64 < b - a + 1)
             then Lib.redraw 64 (b - a + 1)
                    ((2 ^ 64 - (b - a + 1)) mod (b - a + 1))
                    (x * (b - a + 1)) g1
             else (x * (b - a + 1), g1)) = (product, g2) /\
            0 <= product < 2 ^ 64 * (b - a + 1))
    as (product & g2 & -> & Hprod).
  { case_bool_decide.
    - pose proof (redraw_range 64 (b - a + 1)
                    ((2 ^ 64 - (b - a + 1)) mod (b - a + 1))
                    (x * (b - a + 1)) g1 ltac:(lia) Hp) as Hr.
      destruct (Lib.redraw _ _ _ _ _) as [product g2]. eauto.
    - eauto. }
  cbn [fst]. rewrite Z.shiftr_div_pow2 by lia.
  assert (0 <= product / 2 ^ 64 < b - a + 1) as Hq.
  { split; [apply Z.div_pos; lia|]. apply Z.div_lt_upper_bound; lia. }
  rewrite to_int_small by lia. lia.
Qed.

(** ** The number of entries of a matrix that keeps the invariant *)

Lemma sorted_range_length (l : list Z) (a k : Z) :
  a <= k ->
  StronglySorted Z.lt l -> Forall (fun c => a <= c < k) l ->
  Z.of_nat (length l) <= k - a.
Proof.
  revert a. induction l as [|x l IH]; intros a Hak Hs Hr; [cbn; lia|].
  apply StronglySorted_cons in Hs as [Hx Hs].
  apply Forall_cons in Hr as [Hxr Hr].
  assert (Z.of_nat (length l) <= k - (x + 1)); [|cbn [length]; lia].
  apply IH; [lia|done|].
  rewrite Forall_forall in Hx, Hr |- *. intros c Hc.
  specialize (Hx c Hc). specialize (Hr c Hc). lia.
Qed.

Lemma csr_invariant_nnz {F} (m k : Z) (A : CSR F) :
  0 <= m -> 1 <= k ->
  csr_invariant m k A ->
  m <= Z.of_nat (length (colidx F A)) <= m * k.
Proof.
  intros Hm Hk (_ & _ & Hlen & H0 & Hend & _ & Hrows).
  assert (forall i : nat, Z.of_nat i <= m ->
            exists p, rowptr F A !! i = Some p /\
                      Z.of_nat i <= p <= Z.of_nat i * k) as Hp.
  { induction i as [|i IH]; intros Hi.
    - exists 0. split; [done|lia].
    - destruct IH as (p & Hpi & Hpb); [lia|].
      destruct (Hrows (Z.of_nat i)) as (p0 & p1 & row & Hp0 & Hp1 & Hlt & _
                                        & _ & Hlrow & Hsorted & Hrange); [lia|].
      rewrite Nat2Z.id in Hp0.
      replace (Z.to_nat (Z.of_nat i + 1)) with (S i) in Hp1 by lia.
      assert (p0 = p) as -> by congruence.
      pose proof (sorted_range_length row 0 k ltac:(lia) Hsorted Hrange).
      exists p1. split; [done|]. nia. }
  destruct (Hp (Z.to_nat m)) as (p & Hpm & Hpb); [lia|].
  rewrite Hend in Hpm. injection Hpm as <-. rewrite Z2Nat.id in Hpb by lia. lia.
Qed.

(** ** The claims on the builder *)

Section BuilderClaims.

Context {F : Type} (fzero : F) {rng : Type}.
Context (mt19937_64 : Z -> rng) (uniform_real : rng -> F * rng).
Context (uniform_int : Z -> Z -> rng -> Z * rng).
Context (std_sort : forall T : Type, (T -> T -> bool) -> list T -> list T).
Context (cast_ub : spec_float -> Z).

Local Abbreviation make_random_csr :=
  (make_random_csr F fzero rng mt19937_64 uniform_real uniform_int
     std_sort cast_ub).

(** C1 (amended).  A pattern name other than "band" and "blockdiag" is
    taken for "uniform": the builder returns what it returns for "uniform",
    and has no other way to return. *)
Theorem unknown_pattern_is_uniform (m k : Z) (density : spec_float)
    (pattern : string) (seed : Z) :
  pattern <> "band"%string -> pattern <> "blockdiag"%string ->
  make_random_csr m k density pattern seed
  = make_random_csr m k density "uniform" seed.
Proof.
  intros Hband Hblock. unfold make_random_csr.
  apply String.eqb_neq in Hband, Hblock. by rewrite Hband, Hblock.
Qed.

(** C3 (amended).  With a library that keeps its contracts, whatever the
    seed, [make_random_csr(4, 4, 1.0, "uniform", seed)] returns a 4 x 4 CSR
    matrix that keeps the invariant (rowptr from 0 to the number of
    entries, every row with at least one and at most four strictly
    increasing columns among 0 .. 3) and holds between 4 and 16 entries. *)
Theorem uniform_4x4_shape (seed : Z) :
  (forall a b g, - 2 ^ 31 <= a -> a <= b -> b < 2 ^ 31 ->
     a <= (uniform_int a b g).1 <= b) ->
  sort_contract std_sort ->
  exists A,
    make_random_csr 4 4 (F64.of_Z 1) "uniform" seed = Done A /\
    csr_invariant 4 4 A /\
    4 <= csr_nnz F A <= 16.
Proof.
  intros Hint Hsort.
  destruct (make_random_csr_invariant fzero mt19937_64 uniform_real uniform_int
              std_sort cast_ub Hint Hsort 4 4 ltac:(lia) ltac:(lia)
              (F64.of_Z 1) "uniform" seed) as (A & HA & Hinv);
    [discriminate|discriminate|].
  exists A. split; [done|]. split; [done|].
  pose proof (csr_invariant_nnz 4 4 A ltac:(lia) ltac:(lia) Hinv) as Hnnz.
  destruct Hinv as (_ & _ & _ & _ & _ & Hcv & _).
  unfold csr_nnz. rewrite <- Hcv. lia.
Qed.

End BuilderClaims.

Lemma unknown_pattern_is_uniform_witness :
  Lib.make_random_csr 4 4 (F64.of_Z 1) "zipf" 42
  = Lib.make_random_csr 4 4 (F64.of_Z 1) "uniform" 42.
Proof.
  apply (unknown_pattern_is_uniform F32.zero MT.seed Lib.uniform_real
           Lib.uniform_int Lib.std_sort Lib.cast_ub 4 4 (F64.of_Z 1) "zipf" 42);
    discriminate.
Defined.

(** C1 as stated fails: the name "zipf" is none of the three patterns, and
    the builder returns a matrix for it, the one of the uniform pattern. *)
Lemma unknown_pattern_builds_a_matrix :
  exists A,
    Lib.make_random_csr 4 4 (F64.of_Z 1) "zipf" 42 = Done A /\
    Lib.make_random_csr 4 4 (F64.of_Z 1) "uniform" 42 = Done A /\
    rowptr spec_float A = [0; 4; 6; 8; 11].
Proof.
  eexists. split; [vm_compute; reflexivity|].
  split; [vm_compute; reflexivity|reflexivity].
Qed.

Lemma uniform_4x4_shape_witness :
  exists A,
    Lib.make_random_csr 4 4 (F64.of_Z 1) "uniform" 42 = Done A /\
    csr_invariant 4 4 A /\
    4 <= csr_nnz spec_float A <= 16.
Proof.
  apply (uniform_4x4_shape F32.zero MT.seed Lib.uniform_real Lib.uniform_int
           Lib.std_sort Lib.cast_ub 42);
    [exact lib_uniform_int_range | exact lib_sort_contract].
Defined.

(** C3 as stated fails.  With [std::mt19937_64] and the distributions of
    GNU libstdc++, seed 42 draws the cells (3,2) (0,3) (2,1) (1,0) (2,2)
    (3,3) (0,0) (0,1) (0,0) (1,3) (2,1) (3,0) (2,1) (0,2) (2,1) (2,1): eleven
    different cells, and [rowptr] is [0, 4, 6, 8, 11], not
    [0, 4, 8, 12, 16]. *)
Lemma uniform_4x4_seed_42_not_dense :
  exists A,
    Lib.make_random_csr 4 4 (F64.of_Z 1) "uniform" 42 = Done A /\
    rowptr spec_float A = [0; 4; 6; 8; 11] /\
    colidx spec_float A = [0; 1; 2; 3; 0; 3; 1; 2; 0; 2; 3] /\
    rowptr spec_float A <> [0; 4; 8; 12; 16].
Proof.
  eexists. split; [vm_compute; reflexivity|].
  split; [reflexivity|]. split; [reflexivity|discriminate].
Qed.

(** C2 fails on the block-diagonal pattern when the matrix has fewer than 8
    columns and more rows than columns.  With 2 rows and 1 column, row 1
    is given the block that starts at column 1: [lo = 1], [hi = 0], and the
    column is drawn from [uniform_int_distribution<int>(1, 0)], outside
    the contract of the distribution.  With GNU libstdc++ and seed 42 the
    column stored for row 1 is 241072907. *)
Theorem blockdiag_column_out_of_range :
  exists A,
    Lib.make_random_csr 2 1 (F64.of_Z 1) "blockdiag" 42 = Done A /\
    rowptr spec_float A = [0; 1; 2] /\
    colidx spec_float A = [0; 241072907] /\
    ~ csr_invariant 2 1 A.
Proof.
  eexists. split; [vm_compute; reflexivity|]. split; [done|]. split; [done|].
  intros (_ & _ & _ & _ & _ & _ & Hrows).
  destruct (Hrows 1) as (p0 & p1 & row & Hp0 & Hp1 & _ & _ & Hrow & _ & _ & Hrange);
    [lia|].
  cbn in Hp0, Hp1. injection Hp0 as <-. injection Hp1 as <-.
  cbn in Hrow. subst row. apply Forall_cons in Hrange as [Hc _]. lia.
Qed.
(** ** Element-wise results of the kernels *)

Section UpdatedFacts.

Context {F : Type} (fzero : F).

Local Abbreviation elt := (elt F fzero).
Local Abbreviation updated := (updated F fzero).

Variables (m n : Z).
Hypothesis Hm : 0 <= m.
Hypothesis Hn : 0 <= n.

Lemma fold_steps_nil (step : Z -> F -> F) c t : fold_steps F step c t t = c.
Proof. unfold fold_steps. by rewrite Z.sub_diag. Qed.

Lemma fold_steps_split (step : Z -> F -> F) c t0 t1 t2 :
  t0 <= t1 <= t2 ->
  fold_steps F step c t0 t2 = fold_steps F step (fold_steps F step c t0 t1) t1 t2.
Proof.
  intros Ht. unfold fold_steps.
  replace (t2 - t0) with ((t1 - t0) + (t2 - t1)) by lia.
  rewrite seqZ_app by lia. rewrite fold_left_app.
  by replace (t0 + (t1 - t0)) with t1 by lia.
Qed.

Lemma fold_steps_one (step : Z -> F -> F) c t :
  fold_steps F step c t (t + 1) = step t c.
Proof. unfold fold_steps. by replace (t + 1 - t) with 1 by lia. Qed.

Lemma fold_steps_ext (step step' : Z -> F -> F) c t0 t1 :
  (forall t x, t0 <= t < t1 -> step t x = step' t x) ->
  fold_steps F step c t0 t1 = fold_steps F step' c t0 t1.
Proof.
  intros Hext. unfold fold_steps.
  destruct (Z.le_gt_cases t1 t0) as [Hle|Hlt].
  { by rewrite seqZ_nil by lia. }
  assert (Forall (fun t => t0 <= t < t1) (seqZ t0 (t1 - t0))) as Hall.
  { apply Forall_forall. intros t Ht%elem_of_seqZ. lia. }
  revert c. induction Hall as [|t l Ht _ IH]; intros c; cbn; [done|].
  rewrite Hext by done. apply IH.
Qed.

Lemma flat_index_inj' (i j i' j' : Z) :
  0 <= j < n -> 0 <= j' < n -> i * n + j = i' * n + j' -> i = i' /\ j = j'.
Proof.
  intros Hj Hj' Heq.
  assert (i = i') as ->; [|lia].
  destruct (Z.lt_trichotomy i i') as [Hlt|[Heq'|Hgt]]; [|done|].
  - assert ((i + 1) * n <= i' * n) by nia. lia.
  - assert ((i' + 1) * n <= i * n) by nia. lia.
Qed.

(** Two m x n buffers with the same elements are the same buffer. *)
Lemma flat_ext (C C' : list F) :
  Z.of_nat (length C) = m * n -> Z.of_nat (length C') = m * n ->
  (forall i j, 0 <= i < m -> 0 <= j < n ->
     C !! Z.to_nat (i * n + j) = C' !! Z.to_nat (i * n + j)) ->
  C = C'.
Proof.
  intros HC HC' Hext. apply list_eq. intros idx.
  destruct (decide (Z.of_nat idx < m * n)) as [Hlt|Hge].
  - assert (0 < n) as Hn0 by nia.
    specialize (Hext (Z.of_nat idx / n) (Z.of_nat idx mod n)).
    pose proof (Z.mod_pos_bound (Z.of_nat idx) n Hn0).
    pose proof (Z.div_mod (Z.of_nat idx) n ltac:(lia)) as Hdm.
    assert (0 <= Z.of_nat idx / n < m) as Hi.
    { split; [apply Z.div_pos; lia|]. apply Z.div_lt_upper_bound; lia. }
    replace (Z.to_nat (Z.of_nat idx / n * n + Z.of_nat idx mod n)) with idx
      in Hext by lia.
    apply Hext; lia.
  - rewrite !lookup_ge_None_2 by lia. done.
Qed.

Lemma updated_none step (R : Z -> Z -> Prop) t0 t1 (C : list F) :
  (forall i j, ~ R i j) -> updated step m n R t0 t1 C C.
Proof. intros HR. split; [done|]. intros i j _ _. split; [by intros ?%HR|done]. Qed.

Lemma updated_region step (R R' : Z -> Z -> Prop) t0 t1 (C C' : list F) :
  (forall i j, 0 <= i < m -> 0 <= j < n -> R i j <-> R' i j) ->
  updated step m n R t0 t1 C C' -> updated step m n R' t0 t1 C C'.
Proof.
  intros HRR [Hlen H]. split; [done|]. intros i j Hi Hj.
  destruct (H i j Hi Hj) as [H1 H2]. specialize (HRR i j Hi Hj).
  split; intros ?; [apply H1|apply H2]; tauto.
Qed.

Lemma updated_step_ext step step' (R : Z -> Z -> Prop) t0 t1 (C C' : list F) :
  (forall i j t x, 0 <= i < m -> 0 <= j < n -> R i j -> t0 <= t < t1 ->
     step i j t x = step' i j t x) ->
  updated step m n R t0 t1 C C' -> updated step' m n R t0 t1 C C'.
Proof.
  intros Hext [Hlen H]. split; [done|]. intros i j Hi Hj.
  destruct (H i j Hi Hj) as [H1 H2]. split; [|done].
  intros HR. rewrite (H1 HR). f_equal. apply fold_steps_ext.
  intros t x Ht. by apply Hext.
Qed.

Lemma updated_space step (R1 R2 : Z -> Z -> Prop) t0 t1 (C0 C1 C2 : list F) :
  Z.of_nat (length C0) = m * n ->
  (forall i j, R1 i j -> R2 i j -> False) ->
  updated step m n R1 t0 t1 C0 C1 ->
  updated step m n R2 t0 t1 C1 C2 ->
  updated step m n (fun i j => R1 i j \/ R2 i j) t0 t1 C0 C2.
Proof.
  intros HL Hdisj [Hl1 H1] [Hl2 H2]. split; [congruence|].
  intros i j Hi Hj.
  destruct (H1 i j Hi Hj) as [H1in H1out].
  destruct (H2 i j Hi Hj) as [H2in H2out].
  split.
  - intros [HR|HR].
    + rewrite H2out by eauto. by apply H1in.
    + rewrite H2in by done. do 2 f_equal.
      assert (~ R1 i j) as Hn1 by eauto.
      unfold elt. by rewrite (H1out Hn1).
  - intros HR. rewrite H2out, H1out by tauto. done.
Qed.

Lemma updated_time step (R : Z -> Z -> Prop) t0 t1 t2 (C0 C1 C2 : list F) :
  t0 <= t1 <= t2 ->
  updated step m n R t0 t1 C0 C1 ->
  updated step m n R t1 t2 C1 C2 ->
  updated step m n R t0 t2 C0 C2.
Proof.
  intros Ht [Hl1 H1] [Hl2 H2]. split; [congruence|].
  intros i j Hi Hj.
  destruct (H1 i j Hi Hj) as [H1in H1out].
  destruct (H2 i j Hi Hj) as [H2in H2out].
  split.
  - intros HR. rewrite H2in by done. f_equal.
    rewrite (fold_steps_split _ _ t0 t1 t2) by done. f_equal.
    unfold elt at 1. by rewrite (H1in HR).
  - intros HR. by rewrite H2out, H1out.
Qed.

Lemma updated_no_time step (R : Z -> Z -> Prop) t (C : list F) :
  Z.of_nat (length C) = m * n -> updated step m n R t t C C.
Proof.
  intros HL. split; [done|]. intros i j Hi Hj. split; [|done].
  intros _. rewrite fold_steps_nil.
  destruct (load_Done C (i * n + j)) as (v & _ & Hv); [nia|].
  unfold elt. by rewrite Hv.
Qed.

Local Abbreviation rect i0 i1 j0 j1 :=
  (fun i j : Z => i0 <= i < i1 /\ j0 <= j < j1).

(** One element written. *)
Lemma updated_cell step i j t (C : list F) :
  0 <= i < m -> 0 <= j < n -> Z.of_nat (length C) = m * n ->
  updated step m n (rect i (i + 1) j (j + 1)) t (t + 1) C
    (<[Z.to_nat (i * n + j) := step i j t (elt C (i * n + j))]> C).
Proof.
  intros Hi Hj HL. split; [by rewrite length_insert|].
  intros i' j' Hi' Hj'. split.
  - intros [? ?]. assert (i' = i) as -> by lia. assert (j' = j) as -> by lia.
    rewrite list_lookup_insert_eq by nia. by rewrite fold_steps_one.
  - intros HR. apply list_lookup_insert_ne. intros Heq.
    apply Z2Nat.inj in Heq; [|nia|nia].
    apply flat_index_inj' in Heq; [|done|done]. lia.
Qed.

End UpdatedFacts.


(** *** Eight lanes at a time *)

Section LaneFacts.

Context {F : Type} (fzero : F) (fadd fmul : F -> F -> F)
        (ffma : F -> F -> F -> F) (contract : bool).

Local Abbreviation mul_add := (mul_add F fadd fmul ffma contract).

Local Abbreviation elt := (elt F fzero).
Local Abbreviation updated := (updated F fzero).

Lemma in_vector_part_block (n block q j : Z) :
  0 < block -> q * block <= j < q * block + block ->
  in_vector_part n block j
  = bool_decide (j < q * block
                     + Z.quot (Z.min n (q * block + block) - q * block) 8 * 8).
Proof.
  intros Hb Hj. unfold in_vector_part. cbv zeta.
  assert (j / block = q) as ->; [|done].
  symmetry. apply Z.div_unique with (j - q * block); lia.
Qed.

Lemma in_vector_part_narrow (n block j : Z) :
  0 < block -> 0 <= j < n -> block < 8 \/ n < 8 ->
  in_vector_part n block j = false.
Proof.
  intros Hb Hj Hnarrow.
  assert (0 <= j / block) as Hq by (apply Z.div_pos; lia).
  pose proof (Z.mod_pos_bound j block Hb) as Hmod.
  pose proof (Z.div_mod j block ltac:(lia)) as Hdm.
  rewrite (in_vector_part_block n block (j / block) j) by lia.
  apply bool_decide_eq_false_2.
  set (j0 := j / block * block) in *.
  assert (0 <= j0) by (unfold j0; nia).
  rewrite Z.quot_div_nonneg by lia.
  rewrite Z.div_small by lia. lia.
Qed.

Lemma fmadd_ps_lookup (a b c : list F) (l : nat) (x y z : F) :
  a !! l = Some x -> b !! l = Some y -> c !! l = Some z ->
  fmadd_ps F ffma a b c !! l = Some (ffma x y z).
Proof.
  revert b c l.
  induction a as [|x' a IH]; intros [|y' b] [|z' c] [|l]; try done.
  - cbn. by intros [= ->] [= ->] [= ->].
  - cbn. apply IH.
Qed.

Lemma lookup_elt' (x : list F) (i : Z) :
  0 <= i < Z.of_nat (length x) -> x !! Z.to_nat i = Some (elt x i).
Proof.
  intros Hi. destruct (load_Done x i Hi) as (v & _ & Hv).
  unfold elt. by rewrite Hv.
Qed.

Lemma load_elt' (x : list F) (i : Z) :
  0 <= i < Z.of_nat (length x) -> load x i = Done (elt x i).
Proof.
  intros Hi. destruct (load_Done x i Hi) as (v & -> & Hv).
  unfold elt. by rewrite Hv.
Qed.

(** One iteration of a vector loop: load eight lanes of [B] at [pb] and of
    [C] at [i * n + j], fuse, store back. *)
Lemma updated_lanes (step : Z -> Z -> Z -> F -> F) (m n : Z) (B C : list F)
    (a : F) (i j t pb : Z) :
  0 <= n -> 0 <= i < m -> 0 <= j -> j + 8 <= n ->
  0 <= pb -> pb + 8 <= Z.of_nat (length B) ->
  Z.of_nat (length C) = m * n ->
  (forall l c, j <= l < j + 8 ->
     step i l t c = ffma a (elt B (pb + (l - j))) c) ->
  exists C',
    (bv ← loadu_ps F B pb;
     cv ← loadu_ps F C (i * n + j);
     storeu_ps F C (i * n + j) (fmadd_ps F ffma (set1_ps F a) bv cv)) = Done C'
    /\ updated step m n (fun i' j' => i <= i' < i + 1 /\ j <= j' < j + 8)
               t (t + 1) C C'.
Proof.
  intros Hn Hi Hj Hj8 Hpb Hpb8 HL Hstep.
  assert (0 <= i * n) as Hin by nia.
  assert (i * n + n <= m * n) as Hrow by nia.
  unfold loadu_ps, storeu_ps.
  rewrite !bool_decide_eq_true_2 by lia. cbn [mbind outcome_bind].
  eexists; split; [done|].
  set (v := fmadd_ps F ffma (set1_ps F a) (take 8 (drop (Z.to_nat pb) B))
              (take 8 (drop (Z.to_nat (i * n + j)) C))).
  assert (length v = 8%nat) as Hv.
  { unfold v. rewrite fmadd_ps_length. unfold set1_ps.
    rewrite length_replicate, !length_take, !length_drop. lia. }
  split.
  { rewrite !length_app, !length_take, length_drop. lia. }
  intros i' j' Hi' Hj'.
  assert (0 <= i' * n + j' < m * n) as Hidx by nia.
  split.
  - intros [? ?]. assert (i' = i) as -> by lia.
    rewrite lookup_app_r by (rewrite length_take; lia).
    rewrite length_take.
    replace (Z.to_nat (i * n + j') - Z.to_nat (i * n + j) `min` length C)%nat
      with (Z.to_nat (j' - j)) by lia.
    rewrite lookup_app_l by (rewrite length_take; lia).
    rewrite lookup_take_lt by lia.
    rewrite fold_steps_one, Hstep by lia.
    apply fmadd_ps_lookup.
    + unfold set1_ps. apply lookup_replicate_2. lia.
    + rewrite lookup_take_lt by lia. rewrite lookup_drop.
      replace (Z.to_nat pb + Z.to_nat (j' - j))%nat
        with (Z.to_nat (pb + (j' - j))) by lia.
      apply lookup_elt'. lia.
    + rewrite lookup_take_lt by lia. rewrite lookup_drop.
      replace (Z.to_nat (i * n + j) + Z.to_nat (j' - j))%nat
        with (Z.to_nat (i * n + j')) by lia.
      apply lookup_elt'. lia.
  - intros HR.
    assert (i' <> i \/ j' < j \/ j + 8 <= j') as Hout by lia.
    destruct (decide (i' * n + j' < i * n + j)) as [Hlt|Hge].
    + rewrite lookup_app_l by (rewrite length_take; lia).
      by rewrite lookup_take_lt by lia.
    + assert (i * n + j + 8 <= i' * n + j') as Hbig.
      { destruct (decide (i' = i)) as [->|Hne]; [lia|].
        destruct (Z.lt_ge_cases i' i).
        - assert ((i' + 1) * n <= i * n) by nia. lia.
        - assert ((i + 1) * n <= i' * n) by nia. lia. }
      rewrite lookup_app_r by (rewrite length_take; lia).
      rewrite lookup_app_r by (rewrite !length_take; lia).
      rewrite lookup_drop, !length_take. f_equal. lia.
Qed.

End LaneFacts.


(** *** The tiled loop nest of the GEMM kernels *)

Section TiledNest.

Context {F : Type} (fzero : F).

Local Abbreviation updated := (updated F fzero).
Local Abbreviation rect i0 i1 j0 j1 :=
  (fun i j : Z => i0 <= i < i1 /\ j0 <= j < j1).

Variables (step : Z -> Z -> Z -> F -> F) (m k n : Z).
Hypothesis Hm : 0 <= m.
Hypothesis Hk : 0 <= k.
Hypothesis Hn : 0 <= n.

Variables tileM tileK tileN : Z.
Hypothesis HtileM : 0 < tileM.
Hypothesis HtileK : 0 < tileK.
Hypothesis HtileN : 0 < tileN.

(** What the nest does to the columns of one column tile, for one row [i]
    and one index [t] of the reduction. *)
Variable row_upd : Z -> Z -> Z -> Z -> list F -> outcome (list F).
Hypothesis row_upd_ok : forall q i t (C : list F),
  0 <= q -> q * tileN < n -> 0 <= i < m -> 0 <= t < k ->
  Z.of_nat (length C) = m * n ->
  exists C',
    row_upd (q * tileN) (Z.min n (q * tileN + tileN)) i t C = Done C'
    /\ updated step m n
         (rect i (i + 1) (q * tileN) (Z.min n (q * tileN + tileN)))
         t (t + 1) C C'.

Lemma nest_reduction q i kk k_end (C : list F) :
  0 <= q -> q * tileN < n -> 0 <= i < m -> 0 <= kk <= k_end -> k_end <= k ->
  Z.of_nat (length C) = m * n ->
  exists C',
    for_range kk k_end (fun t C =>
      row_upd (q * tileN) (Z.min n (q * tileN + tileN)) i t C) C = Done C'
    /\ updated step m n
         (rect i (i + 1) (q * tileN) (Z.min n (q * tileN + tileN)))
         kk k_end C C'.
Proof.
  intros Hq Hqn Hi Hkk Hke HL.
  apply (for_range_inv
    (fun t Cx => updated step m n
       (rect i (i + 1) (q * tileN) (Z.min n (q * tileN + tileN)))
       kk t C Cx)); [lia| |].
  { by apply updated_no_time. }
  intros t Cx Ht Hacc. pose proof Hacc as [Hlen _].
  destruct (row_upd_ok q i t Cx) as (C' & -> & Hacc'); [lia..|].
  eexists; split; [done|].
  eapply updated_time; [|exact Hacc|exact Hacc']. lia.
Qed.

Lemma nest_tile q ii i_end kk k_end (C : list F) :
  0 <= q -> q * tileN < n -> 0 <= ii <= i_end -> i_end <= m ->
  0 <= kk <= k_end -> k_end <= k ->
  Z.of_nat (length C) = m * n ->
  exists C',
    for_range ii i_end (fun i C =>
      for_range kk k_end (fun t C =>
        row_upd (q * tileN) (Z.min n (q * tileN + tileN)) i t C) C) C = Done C'
    /\ updated step m n
         (rect ii i_end (q * tileN) (Z.min n (q * tileN + tileN)))
         kk k_end C C'.
Proof.
  intros Hq Hqn Hii Hie Hkk Hke HL.
  apply (for_range_inv
    (fun i Cx => updated step m n
       (rect ii i (q * tileN) (Z.min n (q * tileN + tileN)))
       kk k_end C Cx)); [lia| |].
  { apply updated_none. lia. }
  intros i Cx Hi Hacc. pose proof Hacc as [Hlen _].
  destruct (nest_reduction q i kk k_end Cx) as (C' & -> & Hacc'); [lia..|].
  eexists; split; [done|].
  eapply updated_region;
    [|eapply (updated_space fzero m n step
                (rect ii i (q * tileN) (Z.min n (q * tileN + tileN)))
                (rect i (i + 1) (q * tileN) (Z.min n (q * tileN + tileN))));
      [done|lia|exact Hacc|exact Hacc']].
  intros i' j' _ _. simpl. lia.
Qed.

Lemma nest_column_tiles ii kk (C : list F) :
  0 <= ii < m -> 0 <= kk < k ->
  Z.of_nat (length C) = m * n ->
  exists C',
    for_step 0 n tileN (fun jj C =>
      for_range ii (Z.min m (ii + tileM)) (fun i C =>
        for_range kk (Z.min k (kk + tileK)) (fun t C =>
          row_upd jj (Z.min n (jj + tileN)) i t C) C) C) C = Done C'
    /\ updated step m n (rect ii (Z.min m (ii + tileM)) 0 n)
               kk (Z.min k (kk + tileK)) C C'.
Proof.
  intros Hii Hkk HL.
  destruct (for_step_inv
    (fun jj Cx => (exists q, 0 <= q /\ jj = q * tileN) /\
       updated step m n (rect ii (Z.min m (ii + tileM)) 0 (Z.min jj n))
               kk (Z.min k (kk + tileK)) C Cx)
    (fun jj C =>
       for_range ii (Z.min m (ii + tileM)) (fun i C =>
         for_range kk (Z.min k (kk + tileK)) (fun t C =>
           row_upd jj (Z.min n (jj + tileN)) i t C) C) C) 0 n tileN C)
    as (jj' & C' & -> & [_ Hacc] & Hjj'); [done| | |].
  { split; [exists 0; lia|]. apply updated_none. lia. }
  { intros jj Cx Hjj [(q & Hq & ->) Hacc]. pose proof Hacc as [Hlen _].
    destruct (nest_tile q ii (Z.min m (ii + tileM)) kk (Z.min k (kk + tileK)) Cx)
      as (Cy & -> & Hacc'); [lia..|].
    eexists; split; [done|]. split; [exists (q + 1); lia|].
    eapply updated_region;
      [|eapply (updated_space fzero m n step
                  (rect ii (Z.min m (ii + tileM)) 0 (Z.min (q * tileN) n))
                  (rect ii (Z.min m (ii + tileM)) (q * tileN)
                        (Z.min n (q * tileN + tileN))));
        [done|lia|exact Hacc|exact Hacc']].
    intros i' j' _ _. simpl. lia. }
  eexists; split; [done|].
  eapply updated_region; [|exact Hacc]. intros i' j' _ _. simpl. lia.
Qed.

Lemma nest_reduction_tiles ii (C : list F) :
  0 <= ii < m ->
  Z.of_nat (length C) = m * n ->
  exists C',
    for_step 0 k tileK (fun kk C =>
      for_step 0 n tileN (fun jj C =>
        for_range ii (Z.min m (ii + tileM)) (fun i C =>
          for_range kk (Z.min k (kk + tileK)) (fun t C =>
            row_upd jj (Z.min n (jj + tileN)) i t C) C) C) C) C = Done C'
    /\ updated step m n (rect ii (Z.min m (ii + tileM)) 0 n) 0 k C C'.
Proof.
  intros Hii HL.
  destruct (for_step_inv
    (fun kk Cx => 0 <= kk /\
       updated step m n (rect ii (Z.min m (ii + tileM)) 0 n) 0 (Z.min kk k) C Cx)
    (fun kk C =>
       for_step 0 n tileN (fun jj C =>
         for_range ii (Z.min m (ii + tileM)) (fun i C =>
           for_range kk (Z.min k (kk + tileK)) (fun t C =>
             row_upd jj (Z.min n (jj + tileN)) i t C) C) C) C)
    0 k tileK C) as (kk' & C' & -> & [_ Hacc] & Hkk'); [done| | |].
  { split; [done|]. replace (Z.min 0 k) with 0 by lia.
    by apply updated_no_time. }
  { intros kk Cx Hkk [_ Hacc]. pose proof Hacc as [Hlen _].
    destruct (nest_column_tiles ii kk Cx) as (Cy & -> & Hacc'); [lia|lia|lia|].
    eexists; split; [done|]. split; [lia|].
    replace (Z.min kk k) with kk in Hacc by lia.
    replace (Z.min (kk + tileK) k) with (Z.min k (kk + tileK)) by lia.
    eapply updated_time; [|exact Hacc|exact Hacc']. lia. }
  eexists; split; [done|]. by replace (Z.min kk' k) with k in Hacc by lia.
Qed.

(** The whole nest: it returns, and every element of the m x n output has
    gone through the updates for [t = 0 .. k - 1], in this order. *)
Lemma nest_updated (C : list F) :
  Z.of_nat (length C) = m * n ->
  exists C',
    for_step 0 m tileM (fun ii C =>
      for_step 0 k tileK (fun kk C =>
        for_step 0 n tileN (fun jj C =>
          for_range ii (Z.min m (ii + tileM)) (fun i C =>
            for_range kk (Z.min k (kk + tileK)) (fun t C =>
              row_upd jj (Z.min n (jj + tileN)) i t C) C) C) C) C) C = Done C'
    /\ updated step m n (fun _ _ => True) 0 k C C'.
Proof.
  intros HL.
  destruct (for_step_inv
    (fun ii Cx => 0 <= ii /\
       updated step m n (rect 0 (Z.min ii m) 0 n) 0 k C Cx)
    (fun ii C =>
       for_step 0 k tileK (fun kk C =>
         for_step 0 n tileN (fun jj C =>
           for_range ii (Z.min m (ii + tileM)) (fun i C =>
             for_range kk (Z.min k (kk + tileK)) (fun t C =>
               row_upd jj (Z.min n (jj + tileN)) i t C) C) C) C) C)
    0 m tileM C) as (ii' & C' & -> & [_ Hacc] & Hii'); [done| | |].
  { split; [done|]. apply updated_none. lia. }
  { intros ii Cx Hii [_ Hacc]. pose proof Hacc as [Hlen _].
    destruct (nest_reduction_tiles ii Cx) as (Cy & -> & Hacc'); [lia|lia|].
    eexists; split; [done|]. split; [lia|].
    eapply updated_region;
      [|eapply (updated_space fzero m n step (rect 0 (Z.min ii m) 0 n)
                  (rect ii (Z.min m (ii + tileM)) 0 n));
        [done|lia|exact Hacc|exact Hacc']].
    intros i' j' _ _. simpl. lia. }
  eexists; split; [done|].
  eapply updated_region; [|exact Hacc]. intros i' j' ? ?. simpl. lia.
Qed.

End TiledNest.

(** *** The GEMM kernels, element by element *)

Section GemmElements.

Context {F : Type} (fzero : F) (fadd fmul : F -> F -> F)
        (ffma : F -> F -> F -> F) (contract : bool).

Local Abbreviation mul_add := (mul_add F fadd fmul ffma contract).

Local Abbreviation elt := (elt F fzero).
Local Abbreviation updated := (updated F fzero).
Local Abbreviation gemm_avx2_step := (gemm_avx2_step F fzero fadd fmul ffma contract).
Local Abbreviation rect i0 i1 j0 j1 :=
  (fun i j : Z => i0 <= i < i1 /\ j0 <= j < j1).

Variables (A B : list F) (m k n : Z).
Hypothesis Hm : 0 <= m.
Hypothesis Hk : 0 <= k.
Hypothesis Hn : 0 <= n.
Hypothesis HA : Z.of_nat (length A) = m * k.
Hypothesis HB : Z.of_nat (length B) = k * n.

Variable tileN : Z.
Hypothesis HtileN : 0 < tileN.

(** The columns of one column tile for one [(i, t)]: the vector loop, then
    the scalar tail. *)
Lemma gemm_avx2_row q i t (C : list F) :
  0 <= q -> q * tileN < n -> 0 <= i < m -> 0 <= t < k ->
  Z.of_nat (length C) = m * n ->
  exists C',
    (a ← load A (i * k + t);
     C ← for_step (q * tileN)
           (q * tileN + Z.quot (Z.min n (q * tileN + tileN) - q * tileN) 8 * 8) 8
           (fun j C =>
              bv ← loadu_ps F B (t * n + q * tileN + (j - q * tileN));
              cv ← loadu_ps F C (i * n + q * tileN + (j - q * tileN));
              storeu_ps F C (i * n + q * tileN + (j - q * tileN))
                (fmadd_ps F ffma (set1_ps F a) bv cv)) C;
     for_range
       (q * tileN + Z.quot (Z.min n (q * tileN + tileN) - q * tileN) 8 * 8)
       (Z.min n (q * tileN + tileN))
       (fun j C =>
          a' ← load A (i * k + t);
          bj ← load B (t * n + j);
          cj ← load C (i * n + j);
          store C (i * n + j) (mul_add cj a' bj)) C) = Done C'
    /\ updated (gemm_avx2_step A B k n tileN) m n
         (rect i (i + 1) (q * tileN) (Z.min n (q * tileN + tileN)))
         t (t + 1) C C'.
Proof.
  intros Hq Hqn Hi Ht HL.
  set (jj := q * tileN) in *. set (j_end := Z.min n (jj + tileN)).
  assert (0 <= jj) as Hjj by (unfold jj; nia).
  rewrite Z.quot_div_nonneg by lia.
  pose proof (Z.mul_div_le (j_end - jj) 8 ltac:(lia)) as Hq8.
  pose proof (Z.div_pos (j_end - jj) 8 ltac:(lia) ltac:(lia)) as Hq0.
  set (q8 := (j_end - jj) / 8) in *.
  assert (forall l, jj <= l < j_end ->
            in_vector_part n tileN l = bool_decide (l < jj + q8 * 8)) as Hvec.
  { intros l Hl. rewrite (in_vector_part_block n tileN q l) by (fold jj; lia).
    fold jj. fold j_end. by rewrite Z.quot_div_nonneg by lia. }
  rewrite (load_elt' fzero A) by nia. cbn [mbind outcome_bind].
  destruct (for_step_inv
    (fun j Cx => (exists r, 0 <= r <= q8 /\ j = jj + 8 * r) /\
       updated (gemm_avx2_step A B k n tileN) m n (rect i (i + 1) jj j)
               t (t + 1) C Cx)
    (fun j C =>
       bv ← loadu_ps F B (t * n + jj + (j - jj));
       cv ← loadu_ps F C (i * n + jj + (j - jj));
       storeu_ps F C (i * n + jj + (j - jj))
         (fmadd_ps F ffma (set1_ps F (elt A (i * k + t))) bv cv))
    jj (jj + q8 * 8) 8 C) as (j' & C1 & -> & [(r & Hr & ->) Hacc1] & Hj');
    [lia| | |].
  { split; [exists 0; lia|]. apply updated_none. lia. }
  { intros j Cx Hj [(r & Hr & ->) Hacc]. pose proof Hacc as [Hlen _].
    replace (t * n + jj + (jj + 8 * r - jj)) with (t * n + (jj + 8 * r)) by lia.
    replace (i * n + jj + (jj + 8 * r - jj)) with (i * n + (jj + 8 * r)) by lia.
    destruct (updated_lanes fzero ffma (gemm_avx2_step A B k n tileN) m n B Cx
                (elt A (i * k + t)) i (jj + 8 * r) t (t * n + (jj + 8 * r)))
      as (Cy & -> & Hacc'); [lia|lia|lia|lia|nia|nia|lia| |].
    { intros l c Hl. unfold gemm_avx2_step.
      rewrite Hvec by lia. rewrite bool_decide_eq_true_2 by lia.
      do 2 f_equal. lia. }
    eexists; split; [done|]. split; [exists (r + 1); lia|].
    eapply updated_region;
      [|eapply (updated_space fzero m n _ (rect i (i + 1) jj (jj + 8 * r))
                  (rect i (i + 1) (jj + 8 * r) (jj + 8 * r + 8)));
        [done|lia|exact Hacc|exact Hacc']].
    intros i' j' _ _. simpl. lia. }
  assert (r = q8) as -> by lia.
  replace (jj + 8 * q8) with (jj + q8 * 8) in Hacc1 by lia.
  cbn [mbind outcome_bind]. pose proof Hacc1 as [Hlen1 _].
  destruct (for_range_inv
    (fun j Cx => updated (gemm_avx2_step A B k n tileN) m n
                   (rect i (i + 1) (jj + q8 * 8) j) t (t + 1) C1 Cx)
    (fun j C =>
       bj ← load B (t * n + j);
       cj ← load C (i * n + j);
       store C (i * n + j) (mul_add cj (elt A (i * k + t)) bj))
    (jj + q8 * 8) j_end C1) as (C2 & -> & Hacc2); [lia| | |].
  { apply updated_none. lia. }
  { intros j Cx Hj Hacc. pose proof Hacc as [Hlen _].
    rewrite (load_elt' fzero B) by nia. cbn [mbind outcome_bind].
    rewrite (load_elt' fzero Cx) by nia. cbn [mbind outcome_bind].
    rewrite store_Done by nia. eexists; split; [done|].
    eapply updated_region;
      [|eapply (updated_space fzero m n _
                  (rect i (i + 1) (jj + q8 * 8) j) (rect i (i + 1) j (j + 1)));
        [lia|lia|exact Hacc|]].
    { intros i' j' _ _. simpl. lia. }
    pose proof (updated_cell fzero m n Hm Hn (gemm_avx2_step A B k n tileN)
                  i j t Cx ltac:(lia) ltac:(lia) ltac:(lia)) as Hcell.
    unfold gemm_avx2_step at 2 in Hcell.
    rewrite Hvec in Hcell by lia.
    rewrite bool_decide_eq_false_2 in Hcell by lia. exact Hcell. }
  eexists; split; [done|].
  eapply updated_region;
    [|eapply (updated_space fzero m n _ (rect i (i + 1) jj (jj + q8 * 8))
                (rect i (i + 1) (jj + q8 * 8) j_end));
      [done|lia|exact Hacc1|exact Hacc2]].
  intros i' j' _ _. simpl. lia.
Qed.

End GemmElements.

(** The vectorised kernel as a whole. *)
Lemma gemm_avx2_updated {F : Type} (fzero : F) (fadd fmul : F -> F -> F)
    (ffma : F -> F -> F -> F) (contract : bool) (A B C : list F)
    (m k n tileM tileK tileN : Z) :
  0 <= m -> 0 <= k -> 0 <= n ->
  0 < tileM -> 0 < tileK -> 0 < tileN ->
  Z.of_nat (length A) = m * k ->
  Z.of_nat (length B) = k * n ->
  Z.of_nat (length C) = m * n ->
  exists C',
    gemm_tiled_avx2 F fadd fmul ffma contract A B C m k n tileM tileK tileN = Done C' /\
    updated F fzero (gemm_avx2_step F fzero fadd fmul ffma contract A B k n tileN) m n
      (fun _ _ => True) 0 k C C'.
Proof.
  intros Hm Hk Hn HtM HtK HtN HA HB HC.
  unfold gemm_tiled_avx2. cbv zeta.
  apply (nest_updated fzero
           (gemm_avx2_step F fzero fadd fmul ffma contract A B k n tileN) m k n
           Hk Hn tileM tileK tileN HtM HtK HtN
           (fun jj j_end i t C =>
              a ← load A (i * k + t);
              C ← for_step jj (jj + Z.quot (j_end - jj) 8 * 8) 8
                    (fun j C =>
                       bv ← loadu_ps F B (t * n + jj + (j - jj));
                       cv ← loadu_ps F C (i * n + jj + (j - jj));
                       storeu_ps F C (i * n + jj + (j - jj))
                         (fmadd_ps F ffma (set1_ps F a) bv cv)) C;
              for_range (jj + Z.quot (j_end - jj) 8 * 8) j_end
                (fun j C =>
                   a' ← load A (i * k + t);
                   bj ← load B (t * n + j);
                   cj ← load C (i * n + j);
                   store C (i * n + j) (mul_add F fadd fmul ffma contract cj a' bj)) C)
           ltac:(intros; by apply gemm_avx2_row) C HC).
Qed.


(** X1.  The scalar GEMM kernel accumulates onto its output, and what it
    leaves does not depend on the tile sizes: on an m x k [A], a k x n
    [B] and an m x n [C], any two choices of positive tile sizes give the
    same buffer, in which every [C[i, j]] is its former value after the
    updates [c += A[i, t] * B[t, j]] for [t = 0 .. k - 1], in this order.
    This holds in both ways of building the kernel: with every update one
    fused operation, and with every update a rounded product followed by
    a rounded sum. *)
Theorem gemm_scalar_tile_independent {F : Type} (fzero : F)
    (fadd fmul : F -> F -> F)
        (ffma : F -> F -> F -> F) (contract : bool) (A B C : list F)
    (m k n tileM tileK tileN tileM' tileK' tileN' : Z) :
  0 <= m -> 0 <= k -> 0 <= n ->
  0 < tileM -> 0 < tileK -> 0 < tileN ->
  0 < tileM' -> 0 < tileK' -> 0 < tileN' ->
  Z.of_nat (length A) = m * k ->
  Z.of_nat (length B) = k * n ->
  Z.of_nat (length C) = m * n ->
  exists C',
    gemm_tiled_scalar F fadd fmul ffma contract A B C m k n tileM tileK tileN = Done C' /\
    gemm_tiled_scalar F fadd fmul ffma contract A B C m k n tileM' tileK' tileN' = Done C' /\
    length C' = length C /\
    forall i j, 0 <= i < m -> 0 <= j < n ->
      C' !! Z.to_nat (i * n + j)
      = Some (fold_steps F (gemm_scalar_step F fzero fadd fmul ffma contract A B k n i j)
                (elt F fzero C (i * n + j)) 0 k).
Proof.
  intros Hm Hk Hn HtM HtK HtN HtM' HtK' HtN' HA HB HC.
  destruct (gemm_tiled_scalar_accumulates fzero fadd fmul ffma contract A B m k n Hm Hk Hn HA HB
              tileM tileK tileN HtM HtK HtN C HC) as (C1 & E1 & [Hl1 H1]).
  destruct (gemm_tiled_scalar_accumulates fzero fadd fmul ffma contract A B m k n Hm Hk Hn HA HB
              tileM' tileK' tileN' HtM' HtK' HtN' C HC) as (C2 & E2 & [Hl2 H2]).
  assert (C2 = C1) as ->.
  { apply (flat_ext m n Hm); [lia|lia|]. intros i j Hi Hj.
    destruct (H1 i j Hi Hj) as [E _]. destruct (H2 i j Hi Hj) as [E' _].
    by rewrite (E I), (E' I). }
  exists C1. split; [done|]. split; [done|]. split; [done|].
  intros i j Hi Hj. destruct (H1 i j Hi Hj) as [E _]. exact (E I).
Qed.

(** X2.  The vectorised GEMM kernel, element by element: every [C[i, j]]
    is its former value updated for [t = 0 .. k - 1], in this order, by
    the fused [A[i, t] * B[t, j] + c] of the intrinsic when column [j]
    falls in the vector loop of its column tile, and by [c += a * b] as
    the build evaluates it when it falls in the scalar tail.  Which
    columns are vectorised depends on [n] and [tileN] only: [tileM] and
    [tileK] have no effect on the result.  In a build that contracts
    [c += a * b] the tail is fused like the vector loop, and the kernel
    returns what the scalar kernel returns. *)
Theorem gemm_avx2_elements {F : Type} (fzero : F) (fadd fmul : F -> F -> F)
    (ffma : F -> F -> F -> F) (contract : bool) (A B C : list F)
    (m k n tileM tileK tileN : Z) :
  0 <= m -> 0 <= k -> 0 <= n ->
  0 < tileM -> 0 < tileK -> 0 < tileN ->
  Z.of_nat (length A) = m * k ->
  Z.of_nat (length B) = k * n ->
  Z.of_nat (length C) = m * n ->
  exists C',
    gemm_tiled_avx2 F fadd fmul ffma contract A B C m k n tileM tileK tileN
      = Done C' /\
    length C' = length C /\
    (forall i j, 0 <= i < m -> 0 <= j < n ->
       C' !! Z.to_nat (i * n + j)
       = Some (fold_steps F
                 (gemm_avx2_step F fzero fadd fmul ffma contract A B k n tileN i j)
                 (elt F fzero C (i * n + j)) 0 k)) /\
    (contract = true ->
       gemm_tiled_scalar F fadd fmul ffma contract A B C m k n tileM tileK tileN
         = Done C').
Proof.
  intros Hm Hk Hn HtM HtK HtN HA HB HC.
  destruct (gemm_avx2_updated fzero fadd fmul ffma contract
              A B C m k n tileM tileK tileN)
    as (C' & E & [Hlen H]); [done..|].
  exists C'. split; [exact E|]. split; [done|]. split.
  { intros i j Hi Hj. destruct (H i j Hi Hj) as [E' _]. exact (E' I). }
  intros Hfused.
  destruct (gemm_tiled_scalar_accumulates fzero fadd fmul ffma contract
              A B m k n Hm Hk Hn HA HB
              tileM tileK tileN HtM HtK HtN C HC) as (Cs & Es & [Hls Hs]).
  rewrite Es. f_equal.
  apply (flat_ext m n Hm); [lia|lia|]. intros i j Hi Hj.
  destruct (H i j Hi Hj) as [E1 _]. destruct (Hs i j Hi Hj) as [E2 _].
  rewrite (E1 I), (E2 I). f_equal. unfold dot_acc.
  apply fold_steps_ext. intros t x Ht. unfold gemm_avx2_step, mul_add.
  rewrite Hfused. by destruct (in_vector_part n tileN j).
Qed.

(** X3.  When no column tile is eight columns wide ([tileN < 8] or
    [n < 8]) the vector loop of the vectorised GEMM kernel never runs, and
    the kernel returns exactly what the scalar kernel returns. *)
Theorem gemm_avx2_narrow_is_scalar {F : Type} (fzero : F)
    (fadd fmul : F -> F -> F) (ffma : F -> F -> F -> F) (contract : bool) (A B C : list F)
    (m k n tileM tileK tileN : Z) :
  0 <= m -> 0 <= k -> 0 <= n ->
  0 < tileM -> 0 < tileK -> 0 < tileN ->
  Z.of_nat (length A) = m * k ->
  Z.of_nat (length B) = k * n ->
  Z.of_nat (length C) = m * n ->
  tileN < 8 \/ n < 8 ->
  exists C',
    gemm_tiled_avx2 F fadd fmul ffma contract A B C m k n tileM tileK tileN = Done C' /\
    gemm_tiled_scalar F fadd fmul ffma contract A B C m k n tileM tileK tileN = Done C'.
Proof.
  intros Hm Hk Hn HtM HtK HtN HA HB HC Hnarrow.
  destruct (gemm_avx2_updated fzero fadd fmul ffma contract A B C m k n tileM tileK tileN)
    as (Cv & Ev & [Hlv Hv]); [done..|].
  destruct (gemm_tiled_scalar_accumulates fzero fadd fmul ffma contract A B m k n Hm Hk Hn HA HB
              tileM tileK tileN HtM HtK HtN C HC) as (Cs & Es & [Hls Hs]).
  exists Cv. split; [done|]. rewrite Es. f_equal.
  apply (flat_ext m n Hm); [lia|lia|]. intros i j Hi Hj.
  destruct (Hv i j Hi Hj) as [E _]. destruct (Hs i j Hi Hj) as [E' _].
  rewrite (E I), (E' I). f_equal. unfold dot_acc.
  apply fold_steps_ext. intros t x Ht. unfold gemm_avx2_step.
  by rewrite in_vector_part_narrow by lia.
Qed.

(** *** The SpMM kernels, element by element *)

Lemma load_col_at (l : list Z) (i : Z) :
  0 <= i < Z.of_nat (length l) -> load l i = Done (col_at l i).
Proof.
  intros Hi. destruct (load_Done l i Hi) as (v & -> & Hv).
  unfold col_at. by rewrite Hv.
Qed.

Lemma csr_wf_row {F : Type} (A : CSR F) (i : Z) :
  csr_wf F A -> 0 <= i < csr_m F A ->
  rowptr F A !! Z.to_nat i = Some (row_start F A i) /\
  rowptr F A !! Z.to_nat (i + 1) = Some (row_start F A (i + 1)) /\
  0 <= row_start F A i <= row_start F A (i + 1) /\
  row_start F A (i + 1) <= Z.of_nat (length (colidx F A)).
Proof.
  intros (Hm & Hrp & Hcv & Hrows & Hcols) Hi.
  destruct (lookup_lt_is_Some_2 (rowptr F A) (Z.to_nat i)) as [p0 Hp0]; [lia|].
  destruct (lookup_lt_is_Some_2 (rowptr F A) (Z.to_nat (i + 1))) as [p1 Hp1];
    [lia|].
  unfold row_start, col_at. rewrite Hp0, Hp1. cbn.
  specialize (Hrows i p0 p1 Hi Hp0 Hp1). repeat split; try done; lia.
Qed.

Lemma csr_wf_col {F : Type} (A : CSR F) (p : Z) :
  csr_wf F A -> 0 <= p < Z.of_nat (length (colidx F A)) ->
  0 <= col_at (colidx F A) p < csr_k F A.
Proof.
  intros (_ & _ & _ & _ & Hcols) Hp.
  destruct (lookup_lt_is_Some_2 (colidx F A) (Z.to_nat p)) as [c Hc]; [lia|].
  unfold col_at. rewrite Hc. cbn.
  exact (Forall_lookup_1 _ _ _ _ Hcols Hc).
Qed.

Section SpmmElements.

Context {F : Type} (fzero : F) (fadd fmul : F -> F -> F)
        (ffma : F -> F -> F -> F) (contract : bool).

Local Abbreviation mul_add := (mul_add F fadd fmul ffma contract).

Local Abbreviation elt := (elt F fzero).
Local Abbreviation updated := (updated F fzero).
Local Abbreviation zero_fill := (zero_fill F fzero).
Local Abbreviation rect i0 i1 j0 j1 :=
  (fun i j : Z => i0 <= i < i1 /\ j0 <= j < j1).

Variables (A : CSR F) (n jblock : Z).
Hypothesis Hn : 1 <= n.
Hypothesis Hjblock : 1 <= jblock.
Hypothesis Hwf : csr_wf F A.

Local Abbreviation m := (csr_m F A).
Local Abbreviation k := (csr_k F A).
Local Abbreviation nnz := (Z.of_nat (length (colidx F A))).

(** The update of column [j] for the non-zero at position [p], and the
    code that applies it to the columns [j0 .. j1 - 1] of row [i] given
    the column [col] and the value [a] of the non-zero. *)
Variable step : Z -> Z -> F -> F.
Variable upd : Z -> Z -> Z -> Z -> F -> list F -> outcome (list F).
Hypothesis upd_ok : forall q i p (C : list F),
  0 <= q -> q * jblock < n -> 0 <= i < m -> 0 <= p < nnz ->
  Z.of_nat (length C) = m * n ->
  exists C',
    upd i (q * jblock) (Z.min n (q * jblock + jblock))
        (col_at (colidx F A) p) (elt (values F A) p) C = Done C'
    /\ updated (fun _ j p c => step j p c) m n
         (rect i (i + 1) (q * jblock) (Z.min n (q * jblock + jblock)))
         p (p + 1) C C'.

Lemma spmm_nonzeros q i p0 p1 (C : list F) :
  0 <= q -> q * jblock < n -> 0 <= i < m -> 0 <= p0 <= p1 -> p1 <= nnz ->
  Z.of_nat (length C) = m * n ->
  exists C',
    for_range p0 p1 (fun p C =>
      col ← load (colidx F A) p;
      a ← load (values F A) p;
      upd i (q * jblock) (Z.min n (q * jblock + jblock)) col a C) C = Done C'
    /\ updated (fun _ j p c => step j p c) m n
         (rect i (i + 1) (q * jblock) (Z.min n (q * jblock + jblock)))
         p0 p1 C C'.
Proof.
  intros Hq Hqn Hi Hp Hp1 HL.
  pose proof Hwf as (Hm & Hrp & Hcv & Hrows & Hcols).
  apply (for_range_inv
    (fun p Cx => updated (fun _ j p c => step j p c) m n
       (rect i (i + 1) (q * jblock) (Z.min n (q * jblock + jblock)))
       p0 p C Cx)); [lia| |].
  { apply updated_no_time; lia. }
  intros p Cx Hpp Hacc. pose proof Hacc as [Hlen _].
  rewrite load_col_at by lia. cbn [mbind outcome_bind].
  rewrite (load_elt' fzero) by lia. cbn [mbind outcome_bind].
  destruct (upd_ok q i p Cx) as (C' & -> & Hacc'); [lia..|].
  eexists; split; [done|].
  eapply updated_time; [|exact Hacc|exact Hacc']. lia.
Qed.

Lemma spmm_row i (C : list F) :
  0 <= i < m ->
  Z.of_nat (length C) = m * n ->
  exists C',
    for_step 0 n jblock (fun j0 C =>
      for_range (row_start F A i) (row_start F A (i + 1)) (fun p C =>
        col ← load (colidx F A) p;
        a ← load (values F A) p;
        upd i j0 (Z.min n (j0 + jblock)) col a C) C) C = Done C'
    /\ updated (fun _ j p c => step j p c) m n (rect i (i + 1) 0 n)
               (row_start F A i) (row_start F A (i + 1)) C C'.
Proof.
  intros Hi HL. destruct (csr_wf_row A i Hwf Hi) as (_ & _ & Hp01 & Hp1).
  pose proof Hwf as (Hm & _).
  destruct (for_step_inv
    (fun j0 Cx => (exists q, 0 <= q /\ j0 = q * jblock) /\
       updated (fun _ j p c => step j p c) m n (rect i (i + 1) 0 (Z.min j0 n))
               (row_start F A i) (row_start F A (i + 1)) C Cx)
    (fun j0 C =>
       for_range (row_start F A i) (row_start F A (i + 1)) (fun p C =>
         col ← load (colidx F A) p;
         a ← load (values F A) p;
         upd i j0 (Z.min n (j0 + jblock)) col a C) C) 0 n jblock C)
    as (jx & C' & -> & [_ Hacc] & Hjx); [lia| | |].
  { split; [exists 0; lia|]. apply updated_none. lia. }
  { intros j0 Cx Hj0 [(q & Hq & ->) Hacc]. pose proof Hacc as [Hlen _].
    destruct (spmm_nonzeros q i (row_start F A i) (row_start F A (i + 1)) Cx)
      as (Cy & -> & Hacc'); [lia..|].
    eexists; split; [done|]. split; [exists (q + 1); lia|].
    eapply updated_region;
      [|eapply (updated_space fzero m n _
                  (rect i (i + 1) 0 (Z.min (q * jblock) n))
                  (rect i (i + 1) (q * jblock)
                        (Z.min n (q * jblock + jblock))));
        [lia|lia|exact Hacc|exact Hacc']].
    intros i' j' _ _. simpl. lia. }
  eexists; split; [done|].
  eapply updated_region; [|exact Hacc]. intros i' j' _ _. simpl. lia.
Qed.

(** The kernel as a whole: [zero_fill], then the rows one after the
    other. *)
Lemma spmm_rows_updated (C : list F) :
  Z.of_nat (length C) = m * n ->
  exists C1,
    (C ← zero_fill C (m * n);
     for_range 0 m (fun i C =>
       p0 ← load (rowptr F A) i;
       p1 ← load (rowptr F A) (i + 1);
       for_step 0 n jblock (fun j0 C =>
         for_range p0 p1 (fun p C =>
           col ← load (colidx F A) p;
           a ← load (values F A) p;
           upd i j0 (Z.min n (j0 + jblock)) col a C) C) C) C) = Done C1
    /\ Z.of_nat (length C1) = m * n
    /\ forall i j, 0 <= i < m -> 0 <= j < n ->
         C1 !! Z.to_nat (i * n + j)
         = Some (fold_steps F (step j) fzero
                   (row_start F A i) (row_start F A (i + 1))).
Proof.
  intros HL. pose proof Hwf as (Hm & Hrp & _).
  rewrite (zero_fill_all fzero C (m * n) HL). cbn [mbind outcome_bind].
  destruct (for_range_inv
    (fun i Cx => Z.of_nat (length Cx) = m * n /\
       forall i' j, 0 <= i' < m -> 0 <= j < n ->
         Cx !! Z.to_nat (i' * n + j)
         = Some (if bool_decide (i' < i)
                 then fold_steps F (step j) fzero
                        (row_start F A i') (row_start F A (i' + 1))
                 else fzero))
    (fun i C =>
       p0 ← load (rowptr F A) i;
       p1 ← load (rowptr F A) (i + 1);
       for_step 0 n jblock (fun j0 C =>
         for_range p0 p1 (fun p C =>
           col ← load (colidx F A) p;
           a ← load (values F A) p;
           upd i j0 (Z.min n (j0 + jblock)) col a C) C) C)
    0 m (replicate (Z.to_nat (m * n)) fzero)) as (C1 & -> & Hlen & Hval);
    [lia| | |].
  { split; [rewrite length_replicate; nia|]. intros i' j Hi' Hj.
    rewrite bool_decide_eq_false_2 by lia.
    apply lookup_replicate_2. nia. }
  { intros i Cx Hi [Hlen Hval].
    destruct (csr_wf_row A i Hwf Hi) as (Hp0 & Hp1 & _).
    rewrite load_col_at by lia. cbn [mbind outcome_bind].
    rewrite load_col_at by lia. cbn [mbind outcome_bind].
    change (col_at (rowptr F A) i) with (row_start F A i).
    change (col_at (rowptr F A) (i + 1)) with (row_start F A (i + 1)).
    destruct (spmm_row i Cx Hi Hlen) as (Cy & -> & [Hlen' Hacc]).
    eexists; split; [done|]. split; [lia|].
    intros i' j Hi' Hj. destruct (Hacc i' j Hi' Hj) as [Hin Hout].
    destruct (decide (i' = i)) as [->|Hne].
    - rewrite Hin by lia. rewrite bool_decide_eq_true_2 by lia.
      do 2 f_equal. unfold elt.
      rewrite (Hval i j Hi Hj). by rewrite bool_decide_eq_false_2 by lia.
    - rewrite Hout by lia. rewrite (Hval i' j Hi' Hj).
      f_equal. repeat case_bool_decide; try done; lia. }
  exists C1. split; [done|]. split; [done|].
  intros i j Hi Hj. rewrite (Hval i j Hi Hj).
  by rewrite bool_decide_eq_true_2 by lia.
Qed.

End SpmmElements.


Section SpmmKernels.

Context {F : Type} (fzero : F) (fadd fmul : F -> F -> F)
        (ffma : F -> F -> F -> F) (contract : bool).

Local Abbreviation mul_add := (mul_add F fadd fmul ffma contract).

Local Abbreviation elt := (elt F fzero).
Local Abbreviation updated := (updated F fzero).
Local Abbreviation spmm_scalar_step := (spmm_scalar_step F fzero fadd fmul ffma contract).
Local Abbreviation spmm_avx2_step := (spmm_avx2_step F fzero fadd fmul ffma contract).
Local Abbreviation rect i0 i1 j0 j1 :=
  (fun i j : Z => i0 <= i < i1 /\ j0 <= j < j1).

Variables (A : CSR F) (B : list F) (n jblock : Z).
Hypothesis Hn : 1 <= n.
Hypothesis Hjblock : 1 <= jblock.
Hypothesis Hwf : csr_wf F A.
Hypothesis HB : Z.of_nat (length B) = csr_k F A * n.

Local Abbreviation m := (csr_m F A).
Local Abbreviation k := (csr_k F A).
Local Abbreviation nnz := (Z.of_nat (length (colidx F A))).

Lemma getB_at layoutB col j :
  0 <= col < k -> 0 <= j < n ->
  getB F A B n layoutB col j = Done (B_at F fzero B k n layoutB col j).
Proof.
  intros Hcol Hj. destruct layoutB; cbn [getB B_at];
    apply (load_elt' fzero); nia.
Qed.

(** The scalar update of a column block for one non-zero. *)
Lemma spmm_scalar_block layoutB q i p (C : list F) :
  0 <= q -> q * jblock < n -> 0 <= i < m -> 0 <= p < nnz ->
  Z.of_nat (length C) = m * n ->
  exists C',
    for_range (q * jblock) (Z.min n (q * jblock + jblock)) (fun j C =>
      cj ← load C (i * n + j);
      bj ← getB F A B n layoutB (col_at (colidx F A) p) j;
      store C (i * n + j) (mul_add cj (elt (values F A) p) bj)) C = Done C'
    /\ updated (fun _ j p c => spmm_scalar_step A B n layoutB j p c) m n
         (rect i (i + 1) (q * jblock) (Z.min n (q * jblock + jblock)))
         p (p + 1) C C'.
Proof.
  intros Hq Hqn Hi Hp HL. pose proof (csr_wf_col A p Hwf Hp) as Hcol.
  pose proof Hwf as (Hm & _).
  set (j0 := q * jblock) in *. assert (0 <= j0) by (unfold j0; nia).
  apply (for_range_inv
    (fun j Cx => updated (fun _ j p c => spmm_scalar_step A B n layoutB j p c)
                   m n (rect i (i + 1) j0 j) p (p + 1) C Cx)); [lia| |].
  { apply updated_none. lia. }
  intros j Cx Hj Hacc. pose proof Hacc as [Hlen _].
  rewrite (load_elt' fzero Cx) by nia. cbn [mbind outcome_bind].
  rewrite getB_at by lia. cbn [mbind outcome_bind].
  rewrite store_Done by nia. eexists; split; [done|].
  eapply updated_region;
    [|eapply (updated_space fzero m n _ (rect i (i + 1) j0 j)
                (rect i (i + 1) j (j + 1)));
      [lia|lia|exact Hacc|]].
  { intros i' j' _ _. simpl. lia. }
  apply (updated_cell fzero m n Hm ltac:(lia)
           (fun _ j p c => spmm_scalar_step A B n layoutB j p c) i j p Cx);
    lia.
Qed.

(** The vectorised update of a column block for one non-zero. *)
Lemma spmm_avx2_block q i p (C : list F) :
  0 <= q -> q * jblock < n -> 0 <= i < m -> 0 <= p < nnz ->
  Z.of_nat (length C) = m * n ->
  exists C',
    (C ← for_step (q * jblock)
           (q * jblock
            + Z.quot (Z.min n (q * jblock + jblock) - q * jblock) 8 * 8) 8
           (fun j C =>
              bv ← loadu_ps F B (col_at (colidx F A) p * n + j);
              cv ← loadu_ps F C (i * n + j);
              storeu_ps F C (i * n + j)
                (fmadd_ps F ffma (set1_ps F (elt (values F A) p)) bv cv)) C;
     for_range
       (q * jblock + Z.quot (Z.min n (q * jblock + jblock) - q * jblock) 8 * 8)
       (Z.min n (q * jblock + jblock))
       (fun j C =>
          cj ← load C (i * n + j);
          bj ← load B (col_at (colidx F A) p * n + j);
          store C (i * n + j) (mul_add cj (elt (values F A) p) bj)) C)
    = Done C'
    /\ updated (fun _ j p c => spmm_avx2_step A B n jblock j p c) m n
         (rect i (i + 1) (q * jblock) (Z.min n (q * jblock + jblock)))
         p (p + 1) C C'.
Proof.
  intros Hq Hqn Hi Hp HL. pose proof (csr_wf_col A p Hwf Hp) as Hcol.
  pose proof Hwf as (Hm & _).
  set (col := col_at (colidx F A) p) in *.
  set (a := elt (values F A) p).
  set (jj := q * jblock) in *. set (j_end := Z.min n (jj + jblock)).
  assert (0 <= jj) as Hjj by (unfold jj; nia).
  rewrite Z.quot_div_nonneg by lia.
  pose proof (Z.mul_div_le (j_end - jj) 8 ltac:(lia)) as Hq8.
  pose proof (Z.div_pos (j_end - jj) 8 ltac:(lia) ltac:(lia)) as Hq0.
  set (q8 := (j_end - jj) / 8) in *.
  assert (forall l, jj <= l < j_end ->
            in_vector_part n jblock l = bool_decide (l < jj + q8 * 8)) as Hvec.
  { intros l Hl. rewrite (in_vector_part_block n jblock q l) by (fold jj; lia).
    fold jj. fold j_end. by rewrite Z.quot_div_nonneg by lia. }
  destruct (for_step_inv
    (fun j Cx => (exists r, 0 <= r <= q8 /\ j = jj + 8 * r) /\
       updated (fun _ j p c => spmm_avx2_step A B n jblock j p c) m n
               (rect i (i + 1) jj j) p (p + 1) C Cx)
    (fun j C =>
       bv ← loadu_ps F B (col * n + j);
       cv ← loadu_ps F C (i * n + j);
       storeu_ps F C (i * n + j) (fmadd_ps F ffma (set1_ps F a) bv cv))
    jj (jj + q8 * 8) 8 C) as (jx & C1 & -> & [(r & Hr & ->) Hacc1] & Hjx);
    [lia| | |].
  { split; [exists 0; lia|]. apply updated_none. lia. }
  { intros j Cx Hj [(r & Hr & ->) Hacc]. pose proof Hacc as [Hlen _].
    destruct (updated_lanes fzero ffma
                (fun _ j p c => spmm_avx2_step A B n jblock j p c) m n B Cx
                a i (jj + 8 * r) p (col * n + (jj + 8 * r)))
      as (Cy & -> & Hacc'); [lia|lia|lia|lia|nia|nia|lia| |].
    { intros l c Hl. unfold spmm_avx2_step.
      rewrite Hvec by lia. rewrite bool_decide_eq_true_2 by lia.
      fold col. fold a. do 2 f_equal. lia. }
    eexists; split; [done|]. split; [exists (r + 1); lia|].
    eapply updated_region;
      [|eapply (updated_space fzero m n _ (rect i (i + 1) jj (jj + 8 * r))
                  (rect i (i + 1) (jj + 8 * r) (jj + 8 * r + 8)));
        [lia|lia|exact Hacc|exact Hacc']].
    intros i' j' _ _. simpl. lia. }
  assert (r = q8) as -> by lia.
  replace (jj + 8 * q8) with (jj + q8 * 8) in Hacc1 by lia.
  cbn [mbind outcome_bind]. pose proof Hacc1 as [Hlen1 _].
  destruct (for_range_inv
    (fun j Cx => updated (fun _ j p c => spmm_avx2_step A B n jblock j p c) m n
                   (rect i (i + 1) (jj + q8 * 8) j) p (p + 1) C1 Cx)
    (fun j C =>
       cj ← load C (i * n + j);
       bj ← load B (col * n + j);
       store C (i * n + j) (mul_add cj a bj))
    (jj + q8 * 8) j_end C1) as (C2 & -> & Hacc2); [lia| | |].
  { apply updated_none. lia. }
  { intros j Cx Hj Hacc. pose proof Hacc as [Hlen _].
    rewrite (load_elt' fzero Cx) by nia. cbn [mbind outcome_bind].
    rewrite (load_elt' fzero B) by nia. cbn [mbind outcome_bind].
    rewrite store_Done by nia. eexists; split; [done|].
    eapply updated_region;
      [|eapply (updated_space fzero m n _
                  (rect i (i + 1) (jj + q8 * 8) j) (rect i (i + 1) j (j + 1)));
        [lia|lia|exact Hacc|]].
    { intros i' j' _ _. simpl. lia. }
    pose proof (updated_cell fzero m n Hm ltac:(lia)
                  (fun _ j p c => spmm_avx2_step A B n jblock j p c)
                  i j p Cx ltac:(lia) ltac:(lia) ltac:(lia)) as Hcell.
    cbv beta in Hcell. unfold spmm_avx2_step at 2 in Hcell.
    rewrite Hvec in Hcell by lia.
    rewrite bool_decide_eq_false_2 in Hcell by lia. exact Hcell. }
  eexists; split; [done|].
  eapply updated_region;
    [|eapply (updated_space fzero m n _ (rect i (i + 1) jj (jj + q8 * 8))
                (rect i (i + 1) (jj + q8 * 8) j_end));
      [lia|lia|exact Hacc1|exact Hacc2]].
  intros i' j' _ _. simpl. lia.
Qed.

(** The two kernels as a whole. *)
Lemma spmm_scalar_updated layoutB (C : list F) :
  Z.of_nat (length C) = m * n ->
  exists Cs,
    spmm_csr_scalar F fzero fadd fmul ffma contract A B C n jblock layoutB = Done Cs
    /\ Z.of_nat (length Cs) = m * n
    /\ forall i j, 0 <= i < m -> 0 <= j < n ->
         Cs !! Z.to_nat (i * n + j)
         = Some (fold_steps F (spmm_scalar_step A B n layoutB j) fzero
                   (row_start F A i) (row_start F A (i + 1))).
Proof.
  intros HC. unfold spmm_csr_scalar. cbv zeta.
  apply (spmm_rows_updated fzero A n jblock Hn Hjblock Hwf
           (spmm_scalar_step A B n layoutB)
           (fun i j0 j1 col a C =>
              for_range j0 j1 (fun j C =>
                cj ← load C (i * n + j);
                bj ← getB F A B n layoutB col j;
                store C (i * n + j) (mul_add cj a bj)) C)); [|done].
  intros. by apply spmm_scalar_block.
Qed.

Lemma spmm_avx2_updated (C : list F) :
  Z.of_nat (length C) = m * n ->
  exists Cv,
    spmm_csr_avx2 F fzero fadd fmul ffma contract A B C n jblock RowMajor = Done Cv
    /\ Z.of_nat (length Cv) = m * n
    /\ forall i j, 0 <= i < m -> 0 <= j < n ->
         Cv !! Z.to_nat (i * n + j)
         = Some (fold_steps F (spmm_avx2_step A B n jblock j) fzero
                   (row_start F A i) (row_start F A (i + 1))).
Proof.
  intros HC. unfold spmm_csr_avx2. cbv zeta.
  apply (spmm_rows_updated fzero A n jblock Hn Hjblock Hwf
           (spmm_avx2_step A B n jblock)
           (fun i j0 j1 col a C =>
              C ← for_step j0 (j0 + Z.quot (j1 - j0) 8 * 8) 8 (fun j C =>
                     bv ← loadu_ps F B (col * n + j);
                     cv ← loadu_ps F C (i * n + j);
                     storeu_ps F C (i * n + j)
                       (fmadd_ps F ffma (set1_ps F a) bv cv)) C;
              for_range (j0 + Z.quot (j1 - j0) 8 * 8) j1 (fun j C =>
                cj ← load C (i * n + j);
                bj ← load B (col * n + j);
                store C (i * n + j) (mul_add cj a bj)) C)); [|done].
  intros. by apply spmm_avx2_block.
Qed.

End SpmmKernels.


(** X4.  The scalar SpMM kernel, element by element: on a well-formed CSR
    matrix [A] (m x k) and a [B] of k x n floats in either layout, every
    [C[i, j]] is [+0.0] after the updates
    [c += values[p] * B[colidx[p], j]] for
    [p = rowptr[i] .. rowptr[i+1] - 1], in this order.  The column block
    size [jblock] has no effect on the result.  This holds in both ways
    of building the kernel: with every update one fused operation, and
    with every update a rounded product followed by a rounded sum. *)
Theorem spmm_scalar_elements {F : Type} (fzero : F) (fadd fmul : F -> F -> F)
        (ffma : F -> F -> F -> F) (contract : bool)
    (A : CSR F) (B C : list F) (n jblock jblock' : Z) (layoutB : LayoutB) :
  1 <= n -> 1 <= jblock -> 1 <= jblock' ->
  csr_wf F A ->
  Z.of_nat (length B) = csr_k F A * n ->
  Z.of_nat (length C) = csr_m F A * n ->
  exists Cs,
    spmm_csr_scalar F fzero fadd fmul ffma contract A B C n jblock layoutB = Done Cs /\
    spmm_csr_scalar F fzero fadd fmul ffma contract A B C n jblock' layoutB = Done Cs /\
    Z.of_nat (length Cs) = csr_m F A * n /\
    forall i j, 0 <= i < csr_m F A -> 0 <= j < n ->
      Cs !! Z.to_nat (i * n + j)
      = Some (fold_steps F (spmm_scalar_step F fzero fadd fmul ffma contract A B n layoutB j)
                fzero (row_start F A i) (row_start F A (i + 1))).
Proof.
  intros Hn Hjb Hjb' Hwf HB HC.
  destruct (spmm_scalar_updated fzero fadd fmul ffma contract A B n jblock Hn Hjb Hwf HB
              layoutB C HC) as (Cs & E & Hl & H).
  destruct (spmm_scalar_updated fzero fadd fmul ffma contract A B n jblock' Hn Hjb' Hwf HB
              layoutB C HC) as (Cs' & E' & Hl' & H').
  assert (Cs' = Cs) as ->.
  { pose proof Hwf as (Hm & _). apply (flat_ext (csr_m F A) n Hm); [lia|lia|].
    intros i j Hi Hj. by rewrite H, H'. }
  by exists Cs.
Qed.

(** X5.  The two layouts of [B] give the same product: if [Bt] holds in
    column-major order the k x n matrix that [B] holds in row-major order,
    the scalar kernel called on [B] with the row-major tag and on [Bt]
    with the column-major tag returns the same [C]. *)
Theorem spmm_layouts_agree {F : Type} (fzero : F) (fadd fmul : F -> F -> F)
        (ffma : F -> F -> F -> F) (contract : bool)
    (A : CSR F) (B Bt C : list F) (n jblock : Z) :
  1 <= n -> 1 <= jblock ->
  csr_wf F A ->
  Z.of_nat (length B) = csr_k F A * n ->
  Z.of_nat (length Bt) = csr_k F A * n ->
  Z.of_nat (length C) = csr_m F A * n ->
  (forall col j, 0 <= col < csr_k F A -> 0 <= j < n ->
     Bt !! Z.to_nat (j * csr_k F A + col) = B !! Z.to_nat (col * n + j)) ->
  exists Cs,
    spmm_csr_scalar F fzero fadd fmul ffma contract A B C n jblock RowMajor = Done Cs /\
    spmm_csr_scalar F fzero fadd fmul ffma contract A Bt C n jblock ColMajor = Done Cs.
Proof.
  intros Hn Hjb Hwf HB HBt HC Htr.
  destruct (spmm_scalar_updated fzero fadd fmul ffma contract A B n jblock Hn Hjb Hwf HB
              RowMajor C HC) as (Cs & E & Hl & H).
  destruct (spmm_scalar_updated fzero fadd fmul ffma contract A Bt n jblock Hn Hjb Hwf HBt
              ColMajor C HC) as (Cs' & E' & Hl' & H').
  exists Cs. split; [done|]. rewrite E'. f_equal.
  pose proof Hwf as (Hm & _). apply (flat_ext (csr_m F A) n Hm); [lia|lia|].
  intros i j Hi Hj. rewrite H, H' by done. f_equal.
  destruct (csr_wf_row A i Hwf Hi) as (_ & _ & Hp01 & Hp1).
  apply fold_steps_ext. intros p x Hp.
  unfold spmm_scalar_step, B_at, elt. do 2 f_equal.
  rewrite Htr; [done| |done]. apply csr_wf_col; [done|lia].
Qed.

(** X6.  The vectorised SpMM kernel on a row-major [B], element by
    element: every [C[i, j]] is [+0.0] updated for
    [p = rowptr[i] .. rowptr[i+1] - 1], in this order, by the fused
    [values[p] * B[colidx[p], j] + c] of the intrinsic when column [j]
    falls in the vector loop of its column block, and by [c += a * b] as
    the build evaluates it when it falls in the scalar tail.  In a build
    that contracts [c += a * b] the tail is fused like the vector loop,
    and the kernel returns what the scalar kernel returns. *)
Theorem spmm_avx2_elements {F : Type} (fzero : F) (fadd fmul : F -> F -> F)
    (ffma : F -> F -> F -> F) (contract : bool)
    (A : CSR F) (B C : list F) (n jblock : Z) :
  1 <= n -> 1 <= jblock ->
  csr_wf F A ->
  Z.of_nat (length B) = csr_k F A * n ->
  Z.of_nat (length C) = csr_m F A * n ->
  exists Cv,
    spmm_csr_avx2 F fzero fadd fmul ffma contract A B C n jblock RowMajor
      = Done Cv /\
    Z.of_nat (length Cv) = csr_m F A * n /\
    (forall i j, 0 <= i < csr_m F A -> 0 <= j < n ->
       Cv !! Z.to_nat (i * n + j)
       = Some (fold_steps F
                 (spmm_avx2_step F fzero fadd fmul ffma contract A B n jblock j)
                 fzero (row_start F A i) (row_start F A (i + 1)))) /\
    (contract = true ->
       spmm_csr_scalar F fzero fadd fmul ffma contract A B C n jblock RowMajor
         = Done Cv).
Proof.
  intros Hn Hjb Hwf HB HC.
  destruct (spmm_avx2_updated fzero fadd fmul ffma contract
              A B n jblock Hn Hjb Hwf HB C HC) as (Cv & Ev & Hlv & Hv).
  exists Cv. split; [done|]. split; [done|]. split; [done|].
  intros Hfused.
  destruct (spmm_scalar_updated fzero fadd fmul ffma contract
              A B n jblock Hn Hjb Hwf HB RowMajor C HC) as (Cs & Es & Hls & Hs).
  rewrite Es. f_equal.
  pose proof Hwf as (Hm & _). apply (flat_ext (csr_m F A) n Hm); [lia|lia|].
  intros i j Hi Hj. rewrite Hs, Hv by done. f_equal.
  apply fold_steps_ext. intros p x Hp.
  unfold spmm_avx2_step, spmm_scalar_step, B_at, mul_add.
  rewrite Hfused. by destruct (in_vector_part n jblock j).
Qed.

(** X7.  When no column block is eight columns wide ([jblock < 8] or
    [n < 8]) the vectorised SpMM kernel returns exactly what the scalar
    kernel returns, in both layouts. *)
Theorem spmm_avx2_narrow_is_scalar {F : Type} (fzero : F)
    (fadd fmul : F -> F -> F) (ffma : F -> F -> F -> F) (contract : bool)
    (A : CSR F) (B C : list F) (n jblock : Z) (layoutB : LayoutB) :
  1 <= n -> 1 <= jblock ->
  csr_wf F A ->
  Z.of_nat (length B) = csr_k F A * n ->
  Z.of_nat (length C) = csr_m F A * n ->
  jblock < 8 \/ n < 8 ->
  exists C',
    spmm_csr_avx2 F fzero fadd fmul ffma contract A B C n jblock layoutB = Done C' /\
    spmm_csr_scalar F fzero fadd fmul ffma contract A B C n jblock layoutB = Done C'.
Proof.
  intros Hn Hjb Hwf HB HC Hnarrow.
  destruct (spmm_scalar_updated fzero fadd fmul ffma contract A B n jblock Hn Hjb Hwf HB
              layoutB C HC) as (Cs & Es & Hls & Hs).
  destruct layoutB; [|by exists Cs].
  destruct (spmm_avx2_updated fzero fadd fmul ffma contract A B n jblock Hn Hjb Hwf HB
              C HC) as (Cv & Ev & Hlv & Hv).
  exists Cv. split; [done|]. rewrite Es. f_equal.
  pose proof Hwf as (Hm & _). apply (flat_ext (csr_m F A) n Hm); [lia|lia|].
  intros i j Hi Hj. rewrite Hs, Hv by done. f_equal.
  apply fold_steps_ext. intros p x Hp. unfold spmm_avx2_step, spmm_scalar_step.
  by rewrite in_vector_part_narrow by lia.
Qed.

(** ** More about the CSR builder *)



Section WindowFacts.

Context {F : Type} {rng : Type}.
Context (uniform_real : rng -> F * rng).
Context (uniform_int : Z -> Z -> rng -> Z * rng).
Context (std_sort : forall T : Type, (T -> T -> bool) -> list T -> list T).

Hypothesis uniform_int_range : forall a b g,
  - 2 ^ 31 <= a -> a <= b -> b < 2 ^ 31 ->
  a <= (uniform_int a b g).1 <= b.
Hypothesis std_sort_sorts : sort_contract std_sort.

Local Abbreviation gen_state := (gen_state F rng).
Local Abbreviation draw_row := (draw_row F rng uniform_real uniform_int std_sort).



End WindowFacts.


Section BuilderMore.

Context {F : Type} (fzero : F) {rng : Type}.
Context (mt19937_64 : Z -> rng) (uniform_real : rng -> F * rng).
Context (uniform_int : Z -> Z -> rng -> Z * rng).
Context (std_sort : forall T : Type, (T -> T -> bool) -> list T -> list T).
Context (cast_ub : spec_float -> Z).

Local Abbreviation make_random_csr :=
  (make_random_csr F fzero rng mt19937_64 uniform_real uniform_int
     std_sort cast_ub).





End BuilderMore.

Lemma gemm_scalar_tile_independent_witness :
  exists C',
    gemm_tiled_scalar spec_float F32.add F32.mul F32.fma true
      Ex.eye2 Ex.b5678 Ex.out2 2 2 2 64 64 128 = Done C' /\
    gemm_tiled_scalar spec_float F32.add F32.mul F32.fma true
      Ex.eye2 Ex.b5678 Ex.out2 2 2 2 1 1 1 = Done C' /\
    length C' = length Ex.out2 /\
    forall i j, 0 <= i < 2 -> 0 <= j < 2 ->
      C' !! Z.to_nat (i * 2 + j)
      = Some (fold_steps spec_float
                (gemm_scalar_step spec_float F32.zero F32.add F32.mul F32.fma true
                   Ex.eye2 Ex.b5678 2 2 i j)
                (elt spec_float F32.zero Ex.out2 (i * 2 + j)) 0 2).
Proof.
  apply (gemm_scalar_tile_independent F32.zero F32.add F32.mul F32.fma true
           Ex.eye2 Ex.b5678 Ex.out2 2 2 2 64 64 128 1 1 1);
    [lia | lia | lia | lia | lia | lia | lia | lia | lia
    | reflexivity | reflexivity | reflexivity].
Defined.

Lemma gemm_avx2_elements_witness :
  exists C',
    gemm_tiled_avx2 spec_float F32.add F32.mul F32.fma true
      Ex.a11 Ex.b19 Ex.c19 1 1 9 64 64 128 = Done C' /\
    length C' = length Ex.c19 /\
    (forall i j, 0 <= i < 1 -> 0 <= j < 9 ->
       C' !! Z.to_nat (i * 9 + j)
       = Some (fold_steps spec_float
                 (gemm_avx2_step spec_float F32.zero F32.add F32.mul F32.fma true
                    Ex.a11 Ex.b19 1 9 128 i j)
                 (elt spec_float F32.zero Ex.c19 (i * 9 + j)) 0 1)) /\
    (true = true ->
       gemm_tiled_scalar spec_float F32.add F32.mul F32.fma true
         Ex.a11 Ex.b19 Ex.c19 1 1 9 64 64 128 = Done C').
Proof.
  apply (gemm_avx2_elements F32.zero F32.add F32.mul F32.fma true
           Ex.a11 Ex.b19 Ex.c19 1 1 9 64 64 128);
    [lia | lia | lia | lia | lia | lia | reflexivity | reflexivity | reflexivity].
Defined.

Lemma gemm_avx2_narrow_is_scalar_witness :
  exists C',
    gemm_tiled_avx2 spec_float F32.add F32.mul F32.fma true
      Ex.eye2 Ex.b5678 Ex.out2 2 2 2 64 64 128 = Done C' /\
    gemm_tiled_scalar spec_float F32.add F32.mul F32.fma true
      Ex.eye2 Ex.b5678 Ex.out2 2 2 2 64 64 128 = Done C'.
Proof.
  apply (gemm_avx2_narrow_is_scalar F32.zero F32.add F32.mul F32.fma true
           Ex.eye2 Ex.b5678 Ex.out2 2 2 2 64 64 128);
    [lia | lia | lia | lia | lia | lia | reflexivity | reflexivity | reflexivity
    | right; lia].
Defined.

(** The vector loop and the scalar tail at work: in a 1 x 9 product the
    first eight columns go through one vector iteration. *)
Example gemm_avx2_1x9 :
  gemm_tiled_avx2 spec_float F32.add F32.mul F32.fma true
    Ex.a11 Ex.b19 Ex.c19 1 1 9 64 64 128
  = Done (map F32.of_Z [12; 14; 16; 18; 20; 22; 24; 26; 28]) /\
  map (in_vector_part 9 128) [0; 7; 8] = [true; true; false].
Proof. split; vm_compute; reflexivity. Qed.

Lemma spmm_scalar_elements_witness :
  exists Cs,
    spmm_csr_scalar spec_float F32.zero F32.add F32.mul F32.fma true
      Ex.sparse2 Ex.dense2 Ex.out2 2 1 RowMajor = Done Cs /\
    spmm_csr_scalar spec_float F32.zero F32.add F32.mul F32.fma true
      Ex.sparse2 Ex.dense2 Ex.out2 2 128 RowMajor = Done Cs /\
    Z.of_nat (length Cs) = csr_m spec_float Ex.sparse2 * 2 /\
    forall i j, 0 <= i < csr_m spec_float Ex.sparse2 -> 0 <= j < 2 ->
      Cs !! Z.to_nat (i * 2 + j)
      = Some (fold_steps spec_float
                (spmm_scalar_step spec_float F32.zero F32.add F32.mul F32.fma true
                   Ex.sparse2 Ex.dense2 2 RowMajor j)
                F32.zero (row_start spec_float Ex.sparse2 i)
                (row_start spec_float Ex.sparse2 (i + 1))).
Proof.
  apply (spmm_scalar_elements F32.zero F32.add F32.mul F32.fma true
           Ex.sparse2 Ex.dense2 Ex.out2 2 1 128 RowMajor);
    [lia | lia | lia | exact sparse2_wf | reflexivity | reflexivity].
Defined.

Lemma dense2t_transposed (col j : Z) :
  0 <= col < csr_k spec_float Ex.sparse2 -> 0 <= j < 2 ->
  Ex.dense2t !! Z.to_nat (j * csr_k spec_float Ex.sparse2 + col)
  = Ex.dense2 !! Z.to_nat (col * 2 + j).
Proof.
  cbn [csr_k Ex.sparse2]. intros Hcol Hj.
  assert (col = 0 \/ col = 1) as [-> | ->] by lia;
    (assert (j = 0 \/ j = 1) as [-> | ->] by lia); reflexivity.
Qed.

Lemma spmm_layouts_agree_witness :
  exists Cs,
    spmm_csr_scalar spec_float F32.zero F32.add F32.mul F32.fma true
      Ex.sparse2 Ex.dense2 Ex.out2 2 128 RowMajor = Done Cs /\
    spmm_csr_scalar spec_float F32.zero F32.add F32.mul F32.fma true
      Ex.sparse2 Ex.dense2t Ex.out2 2 128 ColMajor = Done Cs.
Proof.
  apply (spmm_layouts_agree F32.zero F32.add F32.mul F32.fma true
           Ex.sparse2 Ex.dense2 Ex.dense2t Ex.out2 2 128);
    [lia | lia | exact sparse2_wf | reflexivity | reflexivity | reflexivity
    | exact dense2t_transposed].
Defined.

Lemma spmm_avx2_elements_witness :
  exists Cv,
    spmm_csr_avx2 spec_float F32.zero F32.add F32.mul F32.fma true
      Ex.sparse2 Ex.b29 Ex.c29 9 128 RowMajor = Done Cv /\
    Z.of_nat (length Cv) = csr_m spec_float Ex.sparse2 * 9 /\
    (forall i j, 0 <= i < csr_m spec_float Ex.sparse2 -> 0 <= j < 9 ->
       Cv !! Z.to_nat (i * 9 + j)
       = Some (fold_steps spec_float
                 (spmm_avx2_step spec_float F32.zero F32.add F32.mul F32.fma true
                    Ex.sparse2 Ex.b29 9 128 j)
                 F32.zero (row_start spec_float Ex.sparse2 i)
                 (row_start spec_float Ex.sparse2 (i + 1)))) /\
    (true = true ->
       spmm_csr_scalar spec_float F32.zero F32.add F32.mul F32.fma true
         Ex.sparse2 Ex.b29 Ex.c29 9 128 RowMajor = Done Cv).
Proof.
  apply (spmm_avx2_elements F32.zero F32.add F32.mul F32.fma true
           Ex.sparse2 Ex.b29 Ex.c29 9 128);
    [lia | lia | exact sparse2_wf | reflexivity | reflexivity].
Defined.

Lemma spmm_avx2_narrow_is_scalar_witness :
  exists C',
    spmm_csr_avx2 spec_float F32.zero F32.add F32.mul F32.fma true
      Ex.sparse2 Ex.dense2 Ex.out2 2 128 RowMajor = Done C' /\
    spmm_csr_scalar spec_float F32.zero F32.add F32.mul F32.fma true
      Ex.sparse2 Ex.dense2 Ex.out2 2 128 RowMajor = Done C'.
Proof.
  apply (spmm_avx2_narrow_is_scalar F32.zero F32.add F32.mul F32.fma true
           Ex.sparse2 Ex.dense2 Ex.out2 2 128 RowMajor);
    [lia | lia | exact sparse2_wf | reflexivity | reflexivity | right; lia].
Defined.



(** Past the bound the window is not computed: with 1000 rows,
    [2^31 - 1] columns and a density of [1e-9] the half-width is 21474836,
    and [center + bw] leaves [int] in the last row. *)
Example band_window_overflows :
  band_width Lib.cast_ub (2 ^ 31 - 1) (F64.ratio 1 1000000000) = 21474836 /\
  band_window Lib.cast_ub 1000 (2 ^ 31 - 1) (F64.ratio 1 1000000000) 999
  = Overflow.
Proof. split; vm_compute; reflexivity. Qed.


(** ** [fill_random] *)

Section FillFacts.

Context {F : Type} {rng : Type}.
Context (mt19937_64 : Z -> rng) (uniform_real : rng -> F * rng).

Local Abbreviation fill := (fill_random F rng mt19937_64 uniform_real).
Local Abbreviation drawn := (draws F rng uniform_real).

Lemma draws_length (n : nat) (g : rng) : length (drawn n g).1 = n.
Proof.
  revert g. induction n as [|n IH]; intros g; cbn; [done|].
  destruct (uniform_real g) as [v g1]. specialize (IH g1).
  destruct (drawn n g1) as [l g2]. cbn in *. by rewrite IH.
Qed.

Lemma draws_unfold (n : nat) (g : rng) :
  drawn (S n) g
  = let '(v, g1) := uniform_real g in
    let '(l, g2) := drawn n g1 in (v :: l, g2).
Proof. reflexivity. Qed.

Lemma draws_S (n : nat) (g : rng) :
  drawn (S n) g
  = ((drawn n g).1 ++ [(uniform_real (drawn n g).2).1],
     (uniform_real (drawn n g).2).2).
Proof.
  revert g. induction n as [|n IH]; intros g.
  - cbn. destruct (uniform_real g). reflexivity.
  - rewrite (draws_unfold (S n) g), (draws_unfold n g).
    destruct (uniform_real g) as [v g1]. rewrite (IH g1).
    destruct (drawn n g1) as [l g2]. cbn.
    destruct (uniform_real g2). reflexivity.
Qed.

Lemma draws_prefix (n n' : nat) (g : rng) :
  (n <= n')%nat -> (drawn n g).1 = take n (drawn n' g).1.
Proof.
  revert n' g. induction n as [|n IH]; intros n' g Hn; cbn.
  { by rewrite take_0. }
  destruct n' as [|n']; [lia|]. cbn.
  destruct (uniform_real g) as [v g1]. specialize (IH n' g1 ltac:(lia)).
  destruct (drawn n g1) as [l g2]. destruct (drawn n' g1) as [l' g2'].
  cbn in *. by rewrite IH.
Qed.

(** [fill_random(x, n, seed)] as a whole. *)
Lemma fill_random_is_draws (x : list F) (n seed : Z) :
  0 <= n <= Z.of_nat (length x) ->
  fill x n seed
  = Done ((drawn (Z.to_nat n) (mt19937_64 seed)).1 ++ drop (Z.to_nat n) x).
Proof.
  intros Hn. unfold fill_random.
  destruct (for_range_inv
    (fun i (st : list F * rng) =>
       st = ((drawn (Z.to_nat i) (mt19937_64 seed)).1 ++ drop (Z.to_nat i) x,
             (drawn (Z.to_nat i) (mt19937_64 seed)).2))
    (fun i '(x, g) =>
       let '(v, g) := uniform_real g in
       x ← store x i v; Done (x, g))
    0 n (x, mt19937_64 seed)) as ([x' g'] & -> & Hst); [lia|done| |].
  - intros i [y g] Hi [= -> ->].
    pose proof (draws_length (Z.to_nat i) (mt19937_64 seed)) as Hlen.
    replace (Z.to_nat (i + 1)) with (S (Z.to_nat i)) by lia.
    rewrite draws_S.
    destruct (drawn (Z.to_nat i) (mt19937_64 seed)) as [l g1]. cbn in *.
    destruct (uniform_real g1) as [v g2]. cbn.
    rewrite store_Done by (rewrite length_app, length_drop; lia).
    cbn [mbind outcome_bind]. eexists; split; [done|]. f_equal.
    replace (Z.to_nat i) with (length l + 0)%nat at 1 by lia.
    rewrite insert_app_r.
    destruct (lookup_lt_is_Some_2 x (Z.to_nat i)) as [x0 Hx0]; [lia|].
    rewrite (drop_S _ _ _ Hx0). cbn. by rewrite <- app_assoc.
  - cbn [mbind outcome_bind]. by injection Hst as -> _.
Qed.

End FillFacts.

(** X11.  [fill_random(x, n, seed)] overwrites the first [n] floats of [x]
    with the first [n] values that the distribution draws from the engine
    seeded with [seed], and leaves the rest of [x] as it was.  The values
    do not depend on [n]: a shorter fill with the same seed gives a prefix
    of a longer one. *)
Theorem fill_random_draws {F : Type} {rng : Type} (mt19937_64 : Z -> rng)
    (uniform_real : rng -> F * rng) (x x' : list F) (n n' seed : Z) :
  0 <= n <= n' ->
  n <= Z.of_nat (length x) -> n' <= Z.of_nat (length x') ->
  exists y y',
    fill_random F rng mt19937_64 uniform_real x n seed = Done y /\
    fill_random F rng mt19937_64 uniform_real x' n' seed = Done y' /\
    length y = length x /\
    take (Z.to_nat n) y
    = (draws F rng uniform_real (Z.to_nat n) (mt19937_64 seed)).1 /\
    drop (Z.to_nat n) y = drop (Z.to_nat n) x /\
    take (Z.to_nat n) y = take (Z.to_nat n) y'.
Proof.
  intros Hn Hx Hx'.
  rewrite (fill_random_is_draws mt19937_64 uniform_real x n seed) by lia.
  rewrite (fill_random_is_draws mt19937_64 uniform_real x' n' seed) by lia.
  pose proof (draws_length uniform_real (Z.to_nat n) (mt19937_64 seed)) as Hl.
  pose proof (draws_length uniform_real (Z.to_nat n') (mt19937_64 seed)) as Hl'.
  eexists _, _. split; [done|]. split; [done|].
  split; [rewrite length_app, length_drop; lia|].
  split; [by rewrite take_app_length' by done|].
  split; [by rewrite drop_app_length' by done|].
  rewrite take_app_length' by done.
  rewrite take_app_le by lia.
  by apply draws_prefix; lia.
Qed.

Lemma fill_random_draws_witness :
  exists y y',
    Lib.fill_random (replicate 4 F32.zero) 2 42 = Done y /\
    Lib.fill_random (replicate 6 F32.zero) 5 42 = Done y' /\
    length y = length (replicate 4 F32.zero) /\
    take (Z.to_nat 2) y
    = (draws spec_float MT.state Lib.uniform_real (Z.to_nat 2) (MT.seed 42)).1 /\
    drop (Z.to_nat 2) y = drop (Z.to_nat 2) (replicate 4 F32.zero) /\
    take (Z.to_nat 2) y = take (Z.to_nat 2) y'.
Proof.
  apply (fill_random_draws MT.seed Lib.uniform_real
           (replicate 4 F32.zero) (replicate 6 F32.zero) 2 5 42);
    [lia | rewrite length_replicate; lia | rewrite length_replicate; lia].
Defined.

(** ** What the trial loops leave in the output buffer *)

(** X12.  The trial loops do not accumulate over their rounds: when the
    "gemm" loop is left after its 15 invocations, the output buffer holds
    what one [zero_fill] followed by one invocation of the kernel gives,
    and when the "spmm_csr" loop is left after its 20 invocations it holds
    what one invocation gives. *)
Theorem trial_loops_leave_one_result {F : Type} (fzero : F)
    (fadd fmul : F -> F -> F) (ffma : F -> F -> F -> F) (contract : bool)
    (have_avx2 : bool) (now_seconds : nat -> spec_float)
    (A B C : list F) (m k n tileM tileK tileN : Z)
    (M : CSR F) (MB MC : list F) (sn jblock : Z) (layoutB : LayoutB)
    (variant : string) (ticks0 : nat) :
  0 <= m -> 0 <= k -> 0 <= n ->
  0 < tileM -> 0 < tileK -> 0 < tileN ->
  Z.of_nat (length A) = m * k ->
  Z.of_nat (length B) = k * n ->
  Z.of_nat (length C) = m * n ->
  1 <= sn -> 1 <= jblock ->
  csr_wf F M ->
  Z.of_nat (length MB) = csr_k F M * sn ->
  Z.of_nat (length MC) = csr_m F M * sn ->
  (exists st C1,
     gemm_trials F fzero fadd fmul ffma contract have_avx2 now_seconds
       A B C m k n tileM tileK tileN variant ticks0 = Done st /\
     (C0 ← zero_fill F fzero C (m * n);
      if have_avx2 && String.eqb variant "simd"
      then gemm_tiled_avx2 F fadd fmul ffma contract A B C0 m k n tileM tileK tileN
      else gemm_tiled_scalar F fadd fmul ffma contract A B C0 m k n tileM tileK tileN)
     = Done C1 /\
     out F st = C1) /\
  (exists st C1,
     spmm_trials F fzero fadd fmul ffma contract have_avx2 now_seconds
       M MB MC sn jblock layoutB variant ticks0 = Done st /\
     (if have_avx2 && String.eqb variant "simd"
      then spmm_csr_avx2 F fzero fadd fmul ffma contract M MB MC sn jblock layoutB
      else spmm_csr_scalar F fzero fadd fmul ffma contract M MB MC sn jblock layoutB)
     = Done C1 /\
     out F st = C1).
Proof.
  intros Hm Hk Hn HtM HtK HtN HA HB HC Hsn Hjb Hwf HMB HMC. split.
  - set (kernel := fun C0 : list F =>
      if have_avx2 && String.eqb variant "simd"
      then gemm_tiled_avx2 F fadd fmul ffma contract A B C0 m k n tileM tileK tileN
      else gemm_tiled_scalar F fadd fmul ffma contract A B C0 m k n tileM tileK tileN).
    set (Z0 := replicate (Z.to_nat (m * n)) fzero).
    assert (Z.of_nat (length Z0) = m * n) as HZ0
      by (unfold Z0; rewrite length_replicate; nia).
    assert (exists C1, kernel Z0 = Done C1 /\ Z.of_nat (length C1) = m * n)
      as (C1 & HC1 & HlC1).
    { unfold kernel. destruct (have_avx2 && String.eqb variant "simd").
      - by apply gemm_tiled_avx2_Done.
      - destruct (gemm_tiled_scalar_accumulates fzero fadd fmul ffma contract A B m k n
                    Hm Hk Hn HA HB tileM tileK tileN HtM HtK HtN Z0 HZ0)
          as (C1 & E & [Hl _]). exists C1. split; [done|lia]. }
    unfold gemm_trials. cbv zeta.
    destruct (for_range_inv
      (fun r (st : trial_state F) =>
         Z.of_nat (length (out F st)) = m * n /\ (1 <= r -> out F st = C1))
      (fun (r : Z) st =>
         C ← zero_fill F fzero (out F st) (m * n);
         C ← kernel C;
         Done (mkTrial F C (S (S (ticks F st))) (S (kernel_calls F st))
                 (call_times F st ++
                    [F64.sub (now_seconds (S (ticks F st)))
                             (now_seconds (ticks F st))])))
      0 15 (mkTrial F C ticks0 0 [])) as (st & Hrun & _ & Hout);
      [lia|split; [done|lia]| |].
    + intros r st Hr [Hlen _].
      rewrite (zero_fill_all fzero (out F st) (m * n) Hlen).
      cbn [mbind outcome_bind]. fold Z0. rewrite HC1.
      cbn [mbind outcome_bind]. eexists; split; [done|]. cbn. by split.
    + exists st, C1. split; [exact Hrun|]. split; [|apply Hout; lia].
      rewrite (zero_fill_all fzero C (m * n) HC).
      cbn [mbind outcome_bind]. exact HC1.
  - set (kernel := fun C0 : list F =>
      if have_avx2 && String.eqb variant "simd"
      then spmm_csr_avx2 F fzero fadd fmul ffma contract M MB C0 sn jblock layoutB
      else spmm_csr_scalar F fzero fadd fmul ffma contract M MB C0 sn jblock layoutB).
    assert (exists C1, kernel MC = Done C1 /\
              Z.of_nat (length C1) = csr_m F M * sn) as (C1 & HC1 & HlC1).
    { unfold kernel. destruct (have_avx2 && String.eqb variant "simd").
      - destruct (spmm_csr_avx2_Done fzero fadd fmul ffma contract M MB MC sn jblock
                    layoutB) as (C1 & E & Hl & _); [done..|]. by exists C1.
      - destruct (spmm_csr_scalar_Done fzero fadd fmul ffma contract M MB MC sn jblock
                    layoutB) as (C1 & E & Hl & _); [done..|]. by exists C1. }
    assert (forall C', Z.of_nat (length C') = csr_m F M * sn ->
              kernel C' = Done C1) as Hfresh.
    { intros C' HC'. rewrite <- HC1. unfold kernel.
      destruct (have_avx2 && String.eqb variant "simd").
      - by apply spmm_csr_avx2_fresh.
      - by apply spmm_csr_scalar_fresh. }
    unfold spmm_trials. cbv zeta.
    destruct (for_range_inv
      (fun r (st : trial_state F) =>
         Z.of_nat (length (out F st)) = csr_m F M * sn /\
         (1 <= r -> out F st = C1))
      (fun (r : Z) st =>
         C ← kernel (out F st);
         Done (mkTrial F C (S (S (ticks F st))) (S (kernel_calls F st))
                 (call_times F st ++
                    [F64.sub (now_seconds (S (ticks F st)))
                             (now_seconds (ticks F st))])))
      0 20 (mkTrial F MC ticks0 0 [])) as (st & Hrun & _ & Hout);
      [lia|split; [done|lia]| |].
    + intros r st Hr [Hlen _]. rewrite (Hfresh _ Hlen).
      cbn [mbind outcome_bind]. eexists; split; [done|]. cbn. by split.
    + exists st, C1. split; [exact Hrun|]. split; [exact HC1|apply Hout; lia].
Qed.

Lemma trial_loops_leave_one_result_witness :
  (exists st C1,
     gemm_trials spec_float F32.zero F32.add F32.mul F32.fma true true Ex.clock
       Ex.eye2 Ex.b5678 Ex.out2 2 2 2 64 64 128 "simd" 0 = Done st /\
     (C0 ← zero_fill spec_float F32.zero Ex.out2 (2 * 2);
      if true && String.eqb "simd" "simd"
      then gemm_tiled_avx2 spec_float F32.add F32.mul F32.fma true
             Ex.eye2 Ex.b5678 C0 2 2 2 64 64 128
      else gemm_tiled_scalar spec_float F32.add F32.mul F32.fma true
             Ex.eye2 Ex.b5678 C0 2 2 2 64 64 128)
     = Done C1 /\
     out spec_float st = C1) /\
  (exists st C1,
     spmm_trials spec_float F32.zero F32.add F32.mul F32.fma true true Ex.clock
       Ex.sparse2 Ex.dense2 Ex.out2 2 1 RowMajor "simd" 0 = Done st /\
     (if true && String.eqb "simd" "simd"
      then spmm_csr_avx2 spec_float F32.zero F32.add F32.mul F32.fma true
             Ex.sparse2 Ex.dense2 Ex.out2 2 1 RowMajor
      else spmm_csr_scalar spec_float F32.zero F32.add F32.mul F32.fma true
             Ex.sparse2 Ex.dense2 Ex.out2 2 1 RowMajor)
     = Done C1 /\
     out spec_float st = C1).
Proof.
  apply (trial_loops_leave_one_result F32.zero F32.add F32.mul F32.fma true true
           Ex.clock Ex.eye2 Ex.b5678 Ex.out2 2 2 2 64 64 128
           Ex.sparse2 Ex.dense2 Ex.out2 2 1 RowMajor "simd" 0%nat);
    [lia | lia | lia | lia | lia | lia | reflexivity | reflexivity | reflexivity
    | lia | lia | exact sparse2_wf | reflexivity | reflexivity].
Defined.

(** ** More about the timing statistics *)

Lemma SFsub_self (s : bool) (m : positive) (e : Z) :
  F64.sub (S754_finite s m e) (S754_finite s m e) = S754_zero false.
Proof.
  unfold F64.sub, SFsub. cbv zeta. by rewrite Z.sub_diag.
Qed.

(** Interpolating between a sample and itself gives the sample back. *)
Lemma lerp_self (x : spec_float) :
  x = S754_zero false \/ (exists s m e, x = S754_finite s m e) ->
  F64.add x (F64.mul (S754_zero false) (F64.sub x x)) = x.
Proof.
  intros [->|(s & m & e & ->)]; [reflexivity|].
  by rewrite SFsub_self.
Qed.

(** The key of the order tells the samples apart. *)
Lemma order_key_inj (x y : spec_float) :
  sample x -> sample y -> order_key x = order_key y -> x = y.
Proof.
  intros [Hx Hx0] [Hy Hy0].
  destruct x as [[]|[]| |[] mx ex], y as [[]|[]| |[] my ey];
    cbn [order_key]; try done; intros [=]; f_equal; lia.
Qed.

Lemma sample_antisym (x y : spec_float) :
  sample x -> sample y ->
  F64.ltb x y = false -> F64.ltb y x = false -> x = y.
Proof.
  intros Hx Hy Hxy Hyx. apply order_key_inj; [done|done|].
  assert (~ key_lt (order_key x) (order_key y)) as H1.
  { rewrite <- SFltb_key by apply Hx || apply Hy.
    unfold F64.ltb in Hxy. by rewrite Hxy. }
  assert (~ key_lt (order_key y) (order_key x)) as H2.
  { rewrite <- SFltb_key by apply Hx || apply Hy.
    unfold F64.ltb in Hyx. by rewrite Hyx. }
  unfold key_lt in *.
  destruct (order_key x) as [[a b] c], (order_key y) as [[a' b'] c'].
  cbn in *. f_equal; [f_equal|]; lia.
Qed.

(** Two sorted arrangements of the same samples are the same list. *)
Lemma sorted_perm_eq (l1 l2 : list spec_float) :
  Forall sample l1 ->
  l1 ≡ₚ l2 ->
  StronglySorted (fun x y => F64.ltb y x = false) l1 ->
  StronglySorted (fun x y => F64.ltb y x = false) l2 ->
  l1 = l2.
Proof.
  revert l2. induction l1 as [|a l1 IH]; intros l2 Hs Hperm H1 H2.
  { by apply Permutation_nil_l in Hperm. }
  destruct l2 as [|b l2]; [by apply Permutation_nil_r in Hperm|].
  apply Forall_cons in Hs as [Ha Hs].
  apply StronglySorted_cons in H1 as [Ha1 H1].
  apply StronglySorted_cons in H2 as [Hb2 H2].
  rewrite Forall_forall in Ha1, Hb2, Hs.
  assert (Forall sample (b :: l2)) as Hs2.
  { rewrite <- Hperm. apply Forall_cons. split; [done|].
    by apply Forall_forall. }
  apply Forall_cons in Hs2 as [Hb Hs2].
  assert (a = b) as <-.
  { assert (a ∈ b :: l2) as Hin by (rewrite <- Hperm; left).
    apply elem_of_cons in Hin as [|Hal2]; [done|].
    assert (b ∈ a :: l1) as Hin by (rewrite Hperm; left).
    apply elem_of_cons in Hin as [|Hbl1]; [done|].
    apply sample_antisym; [done|done|by apply Hb2|by apply Ha1]. }
  f_equal. apply IH; [by apply Forall_forall| |done|done].
  by apply Permutation_cons_inv in Hperm.
Qed.

Section StatsMore.

Context (std_sort : forall T : Type, (T -> T -> bool) -> list T -> list T).
Context (cast_ub : spec_float -> Z).
Hypothesis std_sort_sorts : sort_contract std_sort.

Lemma samples_not_nan (l : list spec_float) : Forall sample l -> Forall not_nan l.
Proof. intros H. eapply Forall_impl; [exact H|]. by intros x [? _]. Qed.

Lemma sort_samples (l l' : list spec_float) :
  Forall sample l -> l ≡ₚ l' ->
  std_sort spec_float F64.ltb l = std_sort spec_float F64.ltb l'.
Proof.
  intros Hs Hperm.
  assert (Forall sample l') as Hs' by (by rewrite <- Hperm).
  destruct (std_sort_sorts _ F64.ltb l) as [Hp1 Hsorted1].
  { by apply F64_ltb_strict_weak, samples_not_nan. }
  destruct (std_sort_sorts _ F64.ltb l') as [Hp2 Hsorted2].
  { by apply F64_ltb_strict_weak, samples_not_nan. }
  apply sorted_perm_eq; [by rewrite Hp1| |done|done].
  by rewrite Hp1, Hp2.
Qed.

Lemma percentile_us_one (x : spec_float) :
  x = S754_zero false \/ (exists s m e, x = S754_finite s m e) ->
  percentile_us std_sort cast_ub [x]
  = Done (F64.mul x (F64.of_Z 1000000), F64.mul x (F64.of_Z 1000000),
          F64.mul x (F64.of_Z 1000000)).
Proof.
  intros Hx. unfold percentile_us.
  assert (std_sort spec_float F64.ltb [x] = [x]) as ->.
  { destruct (std_sort_sorts _ F64.ltb [x]) as [Hp _].
    - apply F64_ltb_strict_weak. repeat constructor.
      by destruct Hx as [->|(s & m & e & ->)].
    - by apply Permutation_singleton_r in Hp. }
  assert (forall q, q ∈ [50; 95; 99] ->
            pick cast_ub [x] (F64.ratio q 100)
            = Done (F64.mul x (F64.of_Z 1000000))) as Hpick.
  { intros q Hq. unfold pick. cbv zeta.
    change (Z.of_nat (length [x]) - 1) with 0.
    assert (F64.mul (F64.ratio q 100) (F64.of_Z 0) = S754_zero false) as ->.
    { rewrite !elem_of_cons in Hq.
      destruct Hq as [->|[->|[->|Hq]]]; [vm_compute; reflexivity..|].
      by apply not_elem_of_nil in Hq. }
    change (to_size_t cast_ub (S754_zero false)) with 0.
    change (F64.sub (S754_zero false) (F64.of_Z 0)) with (S754_zero false).
    change (Z.min (0 + 1) 0) with 0.
    destruct (load_Done [x] 0) as (v & -> & Hv); [cbn; lia|].
    injection Hv as <-. cbn [mbind outcome_bind].
    unfold lerp_us. by rewrite lerp_self. }
  rewrite !Hpick by (rewrite !elem_of_cons; auto). reflexivity.
Qed.

Lemma sort_one (x : spec_float) :
  x = S754_zero false \/ (exists s m e, x = S754_finite s m e) ->
  std_sort spec_float F64.ltb [x] = [x].
Proof.
  intros Hx. destruct (std_sort_sorts _ F64.ltb [x]) as [Hp _].
  - apply F64_ltb_strict_weak. repeat constructor.
    by destruct Hx as [->|(s & m & e & ->)].
  - by apply Permutation_singleton_r in Hp.
Qed.

(** X13.  With a single sample, a finite number or [+0.0], the summary is
    that sample: "seconds" is the sample, and [percentile_us] sets [p50],
    [p95] and [p99] to the sample times [1e6]. *)
Theorem summary_of_single_sample (x : spec_float) :
  x = S754_zero false \/ (exists s m e, x = S754_finite s m e) ->
  median_seconds std_sort [x] = Done x /\
  percentile_us std_sort cast_ub [x]
  = Done (F64.mul x (F64.of_Z 1000000), F64.mul x (F64.of_Z 1000000),
          F64.mul x (F64.of_Z 1000000)).
Proof.
  intros Hx. split; [|by apply percentile_us_one].
  unfold median_seconds. by rewrite sort_one.
Qed.

(** X14.  The summary does not depend on the order in which the samples
    were recorded: two vectors that hold the same samples in a different
    order (none of them a NaN or [-0.0]) give the same [p50], [p95] and
    [p99] and the same "seconds", whatever [std::sort] does with equal
    elements. *)
Theorem summary_order_independent (l l' : list spec_float) :
  Forall sample l -> l ≡ₚ l' ->
  percentile_us std_sort cast_ub l = percentile_us std_sort cast_ub l' /\
  median_seconds std_sort l = median_seconds std_sort l'.
Proof.
  intros Hs Hperm. pose proof (sort_samples l l' Hs Hperm) as Hsort.
  split.
  - unfold percentile_us. rewrite Hsort.
    destruct l as [|a l], l' as [|a' l']; try done.
    + by apply Permutation_nil_l in Hperm.
    + by apply Permutation_nil_r in Hperm.
  - unfold median_seconds. by rewrite Hsort.
Qed.

End StatsMore.

Lemma samples15_are_samples : Forall sample Ex.samples15.
Proof. repeat constructor; done. Qed.

Lemma summary_of_single_sample_witness :
  median_seconds Lib.std_sort [F64.of_Z 3] = Done (F64.of_Z 3) /\
  percentile_us Lib.std_sort Lib.cast_ub [F64.of_Z 3]
  = Done (F64.mul (F64.of_Z 3) (F64.of_Z 1000000),
          F64.mul (F64.of_Z 3) (F64.of_Z 1000000),
          F64.mul (F64.of_Z 3) (F64.of_Z 1000000)).
Proof.
  apply (summary_of_single_sample Lib.std_sort Lib.cast_ub
           lib_sort_contract (F64.of_Z 3)).
  right. vm_compute. by eexists _, _, _.
Defined.

Lemma summary_order_independent_witness :
  percentile_us Lib.std_sort Lib.cast_ub Ex.samples15
  = percentile_us Lib.std_sort Lib.cast_ub (reverse Ex.samples15) /\
  median_seconds Lib.std_sort Ex.samples15
  = median_seconds Lib.std_sort (reverse Ex.samples15).
Proof.
  apply (summary_order_independent Lib.std_sort Lib.cast_ub lib_sort_contract
           Ex.samples15 (reverse Ex.samples15) samples15_are_samples).
  symmetry. apply reverse_Permutation.
Defined.

(** ** The command line *)

Lemma get_arg_from_skip (k v : string) (rest : list string) (key def : string) :
  k <> key -> v <> key ->
  get_arg_from (k :: v :: rest) key def = get_arg_from rest key def.
Proof.
  intros Hk Hv. cbn [get_arg_from].
  destruct (String.eqb_spec k key) as [|_]; [done|].
  destruct rest as [|a rest]; [done|].
  by destruct (String.eqb_spec v key) as [|_].
Qed.

Lemma get_arg_from_before (before : list (string * string))
    (rest : list string) (key def : string) :
  Forall (fun kv => kv.1 <> key /\ kv.2 <> key) before ->
  get_arg_from (flat_map (fun kv => [kv.1; kv.2]) before ++ rest) key def
  = get_arg_from rest key def.
Proof.
  induction 1 as [|[k v] before [Hk Hv] _ IH]; [done|].
  cbn [flat_map app fst snd] in *. by rewrite get_arg_from_skip.
Qed.

Lemma get_arg_found (prog : string) (before after : list (string * string))
    (key v def : string) :
  Forall (fun kv => kv.1 <> key /\ kv.2 <> key) before ->
  get_arg (command_line prog (before ++ (key, v) :: after)) key def = v.
Proof.
  intros Hbefore. unfold get_arg, command_line. cbn [drop]. rewrite drop_0.
  rewrite flat_map_app. cbn [flat_map fst snd app].
  rewrite get_arg_from_before by done. cbn [get_arg_from].
  by rewrite String.eqb_refl.
Qed.

Lemma get_arg_missing (prog : string) (opts : list (string * string))
    (key def : string) :
  Forall (fun kv => kv.1 <> key /\ kv.2 <> key) opts ->
  get_arg (command_line prog opts) key def = def.
Proof.
  intros Hopts. unfold get_arg, command_line. cbn [drop]. rewrite drop_0.
  rewrite <- (app_nil_r (flat_map _ opts)).
  by rewrite get_arg_from_before.
Qed.

Lemma get_arg_dangling (prog : string) (opts : list (string * string))
    (key def : string) :
  Forall (fun kv => kv.1 <> key /\ kv.2 <> key) opts ->
  get_arg (command_line prog opts ++ [key]) key def = def.
Proof.
  intros Hopts. unfold get_arg, command_line.
  rewrite <- app_comm_cons. cbn [drop]. rewrite drop_0.
  by rewrite get_arg_from_before.
Qed.

(** X15.  [get_arg] returns the value of the first occurrence of the
    option: on a command line of options, each a key followed by its
    value, in which no key and no value before the pair [(key, v)] is
    equal to [key], it returns [v], whatever follows.  When neither a key
    nor a value is equal to [key] it returns the default, and it does so
    too when [key] is the last argument, with no value after it. *)
Theorem get_arg_first_occurrence (prog : string)
    (before after : list (string * string)) (key v def : string) :
  Forall (fun kv => kv.1 <> key /\ kv.2 <> key) before ->
  get_arg (command_line prog (before ++ (key, v) :: after)) key def = v /\
  get_arg (command_line prog before) key def = def /\
  get_arg (command_line prog before ++ [key]) key def = def.
Proof.
  intros Hbefore. split; [|split].
  - by apply get_arg_found.
  - by apply get_arg_missing.
  - by apply get_arg_dangling.
Qed.

Lemma get_arg_first_occurrence_witness :
  get_arg (command_line "bench"
             (Ex.opts_gemm_m ++ ("--n"%string, "32"%string) :: Ex.opts_n8))
    "--n" "1024" = "32"%string /\
  get_arg (command_line "bench" Ex.opts_gemm_m) "--n" "1024" = "1024"%string /\
  get_arg (command_line "bench" Ex.opts_gemm_m ++ ["--n"%string]) "--n" "1024"
  = "1024"%string.
Proof.
  apply (get_arg_first_occurrence "bench" Ex.opts_gemm_m Ex.opts_n8
           "--n" "32" "1024").
  repeat constructor; cbn; discriminate.
Defined.

Lemma decimal_prefix_no_number (c : ascii) (s : string) :
  isspace c = false -> c <> "-"%char -> c <> "+"%char -> digit c = None ->
  decimal_prefix (String c s) = 0.
Proof.
  intros Hsp Hm Hp Hd. unfold decimal_prefix. cbn [skip_space]. rewrite Hsp.
  assert (digits (String c s) 0 = 0) as Hz by (cbn [digits]; by rewrite Hd).
  destruct (Ascii.eqb_spec c "-") as [|_]; [done|].
  destruct (Ascii.eqb_spec c "+") as [|_]; [done|].
  destruct c as [[] [] [] [] [] [] [] []]; try done.
Qed.

(** X16.  An integer option takes its default when the option is absent or
    its value is the empty string, and only then: a value that is not a
    number (its first character is neither white space, a sign nor a
    digit) is read as 0, without an error and without the default. *)
Theorem get_arg_i_not_a_number (atoi_ub : string -> Z) (prog : string)
    (before after : list (string * string)) (key : string) (c : ascii)
    (s : string) (def : Z) :
  Forall (fun kv => kv.1 <> key /\ kv.2 <> key) before ->
  isspace c = false -> c <> "-"%char -> c <> "+"%char -> digit c = None ->
  get_arg_i atoi_ub (command_line prog (before ++ (key, String c s) :: after))
    key def = 0 /\
  get_arg_i atoi_ub (command_line prog (before ++ (key, ""%string) :: after))
    key def = def /\
  get_arg_i atoi_ub (command_line prog before) key def = def.
Proof.
  intros Hbefore Hsp Hm Hp Hd. unfold get_arg_i. cbv zeta.
  rewrite !get_arg_found, get_arg_missing by done.
  split; [|done]. cbn [String.eqb]. unfold atoi.
  by rewrite decimal_prefix_no_number.
Qed.

Lemma get_arg_i_not_a_number_witness :
  get_arg_i (fun _ => 0)
    (command_line "bench"
       (Ex.opts_gemm_m ++ ("--n"%string, String "a" "bc") :: Ex.opts_n8))
    "--n" 1024 = 0 /\
  get_arg_i (fun _ => 0)
    (command_line "bench"
       (Ex.opts_gemm_m ++ ("--n"%string, ""%string) :: Ex.opts_n8))
    "--n" 1024 = 1024 /\
  get_arg_i (fun _ => 0) (command_line "bench" Ex.opts_gemm_m) "--n" 1024 = 1024.
Proof.
  apply (get_arg_i_not_a_number (fun _ => 0) "bench"
           Ex.opts_gemm_m Ex.opts_n8 "--n" "a" "bc" 1024);
    [repeat constructor; cbn; discriminate
    | reflexivity | discriminate | discriminate | reflexivity].
Defined.

(** ** [main] *)

Section StreamDone.

Context {F : Type} (fadd fmul : F -> F -> F)
        (ffma : F -> F -> F -> F) (contract : bool).
Context {rng : Type} (mt19937_64 : Z -> rng) (uniform_real : rng -> F * rng).
Context (scalar_s : F).

Local Abbreviation mul_add := (mul_add F fadd fmul ffma contract).

(** The probe runs to its end on three buffers of [N] floats. *)
Lemma stream_triad_Done (a0 b0 c0 : list F) (N iters : Z) :
  0 <= N ->
  Z.of_nat (length a0) = N ->
  Z.of_nat (length b0) = N ->
  Z.of_nat (length c0) = N ->
  exists r,
    stream_triad F fadd fmul ffma contract rng mt19937_64 uniform_real scalar_s
      a0 b0 c0 N iters = Done r.
Proof.
  intros HN Ha Hb Hc. unfold stream_triad.
  destruct (fill_random_Done mt19937_64 uniform_real a0 N 1)
    as (a1 & -> & Ha1); [lia|].
  cbn [mbind outcome_bind].
  destruct (fill_random_Done mt19937_64 uniform_real b0 N 2)
    as (b & -> & Hb1); [lia|].
  cbn [mbind outcome_bind].
  destruct (fill_random_Done mt19937_64 uniform_real c0 N 3)
    as (c & -> & Hc1); [lia|].
  cbn [mbind outcome_bind].
  destruct (for_range_preserves
    (fun x : list F => Z.of_nat (length x) = N)
    (fun (it : Z) a =>
       for_range 0 N (fun i a =>
         bi ← load b i;
         ci ← load c i;
         store a i (mul_add bi scalar_s ci)) a)
    0 iters a1) as (a & -> & _); [lia| |by eexists].
  intros it x Hit Hx.
  destruct (triad_sweep fadd fmul ffma contract scalar_s x b c N) as (x' & -> & Hx' & _);
    [lia..|].
  by eexists.
Qed.

End StreamDone.


Section MainFacts.

Context {F : Type} (fzero : F) (fadd fmul : F -> F -> F)
        (ffma : F -> F -> F -> F) (contract : bool).
Context (have_avx2 : bool) (now_seconds : nat -> spec_float).
Context {rng : Type} (mt19937_64 : Z -> rng) (uniform_real : rng -> F * rng).
Context (uniform_int : Z -> Z -> rng -> Z * rng).
Context (std_sort : forall T : Type, (T -> T -> bool) -> list T -> list T).
Context (cast_ub : spec_float -> Z) (scalar_s : F).
Context (atof : string -> spec_float) (atoi_ub : string -> Z).
Context (memalign : nat -> Z -> option (list F)).

Local Abbreviation main :=
  (main F fzero fadd fmul ffma contract have_avx2 now_seconds rng mt19937_64
     uniform_real uniform_int std_sort cast_ub scalar_s atof atoi_ub memalign).

(** X17.  [--header] comes first: when the option has a value that
    [atoi] reads as a number other than 0, [main] writes the header line,
    nothing else, and returns 0, whatever the other arguments are -- an
    unknown kernel included -- and without allocating or running
    anything. *)
Theorem main_header_only (argv : list string) :
  get_arg_i atoi_ub argv "--header" 0 <> 0 ->
  main argv = Done (Returns (mkFinished 0 [Header] [])).
Proof.
  intros Hheader. unfold main. cbv zeta.
  destruct (Z.eqb_spec (get_arg_i atoi_ub argv "--header" 0) 0) as [|_];
    [done|].
  reflexivity.
Qed.

(** X18.  An unknown kernel is reported: when [--header] is absent or 0
    and the value of [--kernel] is none of "stream", "gemm" and
    "spmm_csr", [main] writes "Unknown --kernel" on [std::cerr], writes no
    row, and returns 2. *)
Theorem main_unknown_kernel (argv : list string) :
  get_arg_i atoi_ub argv "--header" 0 = 0 ->
  get_arg argv "--kernel" "gemm" <> "stream"%string ->
  get_arg argv "--kernel" "gemm" <> "gemm"%string ->
  get_arg argv "--kernel" "gemm" <> "spmm_csr"%string ->
  main argv
  = Done (Returns (mkFinished 2 []
            [("Unknown --kernel" ++ String "010" "")%string])).
Proof.
  intros Hheader Hs Hg Hp. unfold main. cbv zeta. rewrite Hheader.
  change (negb (0 =? 0)) with false. cbv iota.
  destruct (String.eqb_spec (get_arg argv "--kernel" "gemm") "stream")
    as [|_]; [done|].
  destruct (String.eqb_spec (get_arg argv "--kernel" "gemm") "gemm")
    as [|_]; [done|].
  destruct (String.eqb_spec (get_arg argv "--kernel" "gemm") "spmm_csr")
    as [|_]; [done|].
  reflexivity.
Qed.

(** X19.  The row of the "stream" kernel: when the three buffers of
    16777216 floats are allocated, [main] returns 0 with one row, in which
    the bandwidth is 16 bytes per element and iteration over ten
    iterations, 2684354560 bytes, divided by the elapsed time of the probe
    (at least [1e-9] s) and by [1e9]; "seconds", the GFLOP/s, the number of
    non-zeros, the cycles per non-zero, the arithmetic intensity, the
    byte estimate, the conversion time and the three percentiles are
    all 0. *)
Theorem main_stream_row (argv : list string) :
  sort_contract std_sort ->
  get_arg_i atoi_ub argv "--header" 0 = 0 ->
  get_arg argv "--kernel" "gemm" = "stream"%string ->
  (forall i, (i < 3)%nat ->
     exists buf, memalign i 67108864 = Some buf /\
                 Z.of_nat (length buf) = 16777216) ->
  exists r,
    main argv = Done (Returns (mkFinished 0 [Row r] [])) /\
    row_bandwidth r
    = F64.div
        (F64.div (F64.of_Z 2684354560)
           (F64.max (F64.ratio 1 1000000000)
              (F64.sub (now_seconds 1%nat) (now_seconds 0%nat))))
        (F64.of_Z 1000000000) /\
    row_seconds r = F64.zero /\ row_gflops r = F64.zero /\
    row_nnz r = 0 /\ row_cpnz r = F64.zero /\
    row_ai r = F64.zero /\ row_bytes_est r = F64.zero /\
    row_conv_seconds r = F64.zero /\
    row_p50 r = F64.zero /\ row_p95 r = F64.zero /\ row_p99 r = F64.zero.
Proof.
  intros Hsort Hheader Hkernel Hmem. unfold main. cbv zeta.
  rewrite Hheader, Hkernel.
  change (negb (0 =? 0)) with false. cbv iota.
  change (String.eqb "stream" "stream") with true. cbv iota.
  unfold stream_branch, stream_triad_bandwidth_gbps, make_aligned_f32.
  change (Z.quot (64 * 1024 * 1024) 4) with 16777216.
  change (size_t (16777216 * 4)) with 67108864.
  destruct (Hmem 0%nat ltac:(lia)) as (a & -> & Ha).
  destruct (Hmem 1%nat ltac:(lia)) as (b & -> & Hb).
  destruct (Hmem 2%nat ltac:(lia)) as (c & -> & Hc).
  destruct (stream_triad_Done fadd fmul ffma contract mt19937_64 uniform_real scalar_s
              a b c 16777216 10) as (r & ->); [lia|done|done|done|].
  cbn [mbind outcome_bind samples].
  rewrite (percentile_us_one std_sort cast_ub Hsort F64.zero)
    by (by left).
  cbn [mbind outcome_bind].
  change (bool_decide (0 < 0)) with false. cbv iota.
  eexists. split; [reflexivity|]. cbn [row_bandwidth row_seconds row_gflops
    row_nnz row_cpnz row_ai row_bytes_est row_conv_seconds row_p50 row_p95
    row_p99 seconds gflops nnz conv_seconds bytes_est ai bw_gbps samples].
  repeat split; vm_compute; reflexivity.
Qed.

End MainFacts.


Lemma main_header_only_witness :
  main spec_float F32.zero F32.add F32.mul F32.fma true true Ex.clock
    MT.state MT.seed Lib.uniform_real Lib.uniform_int Lib.std_sort
    Lib.cast_ub Lib.scalar_s Ex.no_atof Ex.atoi_ub Ex.memalign Ex.argv_header
  = Done (Returns (mkFinished 0 [Header] [])).
Proof.
  apply (main_header_only F32.zero F32.add F32.mul F32.fma true true Ex.clock
           MT.seed Lib.uniform_real Lib.uniform_int Lib.std_sort
           Lib.cast_ub Lib.scalar_s Ex.no_atof Ex.atoi_ub Ex.memalign
           Ex.argv_header).
  vm_compute. discriminate.
Defined.

Lemma main_unknown_kernel_witness :
  main spec_float F32.zero F32.add F32.mul F32.fma true true Ex.clock
    MT.state MT.seed Lib.uniform_real Lib.uniform_int Lib.std_sort
    Lib.cast_ub Lib.scalar_s Ex.no_atof Ex.atoi_ub Ex.memalign Ex.argv_fft
  = Done (Returns (mkFinished 2 []
            [("Unknown --kernel" ++ String "010" "")%string])).
Proof.
  apply (main_unknown_kernel F32.zero F32.add F32.mul F32.fma true true Ex.clock
           MT.seed Lib.uniform_real Lib.uniform_int Lib.std_sort
           Lib.cast_ub Lib.scalar_s Ex.no_atof Ex.atoi_ub Ex.memalign
           Ex.argv_fft);
    [reflexivity | vm_compute; discriminate | vm_compute; discriminate
    | vm_compute; discriminate].
Defined.

Lemma ex_memalign_stream (i : nat) :
  (i < 3)%nat ->
  exists buf, Ex.memalign i 67108864 = Some buf /\
              Z.of_nat (length buf) = 16777216.
Proof.
  intros _. eexists. split; [reflexivity|].
  rewrite length_replicate, Z2Nat.id by (vm_compute; discriminate).
  reflexivity.
Qed.

Lemma main_stream_row_witness :
  exists r,
    main spec_float F32.zero F32.add F32.mul F32.fma true true Ex.clock
      MT.state MT.seed Lib.uniform_real Lib.uniform_int Lib.std_sort
      Lib.cast_ub Lib.scalar_s Ex.no_atof Ex.atoi_ub Ex.memalign
      Ex.argv_stream
    = Done (Returns (mkFinished 0 [Row r] [])) /\
    row_bandwidth r
    = F64.div
        (F64.div (F64.of_Z 2684354560)
           (F64.max (F64.ratio 1 1000000000)
              (F64.sub (Ex.clock 1%nat) (Ex.clock 0%nat))))
        (F64.of_Z 1000000000) /\
    row_seconds r = F64.zero /\ row_gflops r = F64.zero /\
    row_nnz r = 0 /\ row_cpnz r = F64.zero /\
    row_ai r = F64.zero /\ row_bytes_est r = F64.zero /\
    row_conv_seconds r = F64.zero /\
    row_p50 r = F64.zero /\ row_p95 r = F64.zero /\ row_p99 r = F64.zero.
Proof.
  apply (main_stream_row F32.zero F32.add F32.mul F32.fma true true Ex.clock
           MT.seed Lib.uniform_real Lib.uniform_int Lib.std_sort
           Lib.cast_ub Lib.scalar_s Ex.no_atof Ex.atoi_ub Ex.memalign
           Ex.argv_stream lib_sort_contract);
    [reflexivity | reflexivity | exact ex_memalign_stream].
Defined.


(** ** The rates of a row *)

(** [std::max(lo, x)] is never a NaN and never below [lo]. *)
Lemma max_floor (lo x : spec_float) :
  not_nan lo ->
  not_nan (F64.max lo x) /\ F64.ltb (F64.max lo x) lo = false.
Proof.
  intros Hlo. unfold F64.max, F64.ltb.
  assert (SFltb lo lo = false) as Hirr.
  { destruct (SFltb lo lo) eqn:E; [|done].
    apply SFltb_key in E; [|done|done]. unfold key_lt in E. lia. }
  destruct (SFltb lo x) eqn:E; [|done].
  assert (not_nan x) as Hx.
  { intros ->. by destruct lo as [| | |[] ? ?]. }
  split; [done|].
  destruct (SFltb x lo) eqn:E'; [|done].
  apply SFltb_key in E; [|done|done]. apply SFltb_key in E'; [|done|done].
  unfold key_lt in *. lia.
Qed.

Section RateFacts.

Context {F : Type} (fzero : F) (fadd fmul : F -> F -> F)
        (ffma : F -> F -> F -> F) (contract : bool).
Context (have_avx2 : bool) (now_seconds : nat -> spec_float).
Context {rng : Type} (mt19937_64 : Z -> rng) (uniform_real : rng -> F * rng).
Context (uniform_int : Z -> Z -> rng -> Z * rng).
Context (std_sort : forall T : Type, (T -> T -> bool) -> list T -> list T).
Context (cast_ub : spec_float -> Z).
Context (memalign : nat -> Z -> option (list F)).

Local Abbreviation gemm_branch :=
  (gemm_branch F fzero fadd fmul ffma contract have_avx2 now_seconds rng
     mt19937_64 uniform_real std_sort memalign).
Local Abbreviation spmm_branch :=
  (spmm_branch F fzero fadd fmul ffma contract have_avx2 now_seconds rng
     mt19937_64 uniform_real uniform_int std_sort cast_ub memalign).

Local Abbreviation make_random_csr :=
  (make_random_csr F fzero rng mt19937_64 uniform_real uniform_int
     std_sort cast_ub).

(** [std::max(1e-12, seconds)]. *)
Local Abbreviation floored s := (F64.max (F64.ratio 1 1000000000000) s).

Lemma gemm_branch_rates (variant : string) (m k n tileM tileK tileN seed : Z)
    (x : measured) :
  gemm_branch variant m k n tileM tileK tileN seed = Done (Some x) ->
  gflops x
  = F64.div
      (F64.div
         (F64.mul (F64.mul (F64.mul (F64.of_Z 2) (F64.of_Z m)) (F64.of_Z k))
                  (F64.of_Z n))
         (floored (seconds x)))
      (F64.of_Z 1000000000) /\
  bw_gbps x
  = F64.div (F64.div (bytes_est x) (floored (seconds x))) (F64.of_Z 1000000000).
Proof.
  intros Hrun. unfold gemm_branch in Hrun.
  unfold mbind, outcome_bind in Hrun.
  repeat match type of Hrun with
         | context [match ?e with _ => _ end] =>
             destruct e eqn:?; try discriminate Hrun
         end.
  injection Hrun as <-. cbn. by split.
Qed.

Lemma spmm_branch_rates (variant pattern : string) (layoutB : LayoutB)
    (m k n jblock seed : Z) (density : spec_float) (x : measured) :
  spmm_branch variant pattern layoutB m k n jblock seed density
  = Done (Some x) ->
  (exists A, make_random_csr m k density pattern seed = Done A /\
             nnz x = csr_nnz F A) /\
  gflops x
  = F64.div
      (F64.div
         (F64.mul (F64.mul (F64.of_Z 2) (F64.of_Z (nnz x))) (F64.of_Z n))
         (floored (seconds x)))
      (F64.of_Z 1000000000) /\
  bw_gbps x
  = F64.div (F64.div (bytes_est x) (floored (seconds x))) (F64.of_Z 1000000000).
Proof.
  intros Hrun. unfold spmm_branch in Hrun.
  unfold mbind, outcome_bind in Hrun.
  repeat match type of Hrun with
         | context [match ?e with _ => _ end] =>
             destruct e eqn:?; try discriminate Hrun
         end.
  injection Hrun as <-. cbn. split; [by eexists|]. by split.
Qed.

(** X22.  The rates are never computed from a time that is zero, negative
    or a NaN: in the measurements of the "gemm" and of the "spmm_csr"
    branch the bandwidth is [bytes_est] divided by
    [d = max(1e-12, seconds)] and by [1e9], the GFLOP/s are the flop
    count divided by [d] and by [1e9], the flop count being
    [2.0 * m * k * n] in the "gemm" branch and [2.0 * nnz * n] in the
    "spmm_csr" branch with [nnz] the number of non-zeros of the matrix
    that was built, and [d] is a number that is not below [1e-12],
    whatever the clock returned. *)
Theorem rates_use_a_floored_time (variant pattern : string)
    (layoutB : LayoutB) (m k n tileM tileK tileN jblock seed : Z)
    (density : spec_float) (x : measured) :
  gemm_branch variant m k n tileM tileK tileN seed = Done (Some x) \/
  spmm_branch variant pattern layoutB m k n jblock seed density
  = Done (Some x) ->
  exists d,
    d = F64.max (F64.ratio 1 1000000000000) (seconds x) /\
    not_nan d /\ F64.ltb d (F64.ratio 1 1000000000000) = false /\
    bw_gbps x = F64.div (F64.div (bytes_est x) d) (F64.of_Z 1000000000) /\
    (gemm_branch variant m k n tileM tileK tileN seed = Done (Some x) ->
     gflops x
     = F64.div
         (F64.div
            (F64.mul (F64.mul (F64.mul (F64.of_Z 2) (F64.of_Z m)) (F64.of_Z k))
                     (F64.of_Z n))
            d)
         (F64.of_Z 1000000000)) /\
    (spmm_branch variant pattern layoutB m k n jblock seed density
     = Done (Some x) ->
     (exists A, make_random_csr m k density pattern seed = Done A /\
                nnz x = csr_nnz F A) /\
     gflops x
     = F64.div
         (F64.div
            (F64.mul (F64.mul (F64.of_Z 2) (F64.of_Z (nnz x))) (F64.of_Z n))
            d)
         (F64.of_Z 1000000000)).
Proof.
  intros Hrun.
  destruct (max_floor (F64.ratio 1 1000000000000) (seconds x)) as [Hn Hf];
    [by vm_compute|].
  exists (F64.max (F64.ratio 1 1000000000000) (seconds x)).
  split; [done|]. split; [done|]. split; [done|]. split.
  { destruct Hrun as [Hrun|Hrun].
    - by destruct (gemm_branch_rates _ _ _ _ _ _ _ _ _ Hrun) as [_ Hb].
    - by destruct (spmm_branch_rates _ _ _ _ _ _ _ _ _ _ Hrun) as (_ & _ & Hb). }
  split.
  - intros Hg. by destruct (gemm_branch_rates _ _ _ _ _ _ _ _ _ Hg) as [Hgf _].
  - intros Hs.
    destruct (spmm_branch_rates _ _ _ _ _ _ _ _ _ _ Hs) as (HA & Hgf & _).
    by split.
Qed.

End RateFacts.


Lemma gemm_branch_2x2_runs :
  exists x,
    gemm_branch spec_float F32.zero F32.add F32.mul F32.fma true true Ex.clock
      MT.state MT.seed Lib.uniform_real Lib.std_sort Ex.memalign
      "simd" 2 2 2 64 64 128 123 = Done (Some x).
Proof. eexists. vm_compute. reflexivity. Qed.

Lemma rates_use_a_floored_time_witness :
  exists x,
    gemm_branch spec_float F32.zero F32.add F32.mul F32.fma true true Ex.clock
      MT.state MT.seed Lib.uniform_real Lib.std_sort Ex.memalign
      "simd" 2 2 2 64 64 128 123 = Done (Some x) /\
    exists d,
      d = F64.max (F64.ratio 1 1000000000000) (seconds x) /\
      not_nan d /\ F64.ltb d (F64.ratio 1 1000000000000) = false /\
      bw_gbps x = F64.div (F64.div (bytes_est x) d) (F64.of_Z 1000000000) /\
      (gemm_branch spec_float F32.zero F32.add F32.mul F32.fma true true
         Ex.clock MT.state MT.seed Lib.uniform_real Lib.std_sort Ex.memalign
         "simd" 2 2 2 64 64 128 123 = Done (Some x) ->
       gflops x
       = F64.div
           (F64.div
              (F64.mul
                 (F64.mul (F64.mul (F64.of_Z 2) (F64.of_Z 2)) (F64.of_Z 2))
                 (F64.of_Z 2))
              d)
           (F64.of_Z 1000000000)) /\
      (spmm_branch spec_float F32.zero F32.add F32.mul F32.fma true true
         Ex.clock MT.state MT.seed Lib.uniform_real Lib.uniform_int
         Lib.std_sort Lib.cast_ub Ex.memalign
         "simd" "uniform" RowMajor 2 2 2 128 123 (F64.of_Z 1)
       = Done (Some x) ->
       (exists A, Lib.make_random_csr 2 2 (F64.of_Z 1) "uniform" 123 = Done A /\
                  nnz x = csr_nnz spec_float A) /\
       gflops x
       = F64.div
           (F64.div
              (F64.mul (F64.mul (F64.of_Z 2) (F64.of_Z (nnz x))) (F64.of_Z 2))
              d)
           (F64.of_Z 1000000000)).
Proof.
  destruct gemm_branch_2x2_runs as [x Hx]. exists x. split; [exact Hx|].
  apply (rates_use_a_floored_time F32.zero F32.add F32.mul F32.fma true true
           Ex.clock MT.seed Lib.uniform_real Lib.uniform_int Lib.std_sort
           Lib.cast_ub Ex.memalign "simd" "uniform" RowMajor
           2 2 2 64 64 128 128 123 (F64.of_Z 1) x).
  left. exact Hx.
Defined.


Section ExitFacts.

Context {F : Type} (fzero : F) (fadd fmul : F -> F -> F)
        (ffma : F -> F -> F -> F) (contract : bool).
Context (have_avx2 : bool) (now_seconds : nat -> spec_float).
Context {rng : Type} (mt19937_64 : Z -> rng) (uniform_real : rng -> F * rng).
Context (uniform_int : Z -> Z -> rng -> Z * rng).
Context (std_sort : forall T : Type, (T -> T -> bool) -> list T -> list T).
Context (cast_ub : spec_float -> Z) (scalar_s : F).
Context (atof : string -> spec_float) (atoi_ub : string -> Z).
Context (memalign : nat -> Z -> option (list F)).

Local Abbreviation main :=
  (main F fzero fadd fmul ffma contract have_avx2 now_seconds rng mt19937_64
     uniform_real uniform_int std_sort cast_ub scalar_s atof atoi_ub memalign).

(** X23.  What a run of [main] that returns has done: either it returns 0
    after writing exactly one line on [std::cout], the header or a row,
    and nothing on [std::cerr]; or it returns 2 after writing
    "Unknown --kernel" on [std::cerr] and nothing on [std::cout], and
    this happens only when the value of [--kernel] is none of "stream",
    "gemm" and "spmm_csr".  No other value is returned, and a row is never
    written together with an error. *)
Theorem main_exit_codes (argv : list string) (f : finished) :
  main argv = Done (Returns f) ->
  (returned f = 0 /\ cerr f = [] /\ exists line, cout f = [line]) \/
  (returned f = 2 /\ cout f = [] /\
   cerr f = [("Unknown --kernel" ++ String "010" "")%string] /\
   get_arg argv "--kernel" "gemm" <> "stream"%string /\
   get_arg argv "--kernel" "gemm" <> "gemm"%string /\
   get_arg argv "--kernel" "gemm" <> "spmm_csr"%string).
Proof.
  unfold main. cbv zeta. intros Hrun.
  destruct (negb (get_arg_i atoi_ub argv "--header" 0 =? 0)).
  { injection Hrun as <-. left. cbn.
    split; [done|split; [done|by eexists]]. }
  destruct (String.eqb_spec (get_arg argv "--kernel" "gemm") "stream")
    as [Hs|Hs].
  { unfold mbind, outcome_bind in Hrun.
    repeat match type of Hrun with
           | context [match ?e with _ => _ end] =>
               destruct e eqn:?; try discriminate Hrun
           end;
      injection Hrun as <-; left; cbn;
      (split; [done|split; [done|by eexists]]). }
  destruct (String.eqb_spec (get_arg argv "--kernel" "gemm") "gemm")
    as [Hg|Hg].
  { unfold mbind, outcome_bind in Hrun.
    repeat match type of Hrun with
           | context [match ?e with _ => _ end] =>
               destruct e eqn:?; try discriminate Hrun
           end;
      injection Hrun as <-; left; cbn;
      (split; [done|split; [done|by eexists]]). }
  destruct (String.eqb_spec (get_arg argv "--kernel" "gemm") "spmm_csr")
    as [Hp|Hp].
  { unfold mbind, outcome_bind in Hrun.
    repeat match type of Hrun with
           | context [match ?e with _ => _ end] =>
               destruct e eqn:?; try discriminate Hrun
           end;
      injection Hrun as <-; left; cbn;
      (split; [done|split; [done|by eexists]]). }
  injection Hrun as <-. right. cbn. by repeat split.
Qed.

End ExitFacts.

Lemma main_fft_returns :
  main spec_float F32.zero F32.add F32.mul F32.fma true true Ex.clock
    MT.state MT.seed Lib.uniform_real Lib.uniform_int Lib.std_sort
    Lib.cast_ub Lib.scalar_s Ex.no_atof Ex.atoi_ub Ex.memalign Ex.argv_fft
  = Done (Returns (mkFinished 2 []
            [("Unknown --kernel" ++ String "010" "")%string])).
Proof. vm_compute. reflexivity. Qed.

Lemma main_exit_codes_witness :
  let f := mkFinished 2 [] [("Unknown --kernel" ++ String "010" "")%string] in
  (returned f = 0 /\ cerr f = [] /\ exists line, cout f = [line]) \/
  (returned f = 2 /\ cout f = [] /\
   cerr f = [("Unknown --kernel" ++ String "010" "")%string] /\
   get_arg Ex.argv_fft "--kernel" "gemm" <> "stream"%string /\
   get_arg Ex.argv_fft "--kernel" "gemm" <> "gemm"%string /\
   get_arg Ex.argv_fft "--kernel" "gemm" <> "spmm_csr"%string).
Proof.
  exact (main_exit_codes F32.zero F32.add F32.mul F32.fma true true Ex.clock
           MT.seed Lib.uniform_real Lib.uniform_int Lib.std_sort
           Lib.cast_ub Lib.scalar_s Ex.no_atof Ex.atoi_ub Ex.memalign
           Ex.argv_fft _ main_fft_returns).
Defined.

(** ** The perf counters *)

Lemma string_length_append (a b : string) :
  String.length (String.append a b) = (String.length a + String.length b)%nat.
Proof. induction a as [|c a IH]; cbn; [done|]. by rewrite IH. Qed.

Lemma string_append_assoc (a b c : string) :
  String.append (String.append a b) c = String.append a (String.append b c).
Proof. induction a as [|x a IH]; cbn; [done|]. by rewrite IH. Qed.

Lemma fgets_line (room : nat) (line after : string) :
  strchr line "010" = false -> (String.length line < room)%nat ->
  fgets room (String.append line (String "010" after))
  = (String.append line (String "010" EmptyString), after).
Proof.
  revert room. induction line as [|c line IH]; intros room Hnl Hlen.
  - destruct room as [|room]; [cbn in Hlen; lia|]. reflexivity.
  - destruct room as [|room]; [cbn in Hlen; lia|].
    cbn [strchr] in Hnl. apply orb_false_iff in Hnl as [Hc Hnl].
    cbn [String.append fgets]. rewrite Hc.
    rewrite IH by (done || cbn in Hlen; lia). reflexivity.
Qed.

Lemma c_str_line (line : string) :
  strchr line "000" = false ->
  c_str (String.append line (String "010" EmptyString))
  = String.append line (String "010" EmptyString).
Proof.
  induction line as [|c line IH]; intros Hnul; [reflexivity|].
  cbn [strchr] in Hnul. apply orb_false_iff in Hnul as [Hc Hnul].
  cbn [String.append c_str]. rewrite Hc. by rewrite IH.
Qed.

(** One turn of the loop on a file that starts with a text line. *)
Lemma parse_lines_step (atof : string -> spec_float) (fuel : nat)
    (line after event : string) :
  text_line line ->
  parse_lines atof (S fuel) (String.append line (String "010" after)) event
  = match parse_line atof (String.append line (String "010" EmptyString)) event with
    | Some v => Some v
    | None => parse_lines atof fuel after event
    end.
Proof.
  intros (Hnl & Hnul & Hlen). cbn [parse_lines].
  rewrite fgets_line by done. rewrite c_str_line by done.
  by destruct line.
Qed.

Lemma parse_lines_skip (atof : string -> spec_float) (skipped : list string)
    (rest event : string) (fuel : nat) :
  Forall (fun l => text_line l /\
            parse_line atof (String.append l (String "010" EmptyString)) event
            = None) skipped ->
  parse_lines atof (length skipped + fuel) (String.append (unlines skipped) rest)
    event
  = parse_lines atof fuel rest event.
Proof.
  induction 1 as [|l skipped [Hl Hskip] _ IH]; [done|].
  cbn [unlines foldr length Nat.add]. fold (unlines skipped).
  rewrite string_append_assoc. cbn [String.append].
  rewrite parse_lines_step by done. by rewrite Hskip.
Qed.

Lemma skip_commas_token (c : ascii) (s : string) :
  Ascii.eqb c "," = false -> skip_commas (String c s) = String c s.
Proof. intros Hc. cbn. by rewrite Hc. Qed.

Lemma until_comma_token (tok rest : string) :
  strchr tok "," = false ->
  until_comma (String.append tok (String "," rest)) = tok.
Proof.
  induction tok as [|c tok IH]; intros Hc; [reflexivity|].
  cbn [strchr] in Hc. apply orb_false_iff in Hc as [Hc Htok].
  cbn [String.append until_comma]. rewrite Hc. by rewrite IH.
Qed.

Lemma unlines_length (lines : list string) :
  (length lines <= String.length (unlines lines))%nat.
Proof.
  induction lines as [|l lines IH]; [cbn; lia|].
  cbn [unlines foldr length]. fold (unlines lines).
  rewrite string_length_append. cbn [String.length]. lia.
Qed.

(** X20.  [parse_perf_csv_value] reads the first field of the first line
    that holds the name of the event anywhere in it and whose first field
    has no ['<'] (perf writes [<not counted>] and [<not supported>]
    there): on a file of text lines in which the loop goes on at every
    line before the line [tok,rest], with [tok] a field that is not empty
    and free of ['<'], it returns [true] with [atof(tok)], whatever
    follows that line. *)
Theorem parse_perf_csv_value_first_match (fopen : string -> option string)
    (atof : string -> spec_float) (path event : string)
    (skipped : list string) (tok rest after : string) :
  fopen path
  = Some (String.append (unlines skipped)
            (String.append (String.append tok (String "," rest))
                           (String "010" after))) ->
  Forall (fun l => text_line l /\
            parse_line atof (String.append l (String "010" EmptyString)) event
            = None) skipped ->
  text_line (String.append tok (String "," rest)) ->
  tok <> EmptyString ->
  strchr tok "," = false -> strchr tok "<" = false ->
  strstr (String.append (String.append tok (String "," rest))
                        (String "010" EmptyString)) event = true ->
  parse_perf_csv_value fopen atof path event = Some (atof tok).
Proof.
  intros Hopen Hskipped Hline Htok Hcomma Hlt Hevent.
  unfold parse_perf_csv_value. rewrite Hopen.
  set (line := String.append tok (String "," rest)) in *.
  rewrite string_length_append.
  pose proof (unlines_length skipped) as Hlen.
  replace (String.length (unlines skipped)
           + String.length (String.append line (String "010" after)))%nat
    with (length skipped
          + S (String.length (unlines skipped) - length skipped
               + (String.length (String.append line (String "010" after)) - 1)))%nat.
  2:{ rewrite string_length_append. cbn [String.length]. lia. }
  rewrite parse_lines_skip by done.
  rewrite parse_lines_step by done.
  unfold parse_line. rewrite Hevent. cbn [negb].
  unfold strtok_first, line. rewrite string_append_assoc.
  destruct tok as [|c tok]; [done|].
  cbn [strchr] in Hcomma. apply orb_false_iff in Hcomma as [Hc Hcomma].
  cbn [String.append]. rewrite skip_commas_token by done.
  pose proof (until_comma_token (String c tok)
                (String.append rest (String "010" EmptyString))) as Htoken.
  cbn [String.append strchr] in Htoken.
  rewrite Htoken by (by rewrite Hc, Hcomma).
  by rewrite Hlt.
Qed.


Lemma string_append_nil_r (s : string) : String.append s EmptyString = s.
Proof. induction s as [|c s IH]; cbn; [done|]. by rewrite IH. Qed.

Lemma parse_lines_nothing (atof : string -> spec_float) (lines : list string)
    (event : string) :
  Forall (fun l => text_line l /\
            parse_line atof (String.append l (String "010" EmptyString)) event
            = None) lines ->
  parse_lines atof (String.length (unlines lines)) (unlines lines) event = None.
Proof.
  intros Hlines. pose proof (unlines_length lines) as Hlen.
  replace (String.length (unlines lines))
    with (length lines + (String.length (unlines lines) - length lines))%nat
    by lia.
  rewrite <- (string_append_nil_r (unlines lines)) at 2.
  rewrite parse_lines_skip by done.
  by destruct (String.length (unlines lines) - length lines)%nat.
Qed.

(** The six events of [read_perf_csv]. *)
Lemma read_perf_csv_none (fopen : string -> option string)
    (atof : string -> spec_float) (path : string) :
  (forall event, event ∈ perf_events ->
     parse_perf_csv_value fopen atof path event = None) ->
  read_perf_csv fopen atof path
  = mkPerfCounters false F64.zero F64.zero F64.zero F64.zero F64.zero F64.zero.
Proof.
  intros Hnone. unfold read_perf_csv. cbv zeta.
  by rewrite !Hnone by (unfold perf_events; rewrite !elem_of_cons; auto 10).
Qed.

(** X21.  A file that cannot be read is not an error for [read_perf_csv],
    and neither is a file without counters: when the file cannot be
    opened, and when it is made of text lines on none of which the loop of
    [parse_perf_csv_value] stops for any of the six events, the result has
    [valid = false] and every counter at [0.0]. *)
Theorem read_perf_csv_nothing_found (fopen : string -> option string)
    (atof : string -> spec_float) (path : string) :
  fopen path = None \/
  (exists lines,
     fopen path = Some (unlines lines) /\
     Forall (fun l => text_line l /\
               forall event, event ∈ perf_events ->
                 parse_line atof (String.append l (String "010" EmptyString))
                   event = None) lines) ->
  read_perf_csv fopen atof path
  = mkPerfCounters false F64.zero F64.zero F64.zero F64.zero F64.zero F64.zero.
Proof.
  intros Hfile. apply read_perf_csv_none. intros event Hevent.
  unfold parse_perf_csv_value.
  destruct Hfile as [->|(lines & -> & Hlines)]; [done|].
  apply parse_lines_nothing.
  eapply Forall_impl; [exact Hlines|]. intros l [Hl Hnone]. split; [done|].
  by apply Hnone.
Qed.

Lemma perf_skipped_ok :
  Forall (fun l => text_line l /\
            parse_line Ex.digits_atof
              (String.append l (String "010" EmptyString)) "cycles" = None)
    Ex.perf_lines_skipped.
Proof.
  constructor; [|constructor]. split; [|vm_compute; reflexivity].
  split; [vm_compute; reflexivity | split; [vm_compute; reflexivity | cbn; lia]].
Qed.

Lemma parse_perf_csv_value_first_match_witness :
  parse_perf_csv_value Ex.fopen Ex.digits_atof "perf.csv" "cycles"
  = Some (Ex.digits_atof Ex.perf_tok).
Proof.
  apply (parse_perf_csv_value_first_match Ex.fopen Ex.digits_atof "perf.csv" "cycles"
           Ex.perf_lines_skipped Ex.perf_tok Ex.perf_rest Ex.perf_after);
    [reflexivity | exact perf_skipped_ok
    | split; [vm_compute; reflexivity | split; [vm_compute; reflexivity | cbn; lia]]
    | discriminate | reflexivity | reflexivity | vm_compute; reflexivity].
Defined.

Lemma other_lines_ok :
  Forall (fun l => text_line l /\
            forall event, event ∈ perf_events ->
              parse_line Ex.digits_atof
                (String.append l (String "010" EmptyString)) event = None)
    Ex.other_lines.
Proof.
  apply Forall_forall. intros l Hl. unfold Ex.other_lines in Hl.
  rewrite !elem_of_cons in Hl.
  destruct Hl as [->|[->|Hl]]; [| |by apply not_elem_of_nil in Hl].
  all: split;
    [split; [vm_compute; reflexivity
            |split; [vm_compute; reflexivity|cbn; lia]]|].
  all: intros event Hevent; unfold perf_events in Hevent;
    rewrite !elem_of_cons in Hevent;
    destruct Hevent as [->|[->|[->|[->|[->|[->|Hevent]]]]]];
    [vm_compute; reflexivity..|by apply not_elem_of_nil in Hevent].
Qed.

Lemma read_perf_csv_nothing_found_witness :
  read_perf_csv Ex.fopen_other Ex.digits_atof "perf.csv"
  = mkPerfCounters false F64.zero F64.zero F64.zero F64.zero F64.zero F64.zero.
Proof.
  apply (read_perf_csv_nothing_found Ex.fopen_other Ex.digits_atof "perf.csv").
  right. exists Ex.other_lines. split; [reflexivity|exact other_lines_ok].
Defined.

(** The counters of the example file: the line of the counter that was
    not counted is passed over. *)
Example read_perf_csv_example :
  read_perf_csv Ex.fopen Ex.digits_atof "perf.csv"
  = mkPerfCounters true (F64.of_Z 123456) (F64.of_Z 7890)
      F64.zero F64.zero F64.zero F64.zero.
Proof. vm_compute. reflexivity. Qed.
